(** * Flood screenshot analysis: a shallow embedding of [analyze_screenshots.py]

    The development follows the Python module function by function:
    - Python's binary64 [float] arithmetic, as far as the module uses it
      (literals, [int * float], [int / int], [round], comparisons);
    - the [str] methods used to parse file names, and [int(str)];
    - [analyze_image], with its [try]/[except] boundary;
    - [main], with its two modes;
    - of [automated_test.py], the names of the screenshots it writes, which
      [main] parses, and [get_cesium_token].

    Exceptions are explicit: a computation is a [result], either [Ok v] or
    [Raise text] where [text] is what [str(e)] gives. *)

From Stdlib Require Import ZArith QArith Qround Qpower Lia Lqa List Bool String Ascii.
From Stdlib Require Import Floats.
From stdpp Require Import gmap sorting.
Import ListNotations.
Open Scope Z_scope.

(** ** Exceptions *)

Inductive result (A : Type) : Type :=
| Ok (a : A)
| Raise (e : string).
Arguments Ok {A} a.
Arguments Raise {A} e.

#[export] Instance result_ret : MRet result := λ A a, Ok a.
#[export] Instance result_bind : MBind result := λ A B f m,
  match m with
  | Ok a => f a
  | Raise e => Raise e
  end.

(** [try: body except Exception as e: handler(str(e))] *)
Definition try_except {A} (body : result A) (handler : string → result A) : result A :=
  match body with
  | Ok a => Ok a
  | Raise e => handler e
  end.

(** [for x in xs: st = body(x, st)], stopping at the first exception. *)
Fixpoint for_each {A S : Type} (xs : list A) (body : A → S → result S) (st : S) : result S :=
  match xs with
  | [] => Ok st
  | x :: xs' => st' ← body x st; for_each xs' body st'
  end.

(** Python's [range(lo, hi)]. *)
Definition range (lo hi : Z) : list Z := seqZ lo (hi - lo).

(** ** Python floats

    A finite binary64 value is represented by the rational number it denotes.
    Every operation is the exact operation followed by rounding to the nearest
    value with a 53-bit significand, ties to even (IEEE 754 round-half-even,
    which is what CPython's [float] and [int.__truediv__] deliver).  The
    exponent range is not modelled: every value the module computes is 0 or
    lies between 1e-5 and 3e6. *)
Module PyFloat.

(** Round to the nearest integer, ties to even. *)
Definition rne (x : Q) : Z :=
  let f := Qfloor x in
  match Qcompare (x - inject_Z f) (1 # 2) with
  | Lt => f
  | Gt => f + 1
  | Eq => if Z.even f then f else f + 1
  end.

(** For [0 < x], the [e] with [2^e <= x < 2^(e+1)]. *)
Definition binade (x : Q) : Z :=
  let d := Z.log2 (Qnum x) - Z.log2 (Zpos (Qden x)) in
  if Qle_bool (2 ^ d) x then d else d - 1.

(** The binary64 value nearest to [x]. *)
Definition round53 (x : Q) : Q :=
  let x := Qred x in
  match Qnum x with
  | Z0 => 0%Q
  | Zpos _ =>
      let u := (2 ^ (binade x - 52))%Q in
      Qred (inject_Z (rne (x / u)) * u)
  | Zneg _ =>
      let u := (2 ^ (binade (- x) - 52))%Q in
      Qred (- (inject_Z (rne (- x / u)) * u))
  end.

(** [float(n)] *)
Definition of_int (n : Z) : Q := round53 (inject_Z n).

(** [x * y] on floats *)
Definition mul (x y : Q) : Q := round53 (x * y).

(** [n * y] with [n] an [int] and [y] a [float]: [n] is converted first. *)
Definition int_mul (n : Z) (y : Q) : Q := mul (of_int n) y.

(** [a / b] on two [int]s: the correctly rounded quotient, or
    [ZeroDivisionError]. *)
Definition int_truediv (a b : Z) : result Q :=
  if b =? 0 then Raise "division by zero"
  else Ok (round53 (inject_Z a / inject_Z b)).

(** [n > x] with [n] an [int] and [x] a [float]: Python compares the exact
    values. *)
Definition int_gt (n : Z) (x : Q) : bool := negb (Qle_bool (inject_Z n) x).

(** [x > y] on floats *)
Definition gt (x y : Q) : bool := negb (Qle_bool x y).

(** [round(x, ndigits)]: the decimal with [ndigits] places nearest to the
    exact value of [x] (ties to even), converted back to a float. *)
Definition round_ndigits (x : Q) (ndigits : Z) : Q :=
  let p := (10 ^ ndigits)%Q in
  round53 (inject_Z (rne (x * p)) / p).

(** [round(x)]: an [int]. *)
Definition round (x : Q) : Z := rne x.

(** The literals of the module. *)
Definition lit_1_3 : Q := round53 (13 # 10).
Definition lit_1_1 : Q := round53 (11 # 10).
Definition lit_0_1 : Q := round53 (1 # 10).

(** The rational denoted by a hardware float, to compare the model with
    the kernel's binary64 arithmetic. *)
Definition of_prim (f : PrimFloat.float) : option Q :=
  match Prim2SF f with
  | S754_zero _ => Some 0%Q
  | S754_finite s m e =>
      Some (Qred ((if s then -1 else 1) * inject_Z (Zpos m) * 2 ^ e))
  | _ => None
  end.

Definition prim_of_int (z : Z) : PrimFloat.float :=
  PrimFloat.of_uint63 (Uint63.of_Z z).

End PyFloat.

(** ** Python strings *)
Module PyStr.
Open Scope string_scope.

(** [s.startswith(p)] *)
Definition startswith (s p : string) : bool := String.prefix p s.

(** [s.replace(old, new)] for a non-empty [old]: every occurrence, left to
    right, without overlap.  [skip] counts the characters of a matched
    occurrence that are still to be dropped. *)
Fixpoint replace_from (old new : string) (skip : nat) (s : string) : string :=
  match s with
  | EmptyString => EmptyString
  | String c s' =>
      match skip with
      | S k => replace_from old new k s'
      | O =>
          if String.prefix old s
          then new ++ replace_from old new (String.length old - 1) s'
          else String c (replace_from old new 0 s')
      end
  end.

Definition replace (s old new : string) : string := replace_from old new 0 s.

Fixpoint drop (n : nat) (s : string) : string :=
  match n, s with
  | S k, String _ s' => drop k s'
  | _, _ => s
  end.

(** The rightmost occurrence of [sep] in [s]: what is before it and what
    is after it. *)
Fixpoint rpartition (sep s : string) : option (string * string) :=
  match s with
  | EmptyString => None
  | String c s' =>
      match rpartition sep s' with
      | Some (before, after) => Some (String c before, after)
      | None =>
          if String.prefix sep s
          then Some (EmptyString, drop (String.length sep) s)
          else None
      end
  end.

(** [s.rsplit(sep, 1)] for a non-empty [sep]. *)
Definition rsplit1 (s sep : string) : list string :=
  match rpartition sep s with
  | Some (before, after) => [before; after]
  | None => [s]
  end.

Fixpoint contains (c : ascii) (chars : string) : bool :=
  match chars with
  | EmptyString => false
  | String d chars' => Ascii.eqb c d || contains c chars'
  end.

(** [s.lstrip(chars)] *)
Fixpoint lstrip (s chars : string) : string :=
  match s with
  | EmptyString => EmptyString
  | String c s' => if contains c chars then lstrip s' chars else s
  end.

Fixpoint rev_onto (s acc : string) : string :=
  match s with
  | EmptyString => acc
  | String c s' => rev_onto s' (String c acc)
  end.

Definition rev (s : string) : string := rev_onto s EmptyString.

(** The characters [str.isspace] accepts among the first 256 code points. *)
Definition whitespace : string :=
  String (ascii_of_nat 9) (String (ascii_of_nat 10) (String (ascii_of_nat 11)
  (String (ascii_of_nat 12) (String (ascii_of_nat 13) (String (ascii_of_nat 28)
  (String (ascii_of_nat 29) (String (ascii_of_nat 30) (String (ascii_of_nat 31)
  (String (ascii_of_nat 32) (String (ascii_of_nat 133)
  (String (ascii_of_nat 160) EmptyString))))))))))).

(** [s.strip()] *)
Definition strip (s : string) : string :=
  rev (lstrip (rev (lstrip s whitespace)) whitespace).

Definition digit_of (c : ascii) : option Z :=
  let n := Z.of_nat (nat_of_ascii c) in
  if ((48 <=? n) && (n <=? 57))%Z then Some (n - 48)%Z else None.

(** Decimal digits, single underscores allowed between digits. *)
Fixpoint digits (s : string) (acc : Z) (after_digit : bool) : option Z :=
  match s with
  | EmptyString => if after_digit then Some acc else None
  | String c s' =>
      if Ascii.eqb c "_"%char
      then (if after_digit then digits s' acc false else None)
      else match digit_of c with
           | Some d => digits s' (10 * acc + d)%Z true
           | None => None
           end
  end.

(** [s.strip(chars)] *)
Definition strip_chars (s chars : string) : string :=
  rev (lstrip (rev (lstrip s chars)) chars).

Fixpoint take (n : nat) (s : string) : string :=
  match n, s with
  | S k, String c s' => String c (take k s')
  | _, _ => EmptyString
  end.

(** [repr(s)], for [%R] in the text of an exception.  The string is quoted
    with [']; with the double quote when it holds a ['] and no double quote.
    The quote and the backslash are escaped, tab, line feed and carriage
    return are written [\t], [\n] and [\r], and the other characters that
    [str.isprintable] rejects are written [\xhh]. *)
Definition backslash : ascii := ascii_of_nat 92.
Definition single_quote : ascii := ascii_of_nat 39.
Definition double_quote : ascii := ascii_of_nat 34.

Definition isprintable (c : ascii) : bool :=
  let n := nat_of_ascii c in
  ((32 <=? n) && (n <? 127) || (161 <=? n) && negb (n =? 173))%nat.

Definition hex_digit (n : nat) : ascii :=
  if (n <? 10)%nat then ascii_of_nat (48 + n) else ascii_of_nat (87 + n).

Definition repr_char (quote c : ascii) : string :=
  if Ascii.eqb c quote || Ascii.eqb c backslash then String backslash (String c "")
  else if Ascii.eqb c (ascii_of_nat 9) then String backslash "t"
  else if Ascii.eqb c (ascii_of_nat 10) then String backslash "n"
  else if Ascii.eqb c (ascii_of_nat 13) then String backslash "r"
  else if isprintable c then String c ""
  else String backslash
         (String "x" (String (hex_digit (nat_of_ascii c / 16))
                        (String (hex_digit (nat_of_ascii c mod 16)) ""))).

Fixpoint repr_chars (quote : ascii) (s : string) : string :=
  match s with
  | EmptyString => EmptyString
  | String c s' => repr_char quote c ++ repr_chars quote s'
  end.

Definition repr (s : string) : string :=
  let quote :=
    if contains single_quote s && negb (contains double_quote s)
    then double_quote else single_quote in
  String quote (repr_chars quote s ++ String quote "").

(** The white space [int] skips around a number: the ASCII white space and,
    above 127, the code points [str.isspace] accepts.  The separators 28 to
    31, which [strip] removes, are not among them. *)
Definition int_whitespace : string :=
  String (ascii_of_nat 9) (String (ascii_of_nat 10) (String (ascii_of_nat 11)
  (String (ascii_of_nat 12) (String (ascii_of_nat 13) (String (ascii_of_nat 32)
  (String (ascii_of_nat 133) (String (ascii_of_nat 160) EmptyString))))))).

(** [int(s)] in base 10: surrounding white space, an optional sign, digits.
    The text of the [ValueError] is formatted with [%.200R]: the [repr] of
    the argument, cut at 200 characters.

    CPython 3.11 and later refuse, unless the limit is lifted with
    [sys.set_int_max_str_digits], an argument of more than 4300 digits.  The
    limit is a setting of the interpreter and is left out: [max_str_digits]
    below bounds the numbers of the statements that depend on it. *)
Definition int (s : string) : result Z :=
  let body := strip_chars s int_whitespace in
  let parsed :=
    match body with
    | String "-"%char ds => option_map Z.opp (digits ds 0 false)
    | String "+"%char ds => digits ds 0 false
    | _ => digits body 0 false
    end in
  match parsed with
  | Some n => Ok n
  | None => Raise ("invalid literal for int() with base 10: " ++ take 200 (repr s))
  end.

(** [xs[i]] on a list *)
Definition index {A} (xs : list A) (i : nat) : result A :=
  match nth_error xs i with
  | Some x => Ok x
  | None => Raise "list index out of range"
  end.

Definition str_le (a b : string) : Prop := String.leb a b = true.

#[global] Instance str_le_dec : RelDecision str_le.
Proof. intros a b; unfold str_le; apply _. Defined.

(** [sorted(names)]: strings in code point order. *)
Definition sorted (names : list string) : list string := merge_sort str_le names.

End PyStr.

(** ** Images

    What the module uses of PIL: [img.size] and [img.getpixel((x, y))].
    [getpixel] returns a tuple of band values for a multi-band image (RGB,
    RGBA, LA, ...) and a bare number for a single-band one (L, P, 1, I).
    The float pixels of mode F are left out: [len] fails on them as it does
    on integers. *)
Module PIL.

Inductive pixel : Type :=
| Band (v : Z)
| Bands (channels : list Z).

Record Image : Type := {
  size : Z * Z;
  getpixel : Z * Z → pixel
}.

End PIL.

(** [len(pixel)]: a number has no length. *)
Definition len (p : PIL.pixel) : result Z :=
  match p with
  | PIL.Band _ => Raise "object of type 'int' has no len()"
  | PIL.Bands channels => Ok (Z.of_nat (length channels))
  end.

(** [pixel[i]] *)
Definition item (p : PIL.pixel) (i : nat) : result Z :=
  match p with
  | PIL.Band _ => Raise "'int' object is not subscriptable"
  | PIL.Bands channels =>
      match nth_error channels i with
      | Some v => Ok v
      | None => Raise "tuple index out of range"
      end
  end.

(** What the program sees of its environment: the directory it scans, the
    names [os.listdir] returns (the directory is taken to exist), and what
    [Image.open] does on a path.  A file whose data cannot be decoded fails
    at [Image_open]; PIL may report it at the first [getpixel] only, which
    is inside the same [try] block. *)
Record World : Type := {
  SCREENSHOT_DIR : string;
  listdir : list string;
  Image_open : string → result PIL.Image
}.

(** [os.path.join(dir, name)] for a relative [name]. *)
Definition path_join (dir name : string) : string := (dir ++ "/" ++ name)%string.

(** ** [analyze_image] *)

(** The local variables the sampling loop updates. *)
Record locals : Type := {
  blue_pixels : Z;
  total_pixels : Z;
  avg_r : Z;
  avg_g : Z;
  avg_b : Z
}.

(** The dictionary a successful analysis returns, by key. *)
Record stats : Type := {
  rec_blue_pixels : Z;
  rec_total_pixels : Z;
  rec_blue_ratio : Q;
  rec_avg_color : Z * Z * Z;
  rec_has_flooding : bool
}.

(** The dictionary [analyze_image] returns: the statistics, or
    [{"error": text}]. *)
Inductive analysis : Type :=
| Stats (s : stats)
| Error (text : string).

(** [b > 100 and b > r * 1.3 and b > g * 1.1] *)
Definition is_blue (r g b : Z) : bool :=
  (100 <? b)
  && PyFloat.int_gt b (PyFloat.int_mul r PyFloat.lit_1_3)
  && PyFloat.int_gt b (PyFloat.int_mul g PyFloat.lit_1_1).

(** The body of the inner loop, at coordinate [(x, y)]. *)
Definition visit (img : PIL.Image) (x y : Z) (st : locals) : result locals :=
  let '(width, height) := PIL.size img in
  if (0 <=? x) && (x <? width) && (0 <=? y) && (y <? height) then
    let pixel := PIL.getpixel img (x, y) in
    n ← len pixel;
    if 3 <=? n then
      r ← item pixel 0;
      g ← item pixel 1;
      b ← item pixel 2;
      let st := {| blue_pixels := blue_pixels st;
                   total_pixels := total_pixels st + 1;
                   avg_r := avg_r st + r;
                   avg_g := avg_g st + g;
                   avg_b := avg_b st + b |} in
      if is_blue r g b
      then Ok {| blue_pixels := blue_pixels st + 1;
                 total_pixels := total_pixels st;
                 avg_r := avg_r st;
                 avg_g := avg_g st;
                 avg_b := avg_b st |}
      else Ok st
    else Ok st
  else Ok st.

Definition box_size : Z := 50.

(** The two nested loops over the sample window. *)
Definition sample (img : PIL.Image) : result locals :=
  let '(width, height) := PIL.size img in
  let center_x := width / 2 in
  let center_y := height / 2 in
  for_each (range (center_x - box_size) (center_x + box_size))
    (λ x st,
       for_each (range (center_y - box_size) (center_y + box_size))
         (λ y st, visit img x y st) st)
    {| blue_pixels := 0; total_pixels := 0; avg_r := 0; avg_g := 0; avg_b := 0 |}.

(** The averages and the ratio: floats when [total_pixels > 0], the
    integers they were initialised to otherwise. *)
Definition ratios (st : locals) : result (Q * Q * Q * Q) :=
  if 0 <? total_pixels st then
    avg_r' ← PyFloat.int_truediv (avg_r st) (total_pixels st);
    avg_g' ← PyFloat.int_truediv (avg_g st) (total_pixels st);
    avg_b' ← PyFloat.int_truediv (avg_b st) (total_pixels st);
    blue_ratio ← PyFloat.int_truediv (blue_pixels st) (total_pixels st);
    Ok (avg_r', avg_g', avg_b', blue_ratio)
  else
    Ok (inject_Z (avg_r st), inject_Z (avg_g st), inject_Z (avg_b st), 0%Q).

(** The body of the [try] block. *)
Definition analyze_body (w : World) (filepath : string) : result analysis :=
  img ← Image_open w filepath;
  st ← sample img;
  '(avg_r', avg_g', avg_b', blue_ratio) ← ratios st;
  Ok (Stats {|
    rec_blue_pixels := blue_pixels st;
    rec_total_pixels := total_pixels st;
    rec_blue_ratio := PyFloat.round_ndigits blue_ratio 4;
    rec_avg_color :=
      (PyFloat.round avg_r', PyFloat.round avg_g', PyFloat.round avg_b');
    rec_has_flooding := PyFloat.gt blue_ratio PyFloat.lit_0_1
  |}).

Definition analyze_image (w : World) (filepath : string) : result analysis :=
  try_except (analyze_body w filepath) (λ e, Ok (Error e)).

(** ** [main] *)

(** A row of the zoom results: [test_name], [water_level_ft] and the keys
    of the analysis. *)
Record row : Type := {
  test_name : string;
  water_level_ft : Z;
  row_analysis : analysis
}.

(** What [main] returns and dumps: the list of rows in zoom mode, the
    dictionary keyed by elevation otherwise. *)
Inductive results : Type :=
| ZoomResults (rows : list row)
| ElevationResults (by_elevation : gmap Z analysis).

(** The lines [main] prints.  The layout of the formatted lines is not
    modelled, only what each of them shows. *)
Inductive line : Type :=
| AnalyzingZoom (count : nat)
| ZoomHeader
| ZoomRow (test_name : string) (water_level : Z) (blue_ratio : Q) (flooding : string)
| ZoomError (test_name : string) (water_level : Z) (text : string)
| NoScreenshots (text : string)
| AnalyzingElevation (count : nat)
| ElevationHeader
| ElevationRow (elevation : Z) (blue_ratio : Q) (color : Z * Z * Z) (flooding : string)
| ElevationError (elevation : Z) (text : string)
| Rule (width : nat)
| Saved (output_file : string).

(** The effects of a run of [main] and its return value. *)
Record run : Type := {
  printed : list line;
  written : option (string * results);
  returned : results
}.

(** Lines 79-81. *)
Definition parse_zoom (filename : string) : result (string * Z) :=
  let parts :=
    PyStr.rsplit1 (PyStr.replace (PyStr.replace filename "zoom_" "") ".png" "") "_" in
  test_name ← PyStr.index parts 0;
  part1 ← PyStr.index parts 1;
  water_level ← PyStr.int (PyStr.replace (PyStr.replace part1 "ft" "") "+" "");
  Ok (test_name, water_level).

(** Lines 120-123. *)
Definition parse_elevation (filename : string) : result Z :=
  let elev_str := PyStr.replace (PyStr.replace filename "elevation_" "") "ft.png" "" in
  let is_negative := PyStr.startswith elev_str "-" in
  let stripped := PyStr.lstrip (PyStr.lstrip elev_str "+-") "0" in
  let elev_num := if String.eqb stripped "" then "0"%string else stripped in
  n ← PyStr.int elev_num;
  Ok (n * (if is_negative then -1 else 1)).

Definition flooding_text (s : stats) : string :=
  if rec_has_flooding s then "YES"%string else "no"%string.

(** The body of the loop of lines 74-93. *)
Definition zoom_step (w : World) (filename : string) (st : list row * list line)
  : result (list row * list line) :=
  let '(results, out) := st in
  let filepath := path_join (SCREENSHOT_DIR w) filename in
  analysis ← analyze_image w filepath;
  '(test_name, water_level) ← parse_zoom filename;
  let results := results ++ [{| test_name := test_name;
                                water_level_ft := water_level;
                                row_analysis := analysis |}] in
  match analysis with
  | Stats s =>
      Ok (results, out ++ [ZoomRow test_name water_level (rec_blue_ratio s) (flooding_text s)])
  | Error e =>
      Ok (results, out ++ [ZoomError test_name water_level e])
  end.

(** The body of the loop of lines 116-132. *)
Definition elevation_step (w : World) (filename : string)
  (st : gmap Z analysis * list line) : result (gmap Z analysis * list line) :=
  let '(results, out) := st in
  let filepath := path_join (SCREENSHOT_DIR w) filename in
  analysis ← analyze_image w filepath;
  elevation ← parse_elevation filename;
  let results := <[elevation := analysis]> results in
  match analysis with
  | Stats s =>
      Ok (results,
          out ++ [ElevationRow elevation (rec_blue_ratio s) (rec_avg_color s) (flooding_text s)])
  | Error e =>
      Ok (results, out ++ [ElevationError elevation e])
  end.

Definition zoom_mode (w : World) (zoom_files : list string) : result run :=
  let out := [AnalyzingZoom (length zoom_files); ZoomHeader; Rule 65] in
  '(results, out) ← for_each zoom_files (zoom_step w) ([], out);
  let out := out ++ [Rule 65] in
  let output_file := path_join (SCREENSHOT_DIR w) "zoom_analysis.json" in
  Ok {| printed := out ++ [Saved output_file];
        written := Some (output_file, ZoomResults results);
        returned := ZoomResults results |}.

Definition elevation_mode (w : World) (files : list string) : result run :=
  let out := [AnalyzingElevation (length files); ElevationHeader; Rule 60] in
  '(results, out) ← for_each files (elevation_step w) (∅, out);
  let out := out ++ [Rule 60] in
  let output_file := path_join (SCREENSHOT_DIR w) "analysis_results.json" in
  Ok {| printed := out ++ [Saved output_file];
        written := Some (output_file, ElevationResults results);
        returned := ElevationResults results |}.

Definition main (w : World) : result run :=
  let zoom_files :=
    PyStr.sorted (List.filter (λ f, PyStr.startswith f "zoom_") (listdir w)) in
  match zoom_files with
  | _ :: _ => zoom_mode w zoom_files
  | [] =>
      let files :=
        PyStr.sorted (List.filter (λ f, PyStr.startswith f "elevation_") (listdir w)) in
      match files with
      | [] =>
          Ok {| printed := [NoScreenshots "No screenshots found!"];
                written := None;
                returned := ElevationResults ∅ |}
      | _ :: _ => elevation_mode w files
      end
  end.

(** * Specification

    ** The notions the statements are written with *)

(** [(x, y)] is a coordinate of the image. *)
Definition in_image (img : PIL.Image) (x y : Z) : Prop :=
  0 <= x < (PIL.size img).1 ∧ 0 <= y < (PIL.size img).2.

(** [(x, y)] lies in the sample window: within 50 of the centre, and in the
    image. *)
Definition in_sample_window (img : PIL.Image) (x y : Z) : Prop :=
  let '(width, height) := PIL.size img in
  (width / 2 - 50 <= x < width / 2 + 50)
  ∧ (height / 2 - 50 <= y < height / 2 + 50)
  ∧ (0 <= x < width) ∧ (0 <= y < height).

(** Every pixel of the image is a tuple of at least [n] channels. *)
Definition channels_at_least (n : nat) (img : PIL.Image) : Prop :=
  ∀ x y, in_image img x y →
    ∃ cs, PIL.getpixel img (x, y) = PIL.Bands cs ∧ (n <= length cs)%nat.

(** The channels of a multi-band image are 8-bit values. *)
Definition eight_bit (img : PIL.Image) : Prop :=
  ∀ x y cs, in_image img x y → PIL.getpixel img (x, y) = PIL.Bands cs →
    Forall (λ v, 0 <= v <= 255) cs.

(** The flood-colour predicate in exact arithmetic:
    [b > 100 AND b > r * 1.3 AND b > g * 1.1]. *)
Definition flood_color (r g b : Z) : Prop :=
  100 < b
  ∧ (inject_Z r * (13 # 10) < inject_Z b)%Q
  ∧ (inject_Z g * (11 # 10) < inject_Z b)%Q.

(** [(x, y)] is a coordinate of the sample window whose pixel has at least
    three channels, the first three of the flood colour. *)
Definition flood_pixel (img : PIL.Image) (x y : Z) : Prop :=
  in_sample_window img x y
  ∧ ∃ r g b rest, PIL.getpixel img (x, y) = PIL.Bands (r :: g :: b :: rest)
                  ∧ flood_color r g b.

(** [n] is an integer nearest to [q]. *)
Definition nearest_integer (q : Q) (n : Z) : Prop :=
  (inject_Z n - (1 # 2) <= q ∧ q <= inject_Z n + (1 # 2))%Q.

(** A pixel the loop counts: its first three channels. *)
Definition rgb : Type := Z * Z * Z.

Definition red (p : rgb) : Z := p.1.1.
Definition green (p : rgb) : Z := p.1.2.
Definition blue (p : rgb) : Z := p.2.

(** The three channels of a counted pixel are 8-bit values. *)
Definition eight_bit_pixel (p : rgb) : Prop :=
  0 <= red p <= 255 ∧ 0 <= green p <= 255 ∧ 0 <= blue p <= 255.

(** The sum of a list of integers. *)
Definition total (zs : list Z) : Z := fold_right Z.add 0 zs.

(** The exact mean of a channel over a list of pixels. *)
Definition mean (channel : rgb → Z) (ps : list rgb) : Q :=
  (inject_Z (total (map channel ps)) / inject_Z (Z.of_nat (length ps)))%Q.

(** The file is an image of tuples: it opens, and every pixel is a tuple. *)
Definition valid_image (w : World) (filename : string) : Prop :=
  ∃ img, Image_open w (path_join (SCREENSHOT_DIR w) filename) = Ok img
         ∧ channels_at_least 0 img.

(** The file cannot be decoded. *)
Definition corrupt (w : World) (filename : string) (text : string) : Prop :=
  Image_open w (path_join (SCREENSHOT_DIR w) filename) = Raise text.

(** ** What the sampling loops compute *)

Definition in_bounds (img : PIL.Image) (c : Z * Z) : bool :=
  let '(width, height) := PIL.size img in
  (0 <=? c.1) && (c.1 <? width) && (0 <=? c.2) && (c.2 <? height).

(** The coordinates the two loops range over, in the order they are
    visited. *)
Definition scanned (img : PIL.Image) : list (Z * Z) :=
  let '(width, height) := PIL.size img in
  list_prod (range (width / 2 - box_size) (width / 2 + box_size))
            (range (height / 2 - box_size) (height / 2 + box_size)).

(** The coordinates of the sample window, in the order they are visited. *)
Definition window (img : PIL.Image) : list (Z * Z) :=
  List.filter (in_bounds img) (scanned img).

(** What a pixel contributes to the statistics. *)
Definition counted (p : PIL.pixel) : list rgb :=
  match p with
  | PIL.Bands (r :: g :: b :: _) => [(r, g, b)]
  | _ => []
  end.

(** The pixels that are counted, in the order they are visited. *)
Definition sampled (img : PIL.Image) : list rgb :=
  flat_map (λ c, counted (PIL.getpixel img c)) (window img).

(** The update of the local variables for one counted pixel. *)
Definition count_pixel (st : locals) (p : rgb) : locals :=
  let '(r, g, b) := p in
  {| blue_pixels := blue_pixels st + (if is_blue r g b then 1 else 0);
     total_pixels := total_pixels st + 1;
     avg_r := avg_r st + r;
     avg_g := avg_g st + g;
     avg_b := avg_b st + b |}.

Definition tally (ps : list rgb) (st : locals) : locals :=
  fold_left count_pixel ps st.

Definition initial : locals :=
  {| blue_pixels := 0; total_pixels := 0; avg_r := 0; avg_g := 0; avg_b := 0 |}.

(** The float quotient [a / t] the module computes when [t > 0]; the
    integer [otherwise] it keeps when [t = 0]. *)
Definition quotient_or (a t : Z) (otherwise : Q) : Q :=
  if 0 <? t then PyFloat.round53 (inject_Z a / inject_Z t) else otherwise.

(** The dictionary built from the final values of the local variables. *)
Definition summary (st : locals) : stats :=
  let t := total_pixels st in
  {| rec_blue_pixels := blue_pixels st;
     rec_total_pixels := t;
     rec_blue_ratio := PyFloat.round_ndigits (quotient_or (blue_pixels st) t 0) 4;
     rec_avg_color :=
       (PyFloat.round (quotient_or (avg_r st) t (inject_Z (avg_r st))),
        PyFloat.round (quotient_or (avg_g st) t (inject_Z (avg_g st))),
        PyFloat.round (quotient_or (avg_b st) t (inject_Z (avg_b st))));
     rec_has_flooding := PyFloat.gt (quotient_or (blue_pixels st) t 0) PyFloat.lit_0_1 |}.

(** ** What the batch computes, file by file *)

(** The names [main] selects for a prefix, in the order it processes
    them. *)
Definition selected (w : World) (prefix : string) : list string :=
  PyStr.sorted (List.filter (λ f, PyStr.startswith f prefix) (listdir w)).

(** The dictionary [analyze_image] returns for a file of the directory. *)
Definition analysis_of (w : World) (filename : string) : analysis :=
  match analyze_image w (path_join (SCREENSHOT_DIR w) filename) with
  | Ok a => a
  | Raise e => Error e
  end.

(** The row of the zoom results for a file. *)
Definition zoom_row (w : World) (filename : string) : result row :=
  '(name, level) ← parse_zoom filename;
  Ok {| test_name := name; water_level_ft := level;
        row_analysis := analysis_of w filename |}.

(** The dictionary after the files of a list have been entered, each under
    its elevation. *)
Definition entered (w : World) (files : list (string * Z)) (m : gmap Z analysis)
  : gmap Z analysis :=
  fold_left (λ m fk, <[fk.2 := analysis_of w fk.1]> m) files m.

(** ** Checks by enumeration

    Facts about the float operations on the finitely many values the module
    feeds them are decided by evaluation. *)

(** [0, 1, ..., n - 1] as integers. *)
Definition upto (n : nat) : list Z := map Z.of_nat (seq 0 n).

(** The product [r * lit] computed in floats and the exact product [r * c]
    have the same integer part, so no integer separates them. *)
Definition product_bracketed (c lit : Q) (r : Z) : bool :=
  Qfloor (PyFloat.int_mul r lit) =? Qfloor (inject_Z r * c).

(** [x] is a binary64 value: rounding leaves it unchanged. *)
Definition representable (x : Q) : bool := Qeq_bool (PyFloat.round53 x) x.

(** The values around [f + 1/2] that the rounding of an average is compared
    with. *)
Definition half_points_representable (f : Z) : bool :=
  representable (inject_Z f)
  && representable (inject_Z f + (1 # 2))
  && representable (inject_Z f + (1 # 2) - (1 # 32768))
  && representable (inject_Z f + (1 # 2) + (1 # 32768)).

(** The hardware product [r * lit] denotes the rational the model computes. *)
Definition product_agrees (lit : Q) (prim_lit : PrimFloat.float) (r : Z) : bool :=
  match PyFloat.of_prim (PrimFloat.mul (PyFloat.prim_of_int r) prim_lit) with
  | Some q => Qeq_bool q (PyFloat.int_mul r lit)
  | None => false
  end.

(** The hardware quotient [p / t] denotes the rational the model computes. *)
Definition quotient_agrees (p t : Z) : bool :=
  match PyFloat.of_prim (PrimFloat.div (PyFloat.prim_of_int p) (PyFloat.prim_of_int t)) with
  | Some q => Qeq_bool q (PyFloat.round53 (inject_Z p / inject_Z t))
  | None => false
  end.

(** ** Sample inputs *)

(** An image whose pixels are all [p]. *)
Definition uniform (width height : Z) (p : PIL.pixel) : PIL.Image :=
  {| PIL.size := (width, height); PIL.getpixel := λ _, p |}.

(** A 41 x 49 image, smaller than the window: 201 of its 2009 pixels are
    blue, the others black. *)
Definition blue_corner : PIL.Image :=
  {| PIL.size := (41, 49);
     PIL.getpixel := λ '(x, y),
       if (x <? 4) || ((x =? 4) && (y <? 5))
       then PIL.Bands [0; 0; 255]
       else PIL.Bands [0; 0; 0] |}.

(** A 3 x 1 image: one blue pixel, two black ones. *)
Definition one_in_three : PIL.Image :=
  {| PIL.size := (3, 1);
     PIL.getpixel := λ '(x, y),
       if x =? 0 then PIL.Bands [0; 0; 255] else PIL.Bands [0; 0; 0] |}.

Open Scope string_scope.

(** A directory in which every path opens as [img]. *)
Definition opens_as (img : PIL.Image) : World :=
  {| SCREENSHOT_DIR := "test_screenshots";
     listdir := [];
     Image_open := λ _, Ok img |}.

(** A directory with two elevation files that parse to the same elevation;
    the first in sorted order is not an image. *)
Definition same_elevation_twice : World :=
  {| SCREENSHOT_DIR := "test_screenshots";
     listdir := ["elevation_-00000ft.png"; "elevation_+00000ft.png"];
     Image_open := λ path,
       if String.eqb path "test_screenshots/elevation_+00000ft.png"
       then Raise "cannot identify image file"
       else Ok (uniform 10 10 (PIL.Bands [0; 0; 255])) |}.

(** A directory with a zoom file that is not an image, a valid zoom file and
    an elevation file. *)
Definition zoom_and_elevation : World :=
  {| SCREENSHOT_DIR := "test_screenshots";
     listdir := ["zoom_Local_Coast_-00100ft.png"; "elevation_+00000ft.png";
                 "zoom_Global_Full_+0000ft.png"];
     Image_open := λ path,
       if String.eqb path "test_screenshots/zoom_Global_Full_+0000ft.png"
       then Raise "cannot identify image file"
       else Ok (uniform 10 10 (PIL.Bands [0; 0; 255])) |}.

(** A directory with elevation files only, one of them not an image. *)
Definition elevations_only : World :=
  {| SCREENSHOT_DIR := "test_screenshots";
     listdir := ["elevation_-00050ft.png"; "elevation_+00000ft.png"];
     Image_open := λ path,
       if String.eqb path "test_screenshots/elevation_-00050ft.png"
       then Raise "cannot identify image file"
       else Ok (uniform 10 10 (PIL.Bands [0; 0; 255])) |}.

(** A directory without screenshots. *)
Definition no_screenshots : World :=
  {| SCREENSHOT_DIR := "test_screenshots";
     listdir := ["notes.txt"; "analysis_results.json"];
     Image_open := λ _, Raise "cannot identify image file" |}.

Close Scope string_scope.

(** ** What the analysis reads of an image *)

(** What [analyze_image] reads of a pixel: of a number, that it is one; of a
    tuple, its first three channels when it has them. *)
Definition read_of (p : PIL.pixel) : option (list rgb) :=
  match p with
  | PIL.Band _ => None
  | PIL.Bands _ => Some (counted p)
  end.

(** Two images of the same size that read the same on the sample window. *)
Definition same_sample (img1 img2 : PIL.Image) : Prop :=
  PIL.size img1 = PIL.size img2
  ∧ ∀ x y, in_sample_window img1 x y →
      read_of (PIL.getpixel img1 (x, y)) = read_of (PIL.getpixel img2 (x, y)).

(** The record of an analysis that counted no pixel. *)
Definition nothing_sampled : stats :=
  {| rec_blue_pixels := 0; rec_total_pixels := 0; rec_blue_ratio := 0%Q;
     rec_avg_color := (0, 0, 0); rec_has_flooding := false |}.

(** An image that is uniform on its left half and on its right half. *)
Definition two_halves (width height : Z) (left right : PIL.pixel) : PIL.Image :=
  {| PIL.size := (width, height);
     PIL.getpixel := λ '(x, y), if x <? width / 2 then left else right |}.

(** ** What a run of the batch shows *)

(** The line the zoom report prints for a row. *)
Definition zoom_line (r : row) : line :=
  match row_analysis r with
  | Stats s =>
      ZoomRow (test_name r) (water_level_ft r) (rec_blue_ratio s) (flooding_text s)
  | Error e => ZoomError (test_name r) (water_level_ft r) e
  end.

Open Scope string_scope.

(** A directory of valid images in which one zoom name has no elevation
    part. *)
Definition zoom_name_without_level : World :=
  {| SCREENSHOT_DIR := "test_screenshots";
     listdir := ["zoom_Regional_+0100ft.png"; "zoom_debug.png";
                 "zoom_Global_Full_+0000ft.png"];
     Image_open := λ _, Ok (uniform 10 10 (PIL.Bands [0; 0; 255])) |}.

(** The directory [zoom_and_elevation] with other files beside the zoom
    files, none of which opens. *)
Definition zoom_among_others : World :=
  {| SCREENSHOT_DIR := "test_screenshots";
     listdir := ["debug_initial.png"; "zoom_Global_Full_+0000ft.png";
                 "elevation_-00050ft.png"; "zoom_Local_Coast_-00100ft.png"];
     Image_open := λ path,
       if String.eqb path "test_screenshots/zoom_Local_Coast_-00100ft.png"
       then Ok (uniform 10 10 (PIL.Bands [0; 0; 255]))
       else Raise "cannot identify image file" |}.

Close Scope string_scope.

(** ** The file names [automated_test.py] writes

    [run_tests] names each screenshot with an f-string whose number is
    formatted with [+05d] or [+06d]: a sign always, then the decimal digits,
    with zeros between the sign and the digits up to the width. *)

Module PyFormat.
Open Scope string_scope.

Definition digit_char (d : Z) : ascii := ascii_of_nat (Z.to_nat (48 + d)).

(** The decimal digits of [n >= 0] in front of [acc], the last digit first
    written; [fuel] bounds their number. *)
Fixpoint decimal (fuel : nat) (n : Z) (acc : string) : string :=
  match fuel with
  | O => acc
  | S k =>
      let acc := String (digit_char (n mod 10)) acc in
      if (n <? 10)%Z then acc else decimal k (n / 10) acc
  end.

(** [str(n)] for [n >= 0]: a number has at most as many decimal digits as
    binary ones. *)
Definition str_nat (n : Z) : string := decimal (S (Z.to_nat (Z.log2 n))) n "".

Fixpoint zeros (k : nat) : string :=
  match k with
  | O => ""
  | S k' => String "0" (zeros k')
  end.

(** [format(n, "+0Wd")] for the width [W].  CPython 3.11 and later refuse,
    unless the limit is lifted, to format an integer of more than 4300
    digits: as for [PyStr.int], the limit is left out here and
    [max_str_digits] below bounds the numbers of the statements that depend
    on it. *)
Definition signed_zero_padded (width : nat) (n : Z) : string :=
  let ds := str_nat (Z.abs n) in
  String (if (n <? 0)%Z then "-" else "+")%char
         (zeros (width - 1 - String.length ds) ++ ds).

End PyFormat.

Open Scope string_scope.

(** Line 239: [f"zoom_{name}_{water_level:+05d}ft.png"] *)
Definition zoom_filename (name : string) (water_level : Z) : string :=
  "zoom_" ++ name ++ "_" ++ PyFormat.signed_zero_padded 5 water_level ++ "ft.png".

(** Line 264: [f"elevation_{elevation:+06d}ft.png"] *)
Definition elevation_filename (elevation : Z) : string :=
  "elevation_" ++ PyFormat.signed_zero_padded 6 elevation ++ "ft.png".

Close Scope string_scope.

(** No character of [s] is one of [chars]. *)
Fixpoint avoids (s chars : string) : bool :=
  match s with
  | EmptyString => true
  | String c s' => negb (PyStr.contains c chars) && avoids s' chars
  end.

(** A test name the analysis reads back: it has no [z] and no dot. *)
Definition plain_name (name : string) : Prop := avoids name "z." = true.

(** The default of [sys.get_int_max_str_digits()] in CPython 3.11 and
    later: on an integer of more decimal digits the f-strings of lines 239
    and 264 and [int] raise [ValueError]. *)
Definition max_str_digits : Z := 4300.

(** An integer the two conversions accept. *)
Definition within_str_digits (n : Z) : Prop := Z.abs n < 10 ^ max_str_digits.

(** The number a string of decimal digits denotes, after the digits read
    so far. *)
Fixpoint value_from (acc : Z) (s : string) : Z :=
  match s with
  | EmptyString => acc
  | String c s' =>
      match PyStr.digit_of c with
      | Some d => value_from (10 * acc + d) s'
      | None => acc
      end
  end.

(** Every character of [s] is one of [chars]. *)
Fixpoint within (s chars : string) : bool :=
  match s with
  | EmptyString => true
  | String c s' => PyStr.contains c chars && within s' chars
  end.

Definition decimal_digits : string := "0123456789".

(** ** A test run followed by the analysis *)

Open Scope string_scope.

(** Line 53 of [automated_test.py]. *)
Definition TEST_ELEVATIONS : list Z :=
  [5000; 5050; 5100; 5120; 5130; 5140; 5150; 5160; 5180; 5200].

(** Lines 57-64: the name, the longitude, the latitude, the camera height
    and the water levels of each zoom test. *)
Definition ZOOM_TESTS : list (string * Q * Q * Z * list Z) :=
  [("Global_Full", 0%Q, 20%Q, 20000000, [0; 500; 1000; 3000]);
   ("Global_Half", (-40)%Q, 30%Q, 10000000, [0; 500; 1000]);
   ("Continental", (-100)%Q, 40%Q, 5000000, [0; 500; 1000]);
   ("Regional", (-95)%Q, 30%Q, 1000000, [0; 100; 500]);
   ("Local_Coast", (-901 # 10)%Q, (2995 # 100)%Q, 50000, [0; 10; 50; 100])].

(** The name and the water level of the screenshots the loops of lines 217
    and 234 take, in the order they are taken. *)
Definition zoom_screenshots (tests : list (string * Q * Q * Z * list Z))
  : list (string * Z) :=
  flat_map (λ '(name, _, _, _, water_levels), map (λ l, (name, l)) water_levels) tests.

(** The directory after a run of [main]: the files it had and the file the
    run has written. *)
Definition after (w : World) (r : run) (w' : World) : Prop :=
  ∀ f, In f (listdir w')
       ↔ In f (listdir w)
         ∨ ∃ content, written r = Some (path_join (SCREENSHOT_DIR w) f, content).

(** The screenshots of the zoom tests of the file, beside the debug
    screenshot of line 76. *)
Definition zoom_test_run : World :=
  {| SCREENSHOT_DIR := "test_screenshots";
     listdir := "debug_initial.png"
                :: map (λ t, zoom_filename t.1 t.2) (zoom_screenshots ZOOM_TESTS);
     Image_open := λ _, Ok (uniform 10 10 (PIL.Bands [0; 0; 255])) |}.

(** The screenshots of the elevation tests of the file. *)
Definition elevation_test_run : World :=
  {| SCREENSHOT_DIR := "test_screenshots";
     listdir := "debug_initial.png" :: map elevation_filename TEST_ELEVATIONS;
     Image_open := λ _, Ok (uniform 10 10 (PIL.Bands [0; 0; 255])) |}.

(** The directory [zoom_and_elevation] with the summary of a zoom run. *)
Definition zoom_and_elevation_again : World :=
  {| SCREENSHOT_DIR := "test_screenshots";
     listdir := "zoom_analysis.json" :: listdir zoom_and_elevation;
     Image_open := Image_open zoom_and_elevation |}.

Close Scope string_scope.

(** ** [get_cesium_token]

    What the function reads and changes: the environment variable, the
    token file beside the script and the line typed at the prompt. *)

Open Scope string_scope.

Record System : Type := {
  (** [os.environ.get("CESIUM_TOKEN", None)] *)
  CESIUM_TOKEN : option string;
  (** The path [os.path.join(os.path.dirname(__file__), ".cesium_token")]. *)
  token_path : string;
  (** [None] when nothing exists at the path; otherwise the characters of
      the file, or the exception that opening or reading it raises. *)
  token_file : option (result string);
  (** The exception that opening the file for writing raises, if any. *)
  write_error : option string;
  (** What [input] returns: the line typed, or [EOFError]. *)
  typed : result string
}.

(** What a call leaves: the token returned, the lines printed, the prompt
    included, and the token file. *)
Record outcome : Type := {
  token : string;
  shown : list string;
  file_after : option (result string)
}.

(** The truth value of a string: [if token:]. *)
Definition truthy (s : string) : bool := negb (String.eqb s "").

Definition CR : ascii := ascii_of_nat 13.
Definition LF : ascii := ascii_of_nat 10.

(** Reading in text mode: a carriage return, with the line feed that may
    follow it, is read as a line feed. *)
Fixpoint universal_newlines (s : string) : string :=
  match s with
  | "" => ""
  | String c s' =>
      if Ascii.eqb c CR
      then String LF
             match s' with
             | String d s'' =>
                 if Ascii.eqb d LF then universal_newlines s'' else universal_newlines s'
             | "" => ""
             end
      else String c (universal_newlines s')
  end.

(** [open(token_file, 'r')] and [f.read()] *)
Definition read_text (file : result string) : result string :=
  text ← file; Ok (universal_newlines text).

(** Lines 36-44: the prompt, and the file written for a token that is not
    empty. *)
Definition prompt_for_token (sys : System) : result outcome :=
  let out := ["Cesium ion Access Token not found.";
              "Get a free token at: https://ion.cesium.com/tokens";
              "Enter your token (will be saved to .cesium_token): "] in
  line ← typed sys;
  let token := PyStr.strip line in
  if truthy token
  then match write_error sys with
       | Some e => Raise e
       | None =>
           Ok {| token := token;
                 shown := out ++ ["Token saved to " ++ token_path sys];
                 file_after := Some (Ok token) |}
       end
  else Ok {| token := token; shown := out; file_after := token_file sys |}.

(** Lines 30-34: the token file, when something exists at its path. *)
Definition token_from_file (sys : System) : result outcome :=
  match token_file sys with
  | Some file =>
      text ← read_text file;
      Ok {| token := PyStr.strip text; shown := []; file_after := token_file sys |}
  | None => prompt_for_token sys
  end.

(** Lines 21-44. *)
Definition get_cesium_token (sys : System) : result outcome :=
  match CESIUM_TOKEN sys with
  | Some token =>
      if truthy token
      then Ok {| token := PyStr.strip token; shown := []; file_after := token_file sys |}
      else token_from_file sys
  | None => token_from_file sys
  end.

(** The variable is unset or empty. *)
Definition no_variable (sys : System) : Prop :=
  CESIUM_TOKEN sys = None ∨ CESIUM_TOKEN sys = Some "".

(** A later call: the variable still unset, the token file as the earlier
    call left it. *)
Definition later (o : outcome) (sys' : System) : Prop :=
  no_variable sys' ∧ token_file sys' = file_after o.

(** A first call: no variable, no file, a token typed between blanks. *)
Definition first_call : System :=
  {| CESIUM_TOKEN := None;
     token_path := "./.cesium_token";
     token_file := None;
     write_error := None;
     typed := Ok "  eyJhbGciOi.J9  " |}.

(** The next call: the file of the first call, and nobody at the prompt. *)
Definition second_call : System :=
  {| CESIUM_TOKEN := None;
     token_path := "./.cesium_token";
     token_file := Some (Ok "eyJhbGciOi.J9");
     write_error := None;
     typed := Raise "EOF when reading a line" |}.

(** A variable set to blanks, beside a token file. *)
Definition blank_variable : System :=
  {| CESIUM_TOKEN := Some "  ";
     token_path := "./.cesium_token";
     token_file := Some (Ok "eyJhbGciOi.J9");
     write_error := None;
     typed := Ok "eyJhbGciOi.J9" |}.

Close Scope string_scope.

(** * Properties

    ** Rounding to the nearest integer *)
Section Rne.
Import PyFloat.
Open Scope Q_scope.

Lemma rne_compat (x y : Q) : x == y → rne x = rne y.
Proof.
  intros E. unfold rne. rewrite (Qfloor_comp _ _ E).
  assert (E' : x - inject_Z (Qfloor y) == y - inject_Z (Qfloor y)) by (rewrite E; reflexivity).
  rewrite (Qcompare_comp _ _ E' _ _ (Qeq_refl _)). reflexivity.
Qed.

Lemma rne_spec (x : Q) :
  inject_Z (rne x) - (1 # 2) <= x ∧ x <= inject_Z (rne x) + (1 # 2).
Proof.
  unfold rne.
  pose proof (Qfloor_le x) as Hlo. pose proof (Qlt_floor x) as Hhi.
  rewrite inject_Z_plus in Hhi. change (inject_Z 1) with 1 in *.
  destruct (Qcompare _ _) eqn:C.
  - apply Qeq_alt in C. destruct (Z.even _); [|rewrite inject_Z_plus; change (inject_Z 1) with 1]; split; lra.
  - apply Qlt_alt in C. split; lra.
  - apply Qgt_alt in C. rewrite inject_Z_plus. change (inject_Z 1) with 1. split; lra.
Qed.

Lemma rne_near (x : Q) (n : Z) :
  inject_Z n - (1 # 2) < x → x < inject_Z n + (1 # 2) → rne x = n.
Proof.
  intros Hlo Hhi. destruct (rne_spec x) as [A B].
  assert (H1 : inject_Z (rne x) < inject_Z (n + 1)) by (rewrite inject_Z_plus; change (inject_Z 1) with 1; lra).
  assert (H2 : inject_Z (n - 1) < inject_Z (rne x)).
  { unfold Z.sub. rewrite inject_Z_plus. change (inject_Z (- (1))) with (-1). lra. }
  rewrite <- Zlt_Qlt in H1, H2. lia.
Qed.

Lemma rne_inject_Z (n : Z) : rne (inject_Z n) = n.
Proof. apply rne_near; lra. Qed.

Lemma rne_mono (x y : Q) : x <= y → (rne x <= rne y)%Z.
Proof.
  intros Hxy. destruct (rne_spec x) as [A B], (rne_spec y) as [C D].
  destruct (Z_le_gt_dec (rne x) (rne y)) as [|G]; [assumption|exfalso].
  assert (H1 : inject_Z (rne y + 1) <= inject_Z (rne x)) by (rewrite <- Zle_Qle; lia).
  rewrite inject_Z_plus in H1. change (inject_Z 1) with 1 in H1.
  assert (E : x == y) by lra.
  apply rne_compat in E. lia.
Qed.
End Rne.

(** ** Rounding to binary64 *)
Section Round53.
Import PyFloat.
Open Scope Q_scope.

Lemma pow2_pos (e : Z) : 0 < 2 ^ e.
Proof. apply Qpower_0_lt. lra. Qed.

Lemma pow2_succ (e : Z) : 2 ^ (e + 1) == 2 * 2 ^ e.
Proof. rewrite Qpower_plus by lra. change (2 ^ 1) with (2 * 1). lra. Qed.

Lemma pow2_pred (e : Z) : 2 * 2 ^ (e - 1) == 2 ^ e.
Proof. rewrite <- pow2_succ. replace (e - 1 + 1)%Z with e by lia. reflexivity. Qed.

Lemma pow2_le (a b : Z) : (a <= b)%Z → 2 ^ a <= 2 ^ b.
Proof. intros H. apply Qpower_le_compat_l; [assumption | lra]. Qed.

Lemma pow2_inject (n : Z) : (0 <= n)%Z → inject_Z (2 ^ n) == 2 ^ n.
Proof. intros H. apply (Zpower_Qpower 2 n H). Qed.

Lemma log2_bounds (a : Z) :
  (0 < a)%Z → 2 ^ Z.log2 a <= inject_Z a ∧ inject_Z a < 2 * 2 ^ Z.log2 a.
Proof.
  intros Ha. destruct (Z.log2_spec a Ha) as [L U].
  pose proof (Z.log2_nonneg a) as N.
  rewrite <- pow2_succ, <- !pow2_inject by lia.
  rewrite <- Zle_Qle, <- Zlt_Qlt. unfold Z.succ in U. lia.
Qed.

Lemma div_lt_cross (a b c d : Q) : 0 < b → 0 < d → a * d < c * b → a / b < c / d.
Proof.
  intros Hb Hd H. apply Qlt_shift_div_r; [assumption|].
  setoid_replace (c / d * b) with (c * b / d) using relation Qeq by (field; lra).
  apply Qlt_shift_div_l; assumption.
Qed.

Lemma div_le_cross (a b c d : Q) : 0 < b → 0 < d → a * d <= c * b → a / b <= c / d.
Proof.
  intros Hb Hd H. apply Qle_shift_div_r; [assumption|].
  setoid_replace (c / d * b) with (c * b / d) using relation Qeq by (field; lra).
  apply Qle_shift_div_l; assumption.
Qed.

Lemma binade_spec (x : Q) : 0 < x → 2 ^ binade x <= x ∧ x < 2 ^ (binade x + 1).
Proof.
  intros Hx. destruct x as [a b].
  assert (Ha : (0 < a)%Z) by (unfold Qlt in Hx; simpl in Hx; lia).
  destruct (log2_bounds a Ha) as [A1 A2].
  destruct (log2_bounds (Zpos b) eq_refl) as [B1 B2].
  pose proof (pow2_pos (Z.log2 a)) as PA. pose proof (pow2_pos (Z.log2 (Zpos b))) as PB.
  assert (E : a # b == inject_Z a / inject_Z (Zpos b)) by apply Qmake_Qdiv.
  assert (D : 2 ^ (Z.log2 a - Z.log2 (Zpos b)) == 2 ^ Z.log2 a / 2 ^ Z.log2 (Zpos b))
    by (apply Qpower_minus; lra).
  unfold binade. cbn [Qnum Qden].
  set (d := (Z.log2 a - Z.log2 (Zpos b))%Z) in *.
  destruct (Qle_bool (2 ^ d) (a # b)) eqn:C.
  - apply Qle_bool_iff in C. split; [assumption|].
    rewrite pow2_succ, D, E.
    setoid_replace (2 * (2 ^ Z.log2 a / 2 ^ Z.log2 (Zpos b)))
      with ((2 * 2 ^ Z.log2 a) / 2 ^ Z.log2 (Zpos b)) using relation Qeq by (field; lra).
    apply div_lt_cross; [lra | lra | nra].
  - assert (C' : a # b < 2 ^ d).
    { apply Qnot_le_lt. intros H. apply Qle_bool_iff in H. congruence. }
    replace (d - 1 + 1)%Z with d by lia. split; [|assumption].
    apply (Qmult_le_l _ _ 2); [lra|]. rewrite pow2_pred, D, E.
    setoid_replace (2 * (inject_Z a / inject_Z (Zpos b)))
      with ((2 * inject_Z a) / inject_Z (Zpos b)) using relation Qeq by (field; lra).
    apply div_le_cross; [lra | lra | nra].
Qed.


Lemma Qred_pos_num (x : Q) : 0 < x → ∃ p, Qnum (Qred x) = Zpos p.
Proof.
  intros Hx. pose proof (Qred_correct x) as E.
  assert (Hx' : 0 < Qred x) by (rewrite E; assumption). clear Hx E.
  destruct (Qred x) as [a b]. unfold Qlt in Hx'. simpl in Hx'.
  destruct a; try lia. eexists; reflexivity.
Qed.

Lemma round53_compat (x y : Q) : x == y → round53 x = round53 y.
Proof. intros E. unfold round53. rewrite (Qred_complete x y E). reflexivity. Qed.

Lemma round53_zero : round53 0 = 0.
Proof. reflexivity. Qed.

Lemma round53_pos (x : Q) :
  0 < x →
  round53 x
  == inject_Z (rne (x / 2 ^ (binade (Qred x) - 52))) * 2 ^ (binade (Qred x) - 52).
Proof.
  intros Hx. unfold round53. destruct (Qred_pos_num x Hx) as [p ->].
  cbv zeta. etransitivity; [apply Qred_correct|].
  rewrite (rne_compat (Qred x / 2 ^ (binade (Qred x) - 52)) (x / 2 ^ (binade (Qred x) - 52))).
  - reflexivity.
  - apply Qdiv_comp; [apply Qred_correct | reflexivity].
Qed.

Lemma binade_Qred_spec (x : Q) :
  0 < x → 2 ^ binade (Qred x) <= x ∧ x < 2 ^ (binade (Qred x) + 1).
Proof.
  intros Hx. pose proof (Qred_correct x) as E.
  assert (Hx' : 0 < Qred x) by (rewrite E; assumption).
  destruct (binade_spec (Qred x) Hx') as [A B].
  split; [apply (Qle_trans _ _ _ A) | apply (Qle_lt_trans _ (Qred x))]; try assumption.
  - rewrite E. apply Qle_refl.
  - rewrite E. apply Qle_refl.
Qed.

Lemma pow2_split (e : Z) : 2 ^ e == 2 ^ 52 * 2 ^ (e - 52).
Proof. rewrite <- Qpower_plus by lra. replace (52 + (e - 52))%Z with e by lia. reflexivity. Qed.

Lemma scaled_bounds (x : Q) :
  0 < x →
  inject_Z (2 ^ 52) <= x / 2 ^ (binade (Qred x) - 52)
  ∧ x / 2 ^ (binade (Qred x) - 52) < inject_Z (2 ^ 53).
Proof.
  intros Hx. destruct (binade_Qred_spec x Hx) as [A B].
  set (e := binade (Qred x)) in *.
  pose proof (pow2_pos (e - 52)) as U.
  rewrite pow2_succ, (pow2_split e) in B. rewrite (pow2_split e) in A.
  rewrite !pow2_inject by lia. split.
  - apply Qle_shift_div_l; assumption.
  - apply Qlt_shift_div_r; [assumption|].
    change (2 ^ 53) with (2 * 2 ^ 52). lra.
Qed.

Lemma round53_bounds (x : Q) :
  0 < x →
  2 ^ binade (Qred x) <= round53 x ∧ round53 x <= 2 ^ (binade (Qred x) + 1).
Proof.
  intros Hx. destruct (scaled_bounds x Hx) as [A B].
  rewrite (round53_pos x Hx). set (e := binade (Qred x)) in *.
  pose proof (pow2_pos (e - 52)) as U.
  apply rne_mono in A. apply Qlt_le_weak, rne_mono in B.
  rewrite rne_inject_Z in A, B. rewrite Zle_Qle in A, B.
  rewrite pow2_inject in A, B by lia.
  rewrite pow2_succ, (pow2_split e).
  change (2 ^ 53) with (2 * 2 ^ 52) in B.
  split; nra.
Qed.

Lemma round53_nonneg (x : Q) : 0 <= x → 0 <= round53 x.
Proof.
  intros Hx. destruct (Qle_lt_or_eq _ _ Hx) as [P | E].
  - destruct (round53_bounds x P) as [A _]. pose proof (pow2_pos (binade (Qred x))). lra.
  - rewrite <- (round53_compat 0 x E). rewrite round53_zero. lra.
Qed.

Lemma binade_mono (x y : Q) :
  0 < x → x <= y → (binade (Qred x) <= binade (Qred y))%Z.
Proof.
  intros Hx Hxy. assert (Hy : 0 < y) by lra.
  destruct (binade_Qred_spec x Hx) as [A _], (binade_Qred_spec y Hy) as [_ B].
  destruct (Z_le_gt_dec (binade (Qred x)) (binade (Qred y))) as [|G]; [assumption|exfalso].
  pose proof (pow2_le (binade (Qred y) + 1) (binade (Qred x)) ltac:(lia)). lra.
Qed.

Lemma round53_mono_pos (x y : Q) : 0 < x → x <= y → round53 x <= round53 y.
Proof.
  intros Hx Hxy. assert (Hy : 0 < y) by lra.
  pose proof (binade_mono x y Hx Hxy) as M.
  destruct (Z.eq_dec (binade (Qred x)) (binade (Qred y))) as [E | N].
  - rewrite (round53_pos x Hx), (round53_pos y Hy), E.
    set (u := 2 ^ (binade (Qred y) - 52)). pose proof (pow2_pos (binade (Qred y) - 52)) as U.
    fold u in U.
    assert (S : x / u <= y / u).
    { apply Qle_shift_div_l; [assumption|].
      setoid_replace (x / u * u) with x using relation Qeq by (field; lra). assumption. }
    apply rne_mono in S. rewrite Zle_Qle in S. nra.
  - destruct (round53_bounds x Hx) as [_ A], (round53_bounds y Hy) as [B _].
    pose proof (pow2_le (binade (Qred x) + 1) (binade (Qred y)) ltac:(lia)). lra.
Qed.

Lemma round53_mono (x y : Q) : 0 <= x → x <= y → round53 x <= round53 y.
Proof.
  intros Hx Hxy. destruct (Qle_lt_or_eq _ _ Hx) as [P | E].
  - apply round53_mono_pos; assumption.
  - rewrite <- (round53_compat 0 x E), round53_zero. apply round53_nonneg. lra.
Qed.

End Round53.

(** ** The float operations of the module *)
Section FloatFacts.
Import PyFloat.
Open Scope Q_scope.

Lemma upto_In (n : nat) (z : Z) : (0 <= z < Z.of_nat n)%Z → In z (upto n).
Proof.
  intros H. unfold upto. apply in_map_iff. exists (Z.to_nat z). split; [lia|].
  apply in_seq. lia.
Qed.

Lemma products_by_1_3 : forallb (product_bracketed (13 # 10) lit_1_3) (upto 256) = true.
Proof. vm_compute. reflexivity. Qed.

Lemma products_by_1_1 : forallb (product_bracketed (11 # 10) lit_1_1) (upto 256) = true.
Proof. vm_compute. reflexivity. Qed.

Lemma int_gt_iff (n : Z) (x : Q) : int_gt n x = true ↔ x < inject_Z n.
Proof.
  unfold int_gt. rewrite negb_true_iff. split.
  - intros H. apply Qnot_le_lt. intros L. apply Qle_bool_iff in L. congruence.
  - intros H. destruct (Qle_bool _ _) eqn:C; [|reflexivity].
    apply Qle_bool_iff in C. lra.
Qed.

Lemma gt_iff (x y : Q) : gt x y = true ↔ y < x.
Proof.
  unfold gt. rewrite negb_true_iff. split.
  - intros H. apply Qnot_le_lt. intros L. apply Qle_bool_iff in L. congruence.
  - intros H. destruct (Qle_bool _ _) eqn:C; [|reflexivity].
    apply Qle_bool_iff in C. lra.
Qed.

Lemma lt_int_floor (x : Q) (b : Z) : x < inject_Z b ↔ (Qfloor x < b)%Z.
Proof.
  pose proof (Qfloor_le x) as L. pose proof (Qlt_floor x) as U.
  rewrite inject_Z_plus in U. change (inject_Z 1) with 1 in U. split; intros H.
  - rewrite Zlt_Qlt. lra.
  - assert (G : inject_Z (Qfloor x + 1) <= inject_Z b) by (rewrite <- Zle_Qle; lia).
    rewrite inject_Z_plus in G. change (inject_Z 1) with 1 in G. lra.
Qed.

Lemma int_gt_bracketed (c lit : Q) (r b : Z) :
  product_bracketed c lit r = true →
  int_gt b (int_mul r lit) = true ↔ inject_Z r * c < inject_Z b.
Proof.
  unfold product_bracketed. intros E. apply Z.eqb_eq in E.
  rewrite int_gt_iff, !lt_int_floor, E. reflexivity.
Qed.

Lemma int_gt_1_3 (r b : Z) :
  (0 <= r <= 255)%Z →
  int_gt b (int_mul r lit_1_3) = true ↔ inject_Z r * (13 # 10) < inject_Z b.
Proof.
  intros H. apply int_gt_bracketed.
  apply (proj1 (forallb_forall _ _) products_by_1_3). apply upto_In. lia.
Qed.

Lemma int_gt_1_1 (g b : Z) :
  (0 <= g <= 255)%Z →
  int_gt b (int_mul g lit_1_1) = true ↔ inject_Z g * (11 # 10) < inject_Z b.
Proof.
  intros H. apply int_gt_bracketed.
  apply (proj1 (forallb_forall _ _) products_by_1_1). apply upto_In. lia.
Qed.


Lemma round53_one : round53 1 = 1.
Proof. vm_compute. reflexivity. Qed.

Lemma inject_Z_pos (t : Z) : (0 < t)%Z → 0 < inject_Z t.
Proof. intros H. change 0 with (inject_Z 0). rewrite <- Zlt_Qlt. assumption. Qed.

Lemma inject_Z_nonneg (p : Z) : (0 <= p)%Z → 0 <= inject_Z p.
Proof. intros H. change 0 with (inject_Z 0). rewrite <- Zle_Qle. assumption. Qed.

(** Comparing an exact quotient of integers with a fraction. *)
Lemma quotient_le (p t a b : Z) :
  (0 < t)%Z → (0 < b)%Z → (p * b <= a * t)%Z →
  inject_Z p / inject_Z t <= inject_Z a / inject_Z b.
Proof.
  intros Ht Hb H. apply div_le_cross; try (apply inject_Z_pos; assumption).
  rewrite <- !inject_Z_mult, <- Zle_Qle. assumption.
Qed.

Lemma quotient_lt (p t a b : Z) :
  (0 < t)%Z → (0 < b)%Z → (p * b < a * t)%Z →
  inject_Z p / inject_Z t < inject_Z a / inject_Z b.
Proof.
  intros Ht Hb H. apply div_lt_cross; try (apply inject_Z_pos; assumption).
  rewrite <- !inject_Z_mult, <- Zlt_Qlt. assumption.
Qed.

Lemma quotient_nonneg (p t : Z) :
  (0 <= p)%Z → (0 < t)%Z → 0 <= inject_Z p / inject_Z t.
Proof.
  intros Hp Ht. apply Qle_shift_div_l; [apply inject_Z_pos; assumption|].
  pose proof (inject_Z_nonneg p Hp). lra.
Qed.

Lemma int_truediv_ok (a b : Z) :
  b ≠ 0%Z → int_truediv a b = Ok (round53 (inject_Z a / inject_Z b)).
Proof. intros H. unfold int_truediv. destruct (Z.eqb_spec b 0); [contradiction | reflexivity]. Qed.

(** The float quotient of [0 <= p <= t] lies in [[0, 1]]. *)
Lemma ratio_bounds (p t : Z) :
  (0 <= p <= t)%Z → (0 < t)%Z →
  0 <= round53 (inject_Z p / inject_Z t) ∧ round53 (inject_Z p / inject_Z t) <= 1.
Proof.
  intros Hp Ht. pose proof (quotient_nonneg p t ltac:(lia) Ht) as N. split.
  - apply round53_nonneg. assumption.
  - rewrite <- round53_one. apply round53_mono; [assumption|].
    setoid_replace 1 with (inject_Z 1 / inject_Z 1) using relation Qeq by reflexivity.
    apply quotient_le; lia.
Qed.

(** The float comparison with [0.1] decides the exact comparison with 1/10,
    for denominators up to the size of the sample window. *)
Lemma flooding_iff (p t : Z) :
  (0 <= p)%Z → (0 < t <= 10000)%Z →
  gt (round53 (inject_Z p / inject_Z t)) lit_0_1 = true ↔ (t < 10 * p)%Z.
Proof.
  intros Hp Ht. pose proof (quotient_nonneg p t Hp ltac:(lia)) as N.
  rewrite gt_iff. split.
  - intros G. destruct (Z_lt_ge_dec t (10 * p)) as [|L]; [assumption|exfalso].
    assert (M : round53 (inject_Z p / inject_Z t) <= lit_0_1).
    { apply round53_mono; [assumption|].
      setoid_replace (1 # 10) with (inject_Z 1 / inject_Z 10) using relation Qeq by reflexivity.
      apply quotient_le; lia. }
    lra.
  - intros L.
    assert (R : round53 (13108 # 131072) == 13108 # 131072) by (vm_compute; reflexivity).
    assert (B : lit_0_1 < 13108 # 131072) by (vm_compute; reflexivity).
    assert (M : round53 (13108 # 131072) <= round53 (inject_Z p / inject_Z t)).
    { apply round53_mono; [discriminate|].
      setoid_replace (13108 # 131072) with (inject_Z 13108 / inject_Z 131072)
        using relation Qeq by reflexivity.
      apply quotient_le; lia. }
    lra.
Qed.

Lemma rne_le_int (x : Q) (n : Z) : x <= inject_Z n → (rne x <= n)%Z.
Proof. intros H. apply rne_mono in H. rewrite rne_inject_Z in H. assumption. Qed.

Lemma rne_ge_int (x : Q) (n : Z) : inject_Z n <= x → (n <= rne x)%Z.
Proof. intros H. apply rne_mono in H. rewrite rne_inject_Z in H. assumption. Qed.

Lemma round_ndigits_4 (y : Q) :
  round_ndigits y 4 = round53 (inject_Z (rne (y * 10000)) / inject_Z 10000).
Proof. reflexivity. Qed.

(** [round(y, 4)] of a ratio is a ratio. *)
Lemma round4_bounds (y : Q) :
  0 <= y → y <= 1 → 0 <= round_ndigits y 4 ∧ round_ndigits y 4 <= 1.
Proof.
  intros L U. rewrite round_ndigits_4.
  assert (A : (0 <= rne (y * 10000))%Z).
  { apply rne_ge_int. change (inject_Z 0) with 0. lra. }
  assert (B : (rne (y * 10000) <= 10000)%Z).
  { apply rne_le_int. change (inject_Z 10000) with 10000. lra. }
  apply ratio_bounds; lia.
Qed.

Lemma rne_tenth : rne (lit_0_1 * 10000) = 1000%Z.
Proof. vm_compute. reflexivity. Qed.

Lemma round53_tenth : round53 (inject_Z 1000 / inject_Z 10000) = lit_0_1.
Proof. vm_compute. reflexivity. Qed.

(** A rounded ratio above [0.1] comes from a ratio above [0.1]. *)
Lemma round4_gt_tenth (y : Q) :
  0 <= y → gt (round_ndigits y 4) lit_0_1 = true → gt y lit_0_1 = true.
Proof.
  intros N. rewrite !gt_iff, round_ndigits_4. intros G.
  apply Qnot_le_lt. intros L.
  assert (K : (rne (y * 10000) <= 1000)%Z).
  { rewrite <- rne_tenth. apply rne_mono. lra. }
  assert (K0 : (0 <= rne (y * 10000))%Z).
  { apply rne_ge_int. change (inject_Z 0) with 0. lra. }
  assert (M : round53 (inject_Z (rne (y * 10000)) / inject_Z 10000) <= lit_0_1).
  { rewrite <- round53_tenth.
    apply round53_mono; [apply quotient_nonneg; lia | apply quotient_le; lia]. }
  lra.
Qed.

(** A ratio above [0.1] is reported as at least [0.1]. *)
Lemma gt_tenth_round4 (y : Q) :
  gt y lit_0_1 = true → lit_0_1 <= round_ndigits y 4.
Proof.
  rewrite gt_iff, round_ndigits_4. intros G.
  assert (K : (1000 <= rne (y * 10000))%Z).
  { rewrite <- rne_tenth. apply rne_mono. lra. }
  rewrite <- round53_tenth.
  apply round53_mono; [apply quotient_nonneg; lia | apply quotient_le; lia].
Qed.


Lemma representable_eq (x : Q) : representable x = true → round53 x == x.
Proof. apply Qeq_bool_eq. Qed.

Lemma round53_le_representable (x c : Q) :
  0 <= x → x <= c → representable c = true → round53 x <= c.
Proof.
  intros N L R. apply representable_eq in R. rewrite <- R.
  apply round53_mono; assumption.
Qed.

Lemma round53_ge_representable (x c : Q) :
  0 <= c → c <= x → representable c = true → c <= round53 x.
Proof.
  intros N L R. apply representable_eq in R. rewrite <- R.
  apply round53_mono; assumption.
Qed.

Lemma half_points : forallb half_points_representable (upto 257) = true.
Proof. vm_compute. reflexivity. Qed.

Lemma half_points_at (f : Z) :
  (0 <= f <= 256)%Z →
  representable (inject_Z f) = true
  ∧ representable (inject_Z f + (1 # 2)) = true
  ∧ representable (inject_Z f + (1 # 2) - (1 # 32768)) = true
  ∧ representable (inject_Z f + (1 # 2) + (1 # 32768)) = true.
Proof.
  intros H.
  pose proof (proj1 (forallb_forall _ _) half_points f (upto_In 257 f ltac:(lia))) as P.
  unfold half_points_representable in P. rewrite !andb_true_iff in P. tauto.
Qed.

(** Rounding the float quotient of a channel sum by the pixel count gives
    the same integer as rounding the exact quotient. *)
Lemma round_mean (s t : Z) :
  (0 <= s <= 255 * t)%Z → (0 < t <= 10000)%Z →
  rne (round53 (inject_Z s / inject_Z t)) = rne (inject_Z s / inject_Z t).
Proof.
  intros Hs Ht.
  pose proof (Z.div_mod s t ltac:(lia)) as D.
  pose proof (Z.mod_pos_bound s t ltac:(lia)) as M.
  set (q := (s / t)%Z) in *. set (m := (s mod t)%Z) in *.
  assert (Hq : (0 <= q <= 255)%Z) by nia.
  destruct (half_points_at q ltac:(lia)) as (R0 & R1 & R2 & R3).
  destruct (half_points_at (q + 1) ltac:(lia)) as (R4 & _).
  rewrite inject_Z_plus in R4. change (inject_Z 1) with 1 in R4.
  pose proof (inject_Z_pos t ltac:(lia)) as T.
  pose proof (inject_Z_nonneg q ltac:(lia)) as Q0.
  pose proof (quotient_nonneg s t ltac:(lia) ltac:(lia)) as N.
  assert (S : inject_Z s == inject_Z t * inject_Z q + inject_Z m).
  { rewrite <- inject_Z_mult, <- inject_Z_plus, D. reflexivity. }
  assert (M0 : 0 <= inject_Z m) by (apply inject_Z_nonneg; lia).
  assert (Lo : inject_Z q <= inject_Z s / inject_Z t).
  { apply Qle_shift_div_l; [assumption|]. nra. }
  set (x := inject_Z s / inject_Z t) in *.
  destruct (Z.compare_spec (2 * m) t) as [E | L | G].
  - (* a tie *)
    assert (X : x == inject_Z q + (1 # 2)).
    { unfold x. rewrite S. assert (T2 : inject_Z t == 2 * inject_Z m).
      { rewrite <- E, inject_Z_mult. reflexivity. }
      field_simplify_eq; [|lra]. rewrite T2. ring. }
    rewrite (round53_compat _ _ X). apply representable_eq in R1.
    rewrite (rne_compat _ _ R1). symmetry. apply rne_compat. assumption.
  - (* below the half *)
    assert (L' : inject_Z (2 * m + 1) <= inject_Z t) by (rewrite <- Zle_Qle; lia).
    rewrite inject_Z_plus, inject_Z_mult in L'.
    change (inject_Z 2) with 2 in L'. change (inject_Z 1) with 1 in L'.
    assert (T1 : inject_Z t <= 10000).
    { change 10000 with (inject_Z 10000). rewrite <- Zle_Qle. lia. }
    assert (Hi : x <= inject_Z q + (1 # 2) - (1 # 32768)).
    { apply Qle_shift_div_r; [assumption|]. nra. }
    pose proof (round53_le_representable x _ N Hi R2) as A.
    pose proof (round53_ge_representable x _ Q0 Lo R0) as B.
    rewrite (rne_near (round53 x) q), (rne_near x q); try lra. reflexivity.
  - (* above the half *)
    assert (G' : inject_Z (t + 1) <= inject_Z (2 * m)) by (rewrite <- Zle_Qle; lia).
    rewrite inject_Z_plus, inject_Z_mult in G'.
    change (inject_Z 2) with 2 in G'. change (inject_Z 1) with 1 in G'.
    assert (M1 : inject_Z (m + 1) <= inject_Z t) by (rewrite <- Zle_Qle; lia).
    rewrite inject_Z_plus in M1. change (inject_Z 1) with 1 in M1.
    assert (T1 : inject_Z t <= 10000).
    { change 10000 with (inject_Z 10000). rewrite <- Zle_Qle. lia. }
    assert (Lo' : inject_Z q + (1 # 2) + (1 # 32768) <= x).
    { apply Qle_shift_div_l; [assumption|]. nra. }
    assert (Hi : x <= inject_Z q + 1).
    { apply Qle_shift_div_r; [assumption|]. nra. }
    assert (Hi' : x < inject_Z q + 1).
    { apply Qlt_shift_div_r; [assumption|]. nra. }
    pose proof (round53_le_representable x _ N Hi R4) as A.
    assert (C0 : 0 <= inject_Z q + (1 # 2) + (1 # 32768)) by lra.
    pose proof (round53_ge_representable x _ C0 Lo' R3) as B.
    rewrite (rne_near (round53 x) (q + 1)), (rne_near x (q + 1));
      rewrite ?inject_Z_plus; change (inject_Z 1) with 1; try lra. reflexivity.
Qed.

End FloatFacts.

(** ** The model against hardware floats *)
Section Hardware.
Import PyFloat.

(** The literals [1.3], [1.1] and [0.1] of the model are the binary64
    values the kernel reads for them. *)
Lemma literals_agree :
  of_prim 0x1.4cccccccccccdp+0%float = Some lit_1_3
  ∧ of_prim 0x1.199999999999ap+0%float = Some lit_1_1
  ∧ of_prim 0x1.999999999999ap-4%float = Some lit_0_1.
Proof. split; [|split]; vm_compute; reflexivity. Qed.

(** The products the predicate computes agree with the hardware ones, for
    every channel value. *)
Lemma products_agree :
  forallb (product_agrees lit_1_3 0x1.4cccccccccccdp+0%float) (upto 256) = true
  ∧ forallb (product_agrees lit_1_1 0x1.199999999999ap+0%float) (upto 256) = true.
Proof. split; vm_compute; reflexivity. Qed.

(** So do the quotients, on a grid of small counts and around the
    threshold. *)
Lemma quotients_agree :
  forallb (λ t, forallb (λ p, quotient_agrees p t) (upto 65))
          (map Z.succ (upto 64)) = true
  ∧ forallb (λ p, quotient_agrees p 2009) (map (Z.add 190) (upto 20)) = true
  ∧ forallb (λ p, quotient_agrees p 10000) (map (Z.add 990) (upto 20)) = true.
Proof. split; [|split]; vm_compute; reflexivity. Qed.

(** Two values Python programmers know: [50 * 1.1] is
    55.00000000000001, and [round(0.125, 2)] is 0.12 (the tie goes to the
    even digit). *)
Example fifty_times_1_1 : (int_mul 50 lit_1_1 == 55 + (1 # 2) ^ 47)%Q.
Proof. vm_compute. reflexivity. Qed.

Example round_an_eighth : round_ndigits (1 # 8) 2 = round53 (12 # 100).
Proof. vm_compute. reflexivity. Qed.

End Hardware.

(** ** The sampling loops *)
Section Loops.
Context (img : PIL.Image).

Lemma for_each_app {A S} (xs ys : list A) (body : A → S → result S) (st : S) :
  for_each (xs ++ ys) body st = st' ← for_each xs body st; for_each ys body st'.
Proof.
  revert st. induction xs as [|x xs IH]; intros st; simpl; [reflexivity|].
  destruct (body x st); simpl; [apply IH | reflexivity].
Qed.

(** The nested loops visit the pairs of [list_prod]. *)
Lemma for_each_nested {A B S} (xs : list A) (ys : list B)
    (body : A → B → S → result S) (st : S) :
  for_each xs (λ x st, for_each ys (body x) st) st
  = for_each (list_prod xs ys) (λ c st, body c.1 c.2 st) st.
Proof.
  revert st. induction xs as [|x xs IH]; intros st; simpl; [reflexivity|].
  rewrite for_each_app.
  assert (E : ∀ st, for_each ys (body x) st
                    = for_each (map (λ y, (x, y)) ys) (λ c st, body c.1 c.2 st) st).
  { clear. induction ys as [|y ys IH]; intros st; simpl; [reflexivity|].
    destruct (body x y st); simpl; [apply IH | reflexivity]. }
  rewrite E. destruct (for_each (map _ ys) _ st); simpl; [apply IH | reflexivity].
Qed.

Lemma sample_scanned :
  sample img = for_each (scanned img) (λ c st, visit img c.1 c.2 st) initial.
Proof.
  unfold sample, scanned. destruct (PIL.size img) as [width height].
  apply for_each_nested.
Qed.

(** One visit either fails on a single-band pixel, or counts what the pixel
    contributes. *)
Lemma visit_cases (c : Z * Z) (st : locals) :
  visit img c.1 c.2 st
  = if in_bounds img c then
      match PIL.getpixel img c with
      | PIL.Band _ => Raise "object of type 'int' has no len()"
      | PIL.Bands cs => Ok (tally (counted (PIL.Bands cs)) st)
      end
    else Ok st.
Proof.
  destruct c as [x y]. unfold visit, in_bounds. destruct (PIL.size img) as [width height].
  cbn [fst snd].
  destruct ((0 <=? x) && (x <? width) && (0 <=? y) && (y <? height)); [|reflexivity].
  destruct (PIL.getpixel img (x, y)) as [v | cs]; [reflexivity|].
  destruct cs as [|r [|g [|b rest]]]; try reflexivity.
  unfold len. cbn [length mbind result_bind].
  destruct (Z.leb_spec 3 (Z.of_nat (S (S (S (length rest)))))) as [_|N]; [|lia].
  cbn -[is_blue Z.add]. destruct (is_blue r g b); cbn; f_equal; f_equal; lia.
Qed.


Lemma tally_app (ps qs : list rgb) (st : locals) :
  tally (ps ++ qs) st = tally qs (tally ps st).
Proof. apply fold_left_app. Qed.

Lemma sampled_cons (c : Z * Z) (cs : list (Z * Z)) :
  flat_map (λ c, counted (PIL.getpixel img c)) (List.filter (in_bounds img) (c :: cs))
  = (if in_bounds img c then counted (PIL.getpixel img c) else [])
    ++ flat_map (λ c, counted (PIL.getpixel img c)) (List.filter (in_bounds img) cs).
Proof. simpl. destruct (in_bounds img c); reflexivity. Qed.

(** If the scan of a list of coordinates ends normally, it has counted the
    pixels of those that are in bounds. *)
Lemma scan_inv (cs : list (Z * Z)) (st st' : locals) :
  for_each cs (λ c st, visit img c.1 c.2 st) st = Ok st' →
  st' = tally (flat_map (λ c, counted (PIL.getpixel img c))
                        (List.filter (in_bounds img) cs)) st.
Proof.
  revert st. induction cs as [|c cs IH]; intros st H.
  - simpl in H. injection H as <-. reflexivity.
  - rewrite sampled_cons, tally_app. cbn [for_each] in H.
    rewrite visit_cases in H. destruct (in_bounds img c).
    + destruct (PIL.getpixel img c) as [v | l]; [discriminate|]. apply IH, H.
    + apply IH, H.
Qed.

(** The scan ends normally when the pixels in bounds are tuples. *)
Lemma scan_ok (cs : list (Z * Z)) (st : locals) :
  (∀ c, In c cs → in_bounds img c = true → ∃ l, PIL.getpixel img c = PIL.Bands l) →
  for_each cs (λ c st, visit img c.1 c.2 st) st
  = Ok (tally (flat_map (λ c, counted (PIL.getpixel img c))
                        (List.filter (in_bounds img) cs)) st).
Proof.
  revert st. induction cs as [|c cs IH]; intros st H; [reflexivity|].
  rewrite sampled_cons, tally_app. cbn [for_each].
  rewrite visit_cases. pose proof (H c (or_introl eq_refl)) as Hc.
  destruct (in_bounds img c).
  - destruct (Hc eq_refl) as [l ->]. apply IH. intros; apply H; [right|]; assumption.
  - apply IH. intros; apply H; [right|]; assumption.
Qed.

(** The scan fails when it meets a single-band pixel. *)
Lemma scan_band (cs : list (Z * Z)) (st : locals) (c : Z * Z) (v : Z) :
  In c cs → in_bounds img c = true → PIL.getpixel img c = PIL.Band v →
  for_each cs (λ c st, visit img c.1 c.2 st) st = Raise "object of type 'int' has no len()".
Proof.
  revert st. induction cs as [|d cs IH]; intros st Hin Hb Hp; [destruct Hin|].
  cbn [for_each]. rewrite visit_cases.
  destruct (in_bounds img d) eqn:Bd.
  - destruct (PIL.getpixel img d) as [u | l] eqn:Pd; [reflexivity|].
    destruct Hin as [-> | Hin]; [congruence|]. apply IH; assumption.
  - destruct Hin as [-> | Hin]; [congruence|]. apply IH; assumption.
Qed.

Lemma sample_inv (st : locals) :
  sample img = Ok st → st = tally (sampled img) initial.
Proof. rewrite sample_scanned. apply scan_inv. Qed.

Lemma in_bounds_iff (x y : Z) :
  in_bounds img (x, y) = true ↔ in_image img x y.
Proof.
  unfold in_bounds, in_image. destruct (PIL.size img) as [width height]. cbn [fst snd].
  rewrite !andb_true_iff, !Z.leb_le, !Z.ltb_lt. tauto.
Qed.

Lemma in_scanned (x y : Z) :
  In (x, y) (scanned img)
  ↔ ((PIL.size img).1 / 2 - 50 <= x < (PIL.size img).1 / 2 + 50)
    ∧ ((PIL.size img).2 / 2 - 50 <= y < (PIL.size img).2 / 2 + 50).
Proof.
  unfold scanned, range, box_size. destruct (PIL.size img) as [width height]. cbn [fst snd].
  rewrite in_prod_iff, <- !list_elem_of_In, !elem_of_seqZ. lia.
Qed.

Lemma in_window (x y : Z) :
  In (x, y) (window img) ↔ in_sample_window img x y.
Proof.
  unfold window. rewrite filter_In, in_scanned, in_bounds_iff.
  unfold in_sample_window, in_image. destruct (PIL.size img) as [width height].
  cbn [fst snd]. tauto.
Qed.

Lemma sample_ok :
  (∀ x y, in_sample_window img x y → ∃ l, PIL.getpixel img (x, y) = PIL.Bands l) →
  sample img = Ok (tally (sampled img) initial).
Proof.
  intros H. rewrite sample_scanned. apply scan_ok.
  intros [x y] Hin Hb. apply H. apply in_window. unfold window.
  apply filter_In. split; assumption.
Qed.

Lemma sample_band (x y v : Z) :
  in_sample_window img x y → PIL.getpixel img (x, y) = PIL.Band v →
  sample img = Raise "object of type 'int' has no len()".
Proof.
  intros Hw Hp. apply in_window in Hw. unfold window in Hw. apply filter_In in Hw.
  destruct Hw as [Hin Hb]. rewrite sample_scanned.
  apply (scan_band _ _ (x, y) v); assumption.
Qed.

(** *** What the tally holds *)

Lemma tally_total_pixels (ps : list rgb) (st : locals) :
  total_pixels (tally ps st) = total_pixels st + Z.of_nat (length ps).
Proof.
  revert st. induction ps as [|[[r g] b] ps IH]; intros st; [simpl; lia|].
  change (tally (_ :: ps) st) with (tally ps (count_pixel st (r, g, b))).
  rewrite IH. cbn [count_pixel total_pixels length]. lia.
Qed.

Lemma tally_blue_pixels (ps : list rgb) (st : locals) :
  blue_pixels (tally ps st)
  = blue_pixels st
    + Z.of_nat (length (List.filter (λ p, is_blue (red p) (green p) (blue p)) ps)).
Proof.
  revert st. induction ps as [|[[r g] b] ps IH]; intros st; [simpl; lia|].
  change (tally (_ :: ps) st) with (tally ps (count_pixel st (r, g, b))).
  rewrite IH. cbn [count_pixel blue_pixels List.filter red green blue fst snd].
  destruct (is_blue r g b); cbn [length]; lia.
Qed.

Lemma tally_avg_r (ps : list rgb) (st : locals) :
  avg_r (tally ps st) = avg_r st + total (map red ps).
Proof.
  revert st. induction ps as [|[[r g] b] ps IH]; intros st; [simpl; lia|].
  change (tally (_ :: ps) st) with (tally ps (count_pixel st (r, g, b))).
  rewrite IH. cbn [count_pixel avg_r map total fold_right red fst snd]. fold (total (map red ps)). lia.
Qed.

Lemma tally_avg_g (ps : list rgb) (st : locals) :
  avg_g (tally ps st) = avg_g st + total (map green ps).
Proof.
  revert st. induction ps as [|[[r g] b] ps IH]; intros st; [simpl; lia|].
  change (tally (_ :: ps) st) with (tally ps (count_pixel st (r, g, b))).
  rewrite IH. cbn [count_pixel avg_g map total fold_right green fst snd]. fold (total (map green ps)). lia.
Qed.

Lemma tally_avg_b (ps : list rgb) (st : locals) :
  avg_b (tally ps st) = avg_b st + total (map blue ps).
Proof.
  revert st. induction ps as [|[[r g] b] ps IH]; intros st; [simpl; lia|].
  change (tally (_ :: ps) st) with (tally ps (count_pixel st (r, g, b))).
  rewrite IH. cbn [count_pixel avg_b map total fold_right blue fst snd]. fold (total (map blue ps)). lia.
Qed.

End Loops.

(** ** The size of the sample window *)
Section Window.

(** How many integers of [lo, lo + k) lie in [a, b). *)
Lemma count_in_range (a b : Z) (k : nat) (lo : Z) :
  length (List.filter (λ x, (a <=? x) && (x <? b)) (seqZ lo (Z.of_nat k)))
  = Z.to_nat (Z.min b (lo + Z.of_nat k) - Z.max a lo).
Proof.
  revert lo. induction k as [|k IH]; intros lo.
  - simpl. lia.
  - rewrite seqZ_cons by lia. cbn [List.filter].
    replace (Z.pred (Z.of_nat (S k))) with (Z.of_nat k) by lia.
    destruct (Z.leb_spec a lo), (Z.ltb_spec lo b); cbn [andb length]; rewrite IH; lia.
Qed.

Lemma filter_pairs {A B} (p : A → bool) (q : B → bool) (x : A) (ys : list B) :
  length (List.filter (λ c, p c.1 && q c.2) (map (λ y, (x, y)) ys))
  = if p x then length (List.filter q ys) else 0%nat.
Proof.
  induction ys as [|y ys IH]; cbn [map List.filter fst snd].
  - destruct (p x); reflexivity.
  - destruct (p x); cbn [andb] in *; [|assumption].
    destruct (q y); cbn [length]; rewrite IH; reflexivity.
Qed.

Lemma filter_list_prod {A B} (p : A → bool) (q : B → bool) (xs : list A) (ys : list B) :
  length (List.filter (λ c, p c.1 && q c.2) (list_prod xs ys))
  = (length (List.filter p xs) * length (List.filter q ys))%nat.
Proof.
  induction xs as [|x xs IH]; [reflexivity|].
  cbn [list_prod List.filter]. rewrite List.filter_app, length_app, filter_pairs, IH.
  destruct (p x); cbn [length]; lia.
Qed.

Lemma window_length (img : PIL.Image) :
  length (window img)
  = (Z.to_nat (Z.min (PIL.size img).1 100) * Z.to_nat (Z.min (PIL.size img).2 100))%nat.
Proof.
  unfold window, scanned, in_bounds, range, box_size.
  destruct (PIL.size img) as [width height]. cbn [fst snd].
  rewrite (List.filter_ext _ (λ c, ((0 <=? c.1) && (c.1 <? width)) && ((0 <=? c.2) && (c.2 <? height))))
    by (intros c; rewrite andb_assoc; reflexivity).
  rewrite (filter_list_prod (λ x, (0 <=? x) && (x <? width)) (λ y, (0 <=? y) && (y <? height))).
  replace (width / 2 + 50 - (width / 2 - 50)) with (Z.of_nat 100) by lia.
  replace (height / 2 + 50 - (height / 2 - 50)) with (Z.of_nat 100) by lia.
  rewrite !count_in_range. f_equal; f_equal; Z.to_euclidean_division_equations; lia.
Qed.

Lemma NoDup_list_prod {A B} (xs : list A) (ys : list B) :
  NoDup xs → NoDup ys → NoDup (list_prod xs ys).
Proof.
  intros Hx Hy. induction Hx as [|x xs Hn Hx IH]; cbn [list_prod]; [constructor|].
  apply NoDup_app. split; [|split; [|assumption]].
  - assert (I : Inj (=) (=) (λ y : B, (x, y))) by (intros y1 y2 E; congruence).
    apply (NoDup_fmap_2 (λ y, (x, y)) ys Hy).
  - intros [x' y'] H1 H2. apply list_elem_of_In, in_map_iff in H1.
    destruct H1 as (y & E & _). injection E as <- <-.
    apply list_elem_of_In, in_prod_iff in H2. destruct H2 as [H2 _].
    apply Hn, list_elem_of_In, H2.
Qed.

Lemma NoDup_window (img : PIL.Image) : NoDup (window img).
Proof.
  unfold window. apply NoDup_ListNoDup, List.NoDup_filter, NoDup_ListNoDup.
  unfold scanned, range. destruct (PIL.size img) as [width height].
  apply NoDup_list_prod; apply NoDup_seqZ.
Qed.

(** The window has as many coordinates as any set that holds exactly the
    coordinates of the sample window. *)
Lemma window_size (img : PIL.Image) (coords : gset (Z * Z)) :
  (∀ x y, (x, y) ∈ coords ↔ in_sample_window img x y) →
  size coords = length (window img).
Proof.
  intros H. rewrite <- (size_list_to_set (C := gset (Z * Z))) by apply NoDup_window.
  f_equal. apply set_eq. intros [x y].
  rewrite elem_of_list_to_set, list_elem_of_In, in_window. apply H.
Qed.

End Window.

(** ** The boundary of analyze_image *)
Section Analyze.

Lemma ratios_ok (st : locals) :
  ratios st
  = Ok (quotient_or (avg_r st) (total_pixels st) (inject_Z (avg_r st)),
        quotient_or (avg_g st) (total_pixels st) (inject_Z (avg_g st)),
        quotient_or (avg_b st) (total_pixels st) (inject_Z (avg_b st)),
        quotient_or (blue_pixels st) (total_pixels st) 0%Q).
Proof.
  unfold ratios, quotient_or. destruct (Z.ltb_spec 0 (total_pixels st)) as [P | N]; [|reflexivity].
  rewrite !int_truediv_ok by lia. reflexivity.
Qed.

Lemma analyze_body_ok (w : World) (filepath : string) (img : PIL.Image) (st : locals) :
  Image_open w filepath = Ok img → sample img = Ok st →
  analyze_body w filepath = Ok (Stats (summary st)).
Proof.
  intros Ho Hs. unfold analyze_body. rewrite Ho. cbn [mbind result_bind].
  rewrite Hs. cbn [mbind result_bind]. rewrite ratios_ok. reflexivity.
Qed.

(** [analyze_image] returns a dictionary, whatever the file. *)
Lemma analyze_image_returns (w : World) (filepath : string) :
  ∃ a, analyze_image w filepath = Ok a.
Proof.
  unfold analyze_image, try_except.
  destruct (analyze_body w filepath) as [a | e]; eexists; reflexivity.
Qed.

Lemma analyze_image_open_error (w : World) (filepath e : string) :
  Image_open w filepath = Raise e → analyze_image w filepath = Ok (Error e).
Proof.
  intros H. unfold analyze_image, analyze_body. rewrite H. reflexivity.
Qed.

Lemma analyze_image_ok (w : World) (filepath : string) (img : PIL.Image) :
  Image_open w filepath = Ok img →
  (∀ x y, in_sample_window img x y → ∃ l, PIL.getpixel img (x, y) = PIL.Bands l) →
  analyze_image w filepath = Ok (Stats (summary (tally (sampled img) initial))).
Proof.
  intros Ho Hb. unfold analyze_image.
  rewrite (analyze_body_ok w filepath img _ Ho (sample_ok img Hb)). reflexivity.
Qed.

Lemma analyze_image_band (w : World) (filepath : string) (img : PIL.Image) (x y v : Z) :
  Image_open w filepath = Ok img →
  in_sample_window img x y → PIL.getpixel img (x, y) = PIL.Band v →
  analyze_image w filepath = Ok (Error "object of type 'int' has no len()").
Proof.
  intros Ho Hw Hp. unfold analyze_image, analyze_body. rewrite Ho. cbn [mbind result_bind].
  rewrite (sample_band img x y v Hw Hp). reflexivity.
Qed.

(** A dictionary of statistics comes from an image that opened, and holds
    the summary of its sampled pixels. *)
Lemma analyze_image_inv (w : World) (filepath : string) (s : stats) :
  analyze_image w filepath = Ok (Stats s) →
  ∃ img, Image_open w filepath = Ok img ∧ s = summary (tally (sampled img) initial).
Proof.
  unfold analyze_image, try_except. intros H.
  destruct (analyze_body w filepath) as [a | e] eqn:B; [|discriminate].
  injection H as ->. unfold analyze_body in B.
  destruct (Image_open w filepath) as [img | e]; [|discriminate].
  cbn [mbind result_bind] in B.
  destruct (sample img) as [st | e] eqn:Hs; [|discriminate].
  cbn [mbind result_bind] in B. rewrite ratios_ok in B. cbn [mbind result_bind] in B.
  injection B as <-. exists img. split; [reflexivity|].
  rewrite <- (sample_inv img st Hs). reflexivity.
Qed.

(** *** The counts of the sampled pixels *)

Lemma counted_length (p : PIL.pixel) : (length (counted p) <= 1)%nat.
Proof. destruct p as [v | [|r [|g [|b rest]]]]; simpl; lia. Qed.

Lemma flat_map_length_le {A B} (f : A → list B) (l : list A) :
  (∀ a, (length (f a) <= 1)%nat) → (length (flat_map f l) <= length l)%nat.
Proof.
  intros H. induction l as [|a l IH]; simpl; [lia|].
  rewrite length_app. pose proof (H a). lia.
Qed.

Lemma sampled_le_window (img : PIL.Image) :
  (length (sampled img) <= length (window img))%nat.
Proof. apply flat_map_length_le. intros c. apply counted_length. Qed.

Lemma window_at_most (img : PIL.Image) : Z.of_nat (length (window img)) <= 10000.
Proof.
  rewrite window_length.
  assert (A : (Z.to_nat (Z.min (PIL.size img).1 100) <= 100)%nat) by lia.
  assert (B : (Z.to_nat (Z.min (PIL.size img).2 100) <= 100)%nat) by lia.
  rewrite Nat2Z.inj_mul. nia.
Qed.

Lemma sampled_total_pixels (img : PIL.Image) :
  total_pixels (tally (sampled img) initial) = Z.of_nat (length (sampled img)).
Proof. rewrite tally_total_pixels. reflexivity. Qed.

Lemma sampled_blue_pixels (img : PIL.Image) :
  0 <= blue_pixels (tally (sampled img) initial)
       <= total_pixels (tally (sampled img) initial).
Proof.
  rewrite tally_blue_pixels, tally_total_pixels. cbn [initial blue_pixels total_pixels].
  pose proof (List.filter_length_le (λ p, is_blue (red p) (green p) (blue p)) (sampled img)).
  lia.
Qed.

Lemma sampled_total_bound (img : PIL.Image) :
  0 <= total_pixels (tally (sampled img) initial) <= 10000.
Proof.
  rewrite sampled_total_pixels.
  pose proof (sampled_le_window img). pose proof (window_at_most img). lia.
Qed.

End Analyze.

(** ** The classifier *)
Section Classifier.
Import PyFloat.

Lemma is_blue_iff (r g b : Z) :
  0 <= r <= 255 → 0 <= g <= 255 → is_blue r g b = true ↔ flood_color r g b.
Proof.
  intros Hr Hg. unfold is_blue, flood_color.
  rewrite !andb_true_iff, Z.ltb_lt, (int_gt_1_3 r b Hr), (int_gt_1_1 g b Hg). tauto.
Qed.

Lemma in_sample_window_in_image (img : PIL.Image) (x y : Z) :
  in_sample_window img x y → in_image img x y.
Proof.
  unfold in_sample_window, in_image. destruct (PIL.size img) as [width height].
  cbn [fst snd]. tauto.
Qed.

(** The counted pixels that pass a test are as many as the coordinates
    where the counted pixel passes it. *)
Lemma filter_counted (img : PIL.Image) (P : rgb → bool) (cs : list (Z * Z)) :
  length (List.filter P (flat_map (λ c, counted (PIL.getpixel img c)) cs))
  = length (List.filter (λ c, existsb P (counted (PIL.getpixel img c))) cs).
Proof.
  induction cs as [|c cs IH]; [reflexivity|].
  cbn [flat_map List.filter]. rewrite List.filter_app, length_app, IH.
  destruct (PIL.getpixel img c) as [v | [|r [|g [|b rest]]]]; cbn [counted existsb List.filter];
    try reflexivity.
  destruct (P (r, g, b)); reflexivity.
Qed.

(** The coordinates of the window whose pixel is counted as blue. *)
Lemma blue_coordinates (img : PIL.Image) :
  eight_bit img →
  ∃ blues : gset (Z * Z),
    (∀ x y, (x, y) ∈ blues ↔ flood_pixel img x y)
    ∧ blue_pixels (tally (sampled img) initial) = Z.of_nat (size blues).
Proof.
  intros E8.
  set (P := λ p : rgb, is_blue (red p) (green p) (blue p)).
  set (l := List.filter (λ c, existsb P (counted (PIL.getpixel img c))) (window img)).
  exists (list_to_set l). split.
  - intros x y. rewrite elem_of_list_to_set, list_elem_of_In. unfold l.
    rewrite filter_In, in_window. unfold flood_pixel. split.
    + intros [Hw Hb]. split; [exact Hw|].
      destruct (PIL.getpixel img (x, y)) as [v | [|r [|g [|b rest]]]] eqn:G;
        cbn [counted existsb] in Hb; try discriminate.
      rewrite orb_false_r in Hb. exists r, g, b, rest. split; [reflexivity|].
      pose proof (E8 x y _ (in_sample_window_in_image img x y Hw) G) as F.
      inversion F as [|? ? Hr F1]; subst. inversion F1 as [|? ? Hg _]; subst.
      apply (is_blue_iff r g b Hr Hg). exact Hb.
    + intros (Hw & r & g & b & rest & G & Fc). split; [exact Hw|].
      rewrite G. cbn [counted existsb]. rewrite orb_false_r.
      pose proof (E8 x y _ (in_sample_window_in_image img x y Hw) G) as F.
      inversion F as [|? ? Hr F1]; subst. inversion F1 as [|? ? Hg _]; subst.
      apply (is_blue_iff r g b Hr Hg). exact Fc.
  - rewrite tally_blue_pixels. cbn [blue_pixels initial]. rewrite Z.add_0_l. f_equal.
    rewrite size_list_to_set by (unfold l; apply NoDup_ListNoDup, List.NoDup_filter, NoDup_ListNoDup, NoDup_window).
    unfold sampled, l. rewrite (filter_counted img P). reflexivity.
Qed.

(** C1: the classifier counts a pixel toward [blue_pixels] exactly when its
    channels satisfy [b > 100], [b > r * 1.3] and [b > g * 1.1] in exact
    arithmetic, all comparisons strict.  For an image of 8-bit tuples,
    [analyze_image] returns the record, and its [blue_pixels] is the number
    of coordinates of the sample window whose pixel has the flood colour;
    and each visit of the loop body to such a pixel adds one to the counter
    when the pixel has the flood colour and leaves it otherwise. *)
Theorem blue_pixel_counted_iff_flood_color
    (w : World) (filepath : string) (img : PIL.Image) :
  Image_open w filepath = Ok img →
  channels_at_least 0 img →
  eight_bit img →
  (∃ s (blues : gset (Z * Z)),
     analyze_image w filepath = Ok (Stats s)
     ∧ (∀ x y, (x, y) ∈ blues ↔ flood_pixel img x y)
     ∧ rec_blue_pixels s = Z.of_nat (size blues))
  ∧ (∀ x y r g b rest st,
       in_image img x y →
       PIL.getpixel img (x, y) = PIL.Bands (r :: g :: b :: rest) →
       ∃ st', visit img x y st = Ok st'
         ∧ (blue_pixels st' = blue_pixels st + 1 ↔ flood_color r g b)
         ∧ (blue_pixels st' = blue_pixels st ↔ ¬ flood_color r g b)).
Proof.
  intros Ho Hc E8. split.
  - destruct (blue_coordinates img E8) as (blues & Ch & N).
    exists (summary (tally (sampled img) initial)), blues. split; [|split].
    + apply (analyze_image_ok w filepath img Ho).
      intros x y Hw. destruct (Hc x y (in_sample_window_in_image img x y Hw)) as (cs & E & _).
      exists cs. exact E.
    + exact Ch.
    + exact N.
  - intros x y r g b rest st Hin Hp.
    pose proof (E8 x y _ Hin Hp) as F.
    inversion F as [|? ? Hr F1]; subst. inversion F1 as [|? ? Hg _]; subst.
    pose proof (visit_cases img (x, y) st) as V. cbn [fst snd] in V.
    rewrite (proj2 (in_bounds_iff img x y) Hin), Hp in V.
    eexists. split; [exact V|].
    cbn [counted tally fold_left count_pixel blue_pixels].
    pose proof (is_blue_iff r g b Hr Hg) as B.
    destruct (is_blue r g b).
    + split; split; intros H; try tauto; try lia.
    + assert (N : ¬ flood_color r g b) by (intros Fc; apply B in Fc; discriminate).
      split; split; intros H; try tauto; try lia.
Qed.

Lemma blue_pixel_counted_iff_flood_color_witness :
  (∃ s (blues : gset (Z * Z)),
     analyze_image (opens_as (uniform 1 1 (PIL.Bands [0; 0; 101])))
       "zoom_Global_Full_+0000ft.png" = Ok (Stats s)
     ∧ (∀ x y, (x, y) ∈ blues ↔ flood_pixel (uniform 1 1 (PIL.Bands [0; 0; 101])) x y)
     ∧ rec_blue_pixels s = Z.of_nat (size blues)
     ∧ rec_blue_pixels s = 1)
  ∧ (∃ s (blues : gset (Z * Z)),
       analyze_image (opens_as (uniform 1 1 (PIL.Bands [0; 0; 100])))
         "zoom_Global_Full_+0000ft.png" = Ok (Stats s)
       ∧ (∀ x y, (x, y) ∈ blues ↔ flood_pixel (uniform 1 1 (PIL.Bands [0; 0; 100])) x y)
       ∧ rec_blue_pixels s = Z.of_nat (size blues)
       ∧ rec_blue_pixels s = 0).
Proof.
  split.
  - destruct (blue_pixel_counted_iff_flood_color
                (opens_as (uniform 1 1 (PIL.Bands [0; 0; 101])))
                "zoom_Global_Full_+0000ft.png"
                (uniform 1 1 (PIL.Bands [0; 0; 101])))
      as [(s & blues & A & Ch & N) _].
    + reflexivity.
    + intros x y _. exists [0; 0; 101]. split; [reflexivity | simpl; lia].
    + intros x y cs _ E. simpl in E. injection E as <-. repeat constructor; lia.
    + exists s, blues. split; [exact A|]. split; [exact Ch|]. split; [exact N|].
      vm_compute in A. injection A as <-. reflexivity.
  - destruct (blue_pixel_counted_iff_flood_color
                (opens_as (uniform 1 1 (PIL.Bands [0; 0; 100])))
                "zoom_Global_Full_+0000ft.png"
                (uniform 1 1 (PIL.Bands [0; 0; 100])))
      as [(s & blues & A & Ch & N) _].
    + reflexivity.
    + intros x y _. exists [0; 0; 100]. split; [reflexivity | simpl; lia].
    + intros x y cs _ E. simpl in E. injection E as <-. repeat constructor; lia.
    + exists s, blues. split; [exact A|]. split; [exact Ch|]. split; [exact N|].
      vm_compute in A. injection A as <-. reflexivity.
Defined.


Lemma tenth_lt_quotient (p t : Z) :
  0 < t → (t < 10 * p ↔ (1 # 10 < inject_Z p / inject_Z t)%Q).
Proof.
  intros T. split.
  - intros H. apply (quotient_lt 1 10 p t); lia.
  - intros H. destruct (Z_lt_ge_dec t (10 * p)) as [|G]; [assumption|exfalso].
    pose proof (quotient_le p t 1 10 T ltac:(lia) ltac:(lia)) as L.
    change (inject_Z 1 / inject_Z 10)%Q with (1 # 10)%Q in L.
    apply (Qlt_irrefl (1 # 10)). apply (Qlt_le_trans _ _ _ H L).
Qed.

(** C10: [has_flooding] is the exact comparison of [blue_pixels /
    total_pixels] with 1/10, taken on the unrounded ratio. *)
Theorem has_flooding_is_exact_comparison (w : World) (filepath : string) (s : stats) :
  analyze_image w filepath = Ok (Stats s) →
  0 < rec_total_pixels s →
  rec_has_flooding s = true
  ↔ (1 # 10 < inject_Z (rec_blue_pixels s) / inject_Z (rec_total_pixels s))%Q.
Proof.
  intros H T. destruct (analyze_image_inv _ _ _ H) as (img & _ & ->).
  pose proof (sampled_blue_pixels img) as B. pose proof (sampled_total_bound img) as TB.
  set (st := tally (sampled img) initial) in *.
  cbn [summary rec_has_flooding rec_blue_pixels rec_total_pixels] in *.
  unfold quotient_or. destruct (Z.ltb_spec 0 (total_pixels st)); [|lia].
  rewrite flooding_iff by lia. apply tenth_lt_quotient. assumption.
Qed.

Lemma has_flooding_is_exact_comparison_witness :
  true = true ↔ (1 # 10 < inject_Z 201 / inject_Z 2009)%Q.
Proof.
  apply (has_flooding_is_exact_comparison (opens_as blue_corner) "zoom_Global_Full_+0000ft.png"
           {| rec_blue_pixels := 201; rec_total_pixels := 2009;
              rec_blue_ratio := lit_0_1; rec_avg_color := (0, 0, 26);
              rec_has_flooding := true |}).
  - vm_compute. reflexivity.
  - reflexivity.
Defined.

(** C2, as the code has it: [has_flooding] is [y > 0.1] for the unrounded
    float quotient [y = blue_pixels / total_pixels], while the record
    reports [round(y, 4)].  So a reported [blue_ratio] above 0.1 implies
    [has_flooding]; [has_flooding] implies a reported [blue_ratio] of at
    least 0.1; and an exact ratio of 1/10 is not flooded. *)
Theorem has_flooding_and_reported_ratio (w : World) (filepath : string) (s : stats) :
  analyze_image w filepath = Ok (Stats s) →
  0 < rec_total_pixels s →
  (∃ y, PyFloat.int_truediv (rec_blue_pixels s) (rec_total_pixels s) = Ok y
        ∧ rec_blue_ratio s = round_ndigits y 4
        ∧ rec_has_flooding s = gt y lit_0_1)
  ∧ (gt (rec_blue_ratio s) lit_0_1 = true → rec_has_flooding s = true)
  ∧ (rec_has_flooding s = true → (lit_0_1 <= rec_blue_ratio s)%Q)
  ∧ (10 * rec_blue_pixels s = rec_total_pixels s → rec_has_flooding s = false).
Proof.
  intros H T. destruct (analyze_image_inv _ _ _ H) as (img & _ & ->).
  pose proof (sampled_blue_pixels img) as B. pose proof (sampled_total_bound img) as TB.
  set (st := tally (sampled img) initial) in *.
  cbn [summary rec_has_flooding rec_blue_pixels rec_total_pixels rec_blue_ratio] in *.
  unfold quotient_or. destruct (Z.ltb_spec 0 (total_pixels st)); [|lia].
  destruct (ratio_bounds (blue_pixels st) (total_pixels st) B T) as [N _].
  split; [|split; [|split]].
  - eexists. split; [apply int_truediv_ok; lia|]. split; reflexivity.
  - apply round4_gt_tenth. assumption.
  - apply gt_tenth_round4.
  - intros E. destruct (gt _ lit_0_1) eqn:G; [|reflexivity].
    apply flooding_iff in G; lia.
Qed.

Lemma has_flooding_and_reported_ratio_witness :
  (∃ y, PyFloat.int_truediv 201 2009 = Ok y
        ∧ lit_0_1 = round_ndigits y 4
        ∧ true = gt y lit_0_1)
  ∧ (gt lit_0_1 lit_0_1 = true → true = true)
  ∧ (true = true → (lit_0_1 <= lit_0_1)%Q)
  ∧ (10 * 201 = 2009 → true = false).
Proof.
  apply (has_flooding_and_reported_ratio (opens_as blue_corner) "zoom_Global_Full_+0000ft.png"
           {| rec_blue_pixels := 201; rec_total_pixels := 2009;
              rec_blue_ratio := lit_0_1; rec_avg_color := (0, 0, 26);
              rec_has_flooding := true |}).
  - vm_compute. reflexivity.
  - reflexivity.
Defined.

(** C2 as stated fails: with 201 blue pixels out of 2009 the unrounded
    ratio 0.10004... exceeds 0.1, so [has_flooding] is true, while the
    reported [blue_ratio] is 0.1, which is not above 0.1. *)
Lemma has_flooding_not_from_reported_ratio :
  ¬ (∀ (w : World) (filepath : string) (s : stats),
       analyze_image w filepath = Ok (Stats s) →
       0 < rec_total_pixels s →
       rec_has_flooding s = true ↔ gt (rec_blue_ratio s) lit_0_1 = true).
Proof.
  intros C.
  assert (A : analyze_image (opens_as blue_corner) "zoom_Global_Full_+0000ft.png"
              = Ok (Stats {| rec_blue_pixels := 201; rec_total_pixels := 2009;
                             rec_blue_ratio := lit_0_1; rec_avg_color := (0, 0, 26);
                             rec_has_flooding := true |}))
    by (vm_compute; reflexivity).
  apply C in A; [|reflexivity]. cbn [rec_has_flooding rec_blue_ratio] in A.
  assert (G : gt lit_0_1 lit_0_1 = false) by (vm_compute; reflexivity).
  rewrite G in A. destruct A as [A _]. discriminate (A eq_refl).
Qed.

(** C5, as the code has it: the counts are ordered, the reported ratio
    lies in [[0, 1]] and is the float quotient rounded to 4 decimal places
    (0 when nothing was sampled). *)
Theorem stats_invariant (w : World) (filepath : string) (s : stats) :
  analyze_image w filepath = Ok (Stats s) →
  0 <= rec_blue_pixels s <= rec_total_pixels s
  ∧ (0 <= rec_blue_ratio s ∧ rec_blue_ratio s <= 1)%Q
  ∧ (0 < rec_total_pixels s →
     PyFloat.int_truediv (rec_blue_pixels s) (rec_total_pixels s)
     = Ok (round53 (inject_Z (rec_blue_pixels s) / inject_Z (rec_total_pixels s)))
     ∧ rec_blue_ratio s
       = round_ndigits
           (round53 (inject_Z (rec_blue_pixels s) / inject_Z (rec_total_pixels s))) 4)
  ∧ (rec_total_pixels s = 0 → rec_blue_ratio s = 0%Q).
Proof.
  intros H. destruct (analyze_image_inv _ _ _ H) as (img & _ & ->).
  pose proof (sampled_blue_pixels img) as B.
  set (st := tally (sampled img) initial) in *.
  cbn [summary rec_has_flooding rec_blue_pixels rec_total_pixels rec_blue_ratio] in *.
  unfold quotient_or. split; [assumption|].
  destruct (Z.ltb_spec 0 (total_pixels st)) as [T | T].
  - destruct (ratio_bounds (blue_pixels st) (total_pixels st) B T) as [N U].
    split; [apply round4_bounds; assumption|]. split; [|lia].
    intros _. split; [apply int_truediv_ok; lia | reflexivity].
  - split; [split; discriminate|]. split; [lia | reflexivity].
Qed.

Lemma stats_invariant_witness :
  0 <= 1 <= 3
  ∧ (0 <= round_ndigits (round53 (inject_Z 1 / inject_Z 3)) 4
     ∧ round_ndigits (round53 (inject_Z 1 / inject_Z 3)) 4 <= 1)%Q
  ∧ (0 < 3 →
     PyFloat.int_truediv 1 3 = Ok (round53 (inject_Z 1 / inject_Z 3))
     ∧ round_ndigits (round53 (inject_Z 1 / inject_Z 3)) 4
       = round_ndigits (round53 (inject_Z 1 / inject_Z 3)) 4)
  ∧ (3 = 0 → round_ndigits (round53 (inject_Z 1 / inject_Z 3)) 4 = 0%Q).
Proof.
  apply (stats_invariant (opens_as one_in_three) "elevation_+00000ft.png"
           {| rec_blue_pixels := 1; rec_total_pixels := 3;
              rec_blue_ratio := round_ndigits (round53 (inject_Z 1 / inject_Z 3)) 4;
              rec_avg_color := (0, 0, 85);
              rec_has_flooding := true |}).
  vm_compute. reflexivity.
Defined.

(** C5 as stated fails on the reported ratio: with 1 blue pixel out of 3
    the record holds 0.3333, which is neither the exact quotient 1/3 nor
    the float quotient. *)
Lemma reported_ratio_is_rounded :
  ¬ (∀ (w : World) (filepath : string) (s : stats),
       analyze_image w filepath = Ok (Stats s) →
       0 < rec_total_pixels s →
       (rec_blue_ratio s == inject_Z (rec_blue_pixels s) / inject_Z (rec_total_pixels s))%Q
       ∨ (rec_blue_ratio s
          == round53 (inject_Z (rec_blue_pixels s) / inject_Z (rec_total_pixels s)))%Q).
Proof.
  intros C.
  assert (A : analyze_image (opens_as one_in_three) "elevation_+00000ft.png"
              = Ok (Stats {| rec_blue_pixels := 1; rec_total_pixels := 3;
                             rec_blue_ratio := round_ndigits (round53 (inject_Z 1 / inject_Z 3)) 4;
                             rec_avg_color := (0, 0, 85);
                             rec_has_flooding := true |}))
    by (vm_compute; reflexivity).
  apply C in A; [|reflexivity]. cbn [rec_blue_pixels rec_total_pixels rec_blue_ratio] in A.
  destruct A as [A | A]; apply Qeq_bool_iff in A; vm_compute in A; discriminate.
Qed.

End Classifier.

(** ** What is sampled *)
Section Sampling.
Import PyFloat.

Lemma flat_map_length_one {A B} (f : A → list B) (l : list A) :
  (∀ a, In a l → length (f a) = 1%nat) → length (flat_map f l) = length l.
Proof.
  intros H. induction l as [|a l IH]; [reflexivity|].
  cbn [flat_map]. rewrite length_app, (H a (or_introl eq_refl)), IH; [reflexivity|].
  intros b Hb. apply H. right. assumption.
Qed.

Lemma sampled_length_full (img : PIL.Image) :
  channels_at_least 3 img → length (sampled img) = length (window img).
Proof.
  intros H. apply flat_map_length_one. intros [x y] Hin.
  apply in_window, in_sample_window_in_image in Hin.
  destruct (H x y Hin) as (cs & -> & L).
  destruct cs as [|r [|g [|b rest]]]; cbn [length] in L; try lia. reflexivity.
Qed.

(** C4: when every pixel has at least 3 channels, the analysis succeeds and
    [total_pixels] is the number of coordinates [(x, y)] of the window
    [w//2 - 50 <= x < w//2 + 50], [h//2 - 50 <= y < h//2 + 50] that lie in
    the image; that is [min(w, 100) * min(h, 100)], so an image smaller than
    the window gives its own area. *)
Theorem total_pixels_is_clipped_window
    (w : World) (filepath : string) (img : PIL.Image) :
  Image_open w filepath = Ok img →
  channels_at_least 3 img →
  ∃ s, analyze_image w filepath = Ok (Stats s)
    ∧ (∀ coords : gset (Z * Z),
         (∀ x y, (x, y) ∈ coords ↔ in_sample_window img x y) →
         rec_total_pixels s = Z.of_nat (size coords))
    ∧ rec_total_pixels s
      = Z.max 0 (Z.min (PIL.size img).1 100) * Z.max 0 (Z.min (PIL.size img).2 100).
Proof.
  intros Ho Hc. eexists. split.
  - apply (analyze_image_ok w filepath img Ho).
    intros x y Hw. destruct (Hc x y (in_sample_window_in_image img x y Hw)) as (cs & E & _).
    exists cs. exact E.
  - cbn [summary rec_total_pixels].
    rewrite sampled_total_pixels, (sampled_length_full img Hc). split.
    + intros coords H. rewrite (window_size img coords H). reflexivity.
    + rewrite window_length, Nat2Z.inj_mul. f_equal; lia.
Qed.

Lemma total_pixels_is_clipped_window_witness :
  ∃ s, analyze_image (opens_as (uniform 10 10 (PIL.Bands [0; 0; 255])))
         "zoom_Global_Full_+0000ft.png" = Ok (Stats s)
    ∧ (∀ coords : gset (Z * Z),
         (∀ x y, (x, y) ∈ coords
                 ↔ in_sample_window (uniform 10 10 (PIL.Bands [0; 0; 255])) x y) →
         rec_total_pixels s = Z.of_nat (size coords))
    ∧ rec_total_pixels s = 100.
Proof.
  apply (total_pixels_is_clipped_window
           (opens_as (uniform 10 10 (PIL.Bands [0; 0; 255])))
           "zoom_Global_Full_+0000ft.png"
           (uniform 10 10 (PIL.Bands [0; 0; 255]))).
  - reflexivity.
  - intros x y _. exists [0; 0; 255]. split; [reflexivity | simpl; lia].
Defined.

(** A tuple with fewer than 3 channels is skipped: the visit changes no
    counter and raises nothing. *)
Lemma short_tuple_skipped (img : PIL.Image) (x y : Z) (cs : list Z) (st : locals) :
  PIL.getpixel img (x, y) = PIL.Bands cs → (length cs < 3)%nat →
  visit img x y st = Ok st.
Proof.
  intros Hp L. pose proof (visit_cases img (x, y) st) as V. cbn [fst snd] in V.
  rewrite V, Hp. destruct (in_bounds img (x, y)); [|reflexivity].
  destruct cs as [|r [|g [|b rest]]]; cbn [length] in L; try lia; reflexivity.
Qed.

(** An image of tuples is analysed without error, whatever the number of
    channels; only the pixels with at least 3 channels are counted. *)
Lemma tuples_analysed (w : World) (filepath : string) (img : PIL.Image) :
  Image_open w filepath = Ok img →
  channels_at_least 0 img →
  ∃ s, analyze_image w filepath = Ok (Stats s)
    ∧ rec_total_pixels s = Z.of_nat (length (sampled img)).
Proof.
  intros Ho Hc. eexists. split.
  - apply (analyze_image_ok w filepath img Ho).
    intros x y Hw. destruct (Hc x y (in_sample_window_in_image img x y Hw)) as (cs & E & _).
    exists cs. exact E.
  - cbn [summary rec_total_pixels]. apply sampled_total_pixels.
Qed.

(** C8: on a single-band image (a grayscale PNG, say) [getpixel] returns a
    number, [len(pixel)] raises, and the analysis is an error record: the
    pixels with fewer than 3 channels are not skipped. *)
Theorem single_band_pixel_is_an_error :
  analyze_image (opens_as (uniform 1 1 (PIL.Band 128))) "zoom_Global_Full_+0000ft.png"
  = Ok (Error "object of type 'int' has no len()").
Proof. vm_compute. reflexivity. Qed.

(** *** The channel sums *)

Lemma sampled_eight_bit (img : PIL.Image) :
  eight_bit img → List.Forall eight_bit_pixel (sampled img).
Proof.
  intros H. apply List.Forall_forall. intros p Hp.
  apply in_flat_map in Hp. destruct Hp as ([x y] & Hw & Hp).
  apply in_window, in_sample_window_in_image in Hw.
  destruct (PIL.getpixel img (x, y)) as [v | cs] eqn:E; [destruct Hp|].
  pose proof (H x y cs Hw E) as F.
  destruct cs as [|r [|g [|b rest]]]; cbn [counted In] in Hp; try contradiction.
  destruct Hp as [<- | []].
  apply Forall_cons in F as [Hr F]. apply Forall_cons in F as [Hg F].
  apply Forall_cons in F as [Hb _].
  unfold eight_bit_pixel, red, green, blue. cbn [fst snd]. tauto.
Qed.

Lemma total_bounded (channel : rgb → Z) (ps : list rgb) :
  List.Forall (λ p, 0 <= channel p <= 255) ps →
  0 <= total (map channel ps) <= 255 * Z.of_nat (length ps).
Proof.
  induction 1 as [|p ps Hp _ IH]; cbn [map total fold_right length]; [lia|].
  fold (total (map channel ps)). lia.
Qed.

Lemma rne_nearest (q : Q) : nearest_integer q (rne q).
Proof. apply rne_spec. Qed.

(** Rounding the float mean of a channel gives the integer nearest to the
    exact mean. *)
Lemma round_channel_mean (channel : rgb → Z) (ps : list rgb) :
  List.Forall (λ p, 0 <= channel p <= 255) ps →
  0 < Z.of_nat (length ps) <= 10000 →
  PyFloat.round
    (quotient_or (total (map channel ps)) (Z.of_nat (length ps))
       (inject_Z (total (map channel ps))))
  = rne (mean channel ps).
Proof.
  intros F L. unfold quotient_or, PyFloat.round, mean.
  destruct (Z.ltb_spec 0 (Z.of_nat (length ps))); [|lia].
  apply round_mean; [apply total_bounded; assumption | assumption].
Qed.

(** C9: [avg_color] holds, for each channel, the exact mean of the channel
    over the sampled pixels rounded to the nearest integer (ties to even). *)
Theorem avg_color_is_rounded_mean
    (w : World) (filepath : string) (img : PIL.Image) (s : stats) :
  Image_open w filepath = Ok img →
  eight_bit img →
  analyze_image w filepath = Ok (Stats s) →
  0 < rec_total_pixels s →
  rec_total_pixels s = Z.of_nat (length (sampled img))
  ∧ rec_avg_color s
    = (rne (mean red (sampled img)),
       rne (mean green (sampled img)),
       rne (mean blue (sampled img)))
  ∧ nearest_integer (mean red (sampled img)) (rec_avg_color s).1.1
  ∧ nearest_integer (mean green (sampled img)) (rec_avg_color s).1.2
  ∧ nearest_integer (mean blue (sampled img)) (rec_avg_color s).2.
Proof.
  intros Ho H8 H T. destruct (analyze_image_inv _ _ _ H) as (img' & Ho' & ->).
  assert (img' = img) as -> by congruence.
  pose proof (sampled_total_bound img) as TB.
  pose proof (sampled_eight_bit img H8) as F.
  cbn [summary rec_total_pixels rec_avg_color] in *.
  rewrite tally_avg_r, tally_avg_g, tally_avg_b, sampled_total_pixels in *.
  cbn [initial avg_r avg_g avg_b]. rewrite !Z.add_0_l.
  assert (E : rec_avg_color (summary (tally (sampled img) initial))
              = (rne (mean red (sampled img)), rne (mean green (sampled img)),
                 rne (mean blue (sampled img)))).
  { cbn [summary rec_avg_color].
    rewrite tally_avg_r, tally_avg_g, tally_avg_b, sampled_total_pixels.
    cbn [initial avg_r avg_g avg_b]. rewrite !Z.add_0_l.
    rewrite !round_channel_mean; try lia; try reflexivity.
    - eapply List.Forall_impl; [|exact F]. intros p (_ & _ & Hb). exact Hb.
    - eapply List.Forall_impl; [|exact F]. intros p (_ & Hg & _). exact Hg.
    - eapply List.Forall_impl; [|exact F]. intros p (Hr & _ & _). exact Hr. }
  cbn [summary rec_avg_color] in E.
  rewrite tally_avg_r, tally_avg_g, tally_avg_b, sampled_total_pixels in E.
  cbn [initial avg_r avg_g avg_b] in E. rewrite !Z.add_0_l in E.
  split; [reflexivity|]. rewrite E. cbn [fst snd].
  repeat split; try apply rne_spec.
Qed.


Lemma blue_corner_eight_bit : eight_bit blue_corner.
Proof.
  intros x y cs _ E. cbn [blue_corner PIL.getpixel] in E.
  destruct ((x <? 4) || (x =? 4) && (y <? 5)); injection E as <-;
    repeat constructor; lia.
Qed.

Lemma avg_color_is_rounded_mean_witness :
  2009 = Z.of_nat (length (sampled blue_corner))
  ∧ (0, 0, 26)
    = (rne (mean red (sampled blue_corner)),
       rne (mean green (sampled blue_corner)),
       rne (mean blue (sampled blue_corner)))
  ∧ nearest_integer (mean red (sampled blue_corner)) 0
  ∧ nearest_integer (mean green (sampled blue_corner)) 0
  ∧ nearest_integer (mean blue (sampled blue_corner)) 26.
Proof.
  apply (avg_color_is_rounded_mean (opens_as blue_corner) "zoom_Global_Full_+0000ft.png"
           blue_corner
           {| rec_blue_pixels := 201; rec_total_pixels := 2009;
              rec_blue_ratio := lit_0_1; rec_avg_color := (0, 0, 26);
              rec_has_flooding := true |}).
  - reflexivity.
  - exact blue_corner_eight_bit.
  - vm_compute. reflexivity.
  - reflexivity.
Defined.

End Sampling.

(** ** The batch *)
Section Batch.
Context (w : World).

(** C6: the file names of the specification parse as it says. *)
Theorem filename_examples :
  parse_zoom "zoom_Global_Full_+0000ft.png" = Ok ("Global_Full"%string, 0)
  ∧ parse_zoom "zoom_Local_Coast_-00100ft.png" = Ok ("Local_Coast"%string, -100)
  ∧ parse_elevation "elevation_-00050ft.png" = Ok (-50)
  ∧ parse_elevation "elevation_+00000ft.png" = Ok 0.
Proof. split; [|split; [|split]]; vm_compute; reflexivity. Qed.

(** Names that do not follow the conventions: a zoom name without an
    elevation part has no [parts[1]]; [int] accepts an underscore between
    digits and surrounding blanks; a lone sign is not a number. *)
Example names_out_of_convention :
  parse_zoom "zoom_x.png" = Raise "list index out of range"
  ∧ parse_elevation "elevation_1_0ft.png" = Ok 10
  ∧ parse_elevation "elevation_ 7ft.png" = Ok 7
  ∧ parse_elevation "elevation_-ft.png" = Ok 0
  ∧ parse_zoom "zoom_A_-ft.png"
    = Raise "invalid literal for int() with base 10: '-'".
Proof. split; [|split; [|split; [|split]]]; vm_compute; reflexivity. Qed.

Lemma analyze_image_analysis_of (filename : string) :
  analyze_image w (path_join (SCREENSHOT_DIR w) filename) = Ok (analysis_of w filename).
Proof.
  unfold analysis_of.
  destruct (analyze_image_returns w (path_join (SCREENSHOT_DIR w) filename)) as [a ->].
  reflexivity.
Qed.

Lemma analysis_of_corrupt (filename text : string) :
  corrupt w filename text → analysis_of w filename = Error text.
Proof.
  intros H. unfold analysis_of. rewrite (analyze_image_open_error _ _ _ H). reflexivity.
Qed.

Lemma analysis_of_valid (filename : string) :
  valid_image w filename → ∃ s, analysis_of w filename = Stats s.
Proof.
  intros (img & Ho & Hc). destruct (tuples_analysed _ _ _ Ho Hc) as (s & A & _).
  exists s. unfold analysis_of. rewrite A. reflexivity.
Qed.

(** *** Selection *)

Lemma selected_In (prefix f : string) :
  In f (selected w prefix) ↔ In f (listdir w) ∧ PyStr.startswith f prefix = true.
Proof.
  unfold selected, PyStr.sorted.
  pose proof (merge_sort_Permutation PyStr.str_le
                (List.filter (λ f, PyStr.startswith f prefix) (listdir w))) as P.
  rewrite <- (filter_In (λ f, PyStr.startswith f prefix)).
  split; apply Permutation_in; [exact P | symmetry; exact P].
Qed.

Lemma selected_length (prefix : string) :
  length (selected w prefix)
  = length (List.filter (λ f, PyStr.startswith f prefix) (listdir w)).
Proof.
  unfold selected, PyStr.sorted. apply Permutation_length, merge_sort_Permutation.
Qed.

Lemma selected_nil (prefix : string) :
  (∀ f, In f (listdir w) → PyStr.startswith f prefix = false) →
  selected w prefix = [].
Proof.
  intros H. destruct (selected w prefix) as [|f l] eqn:E; [reflexivity|exfalso].
  assert (Hf : In f (selected w prefix)) by (rewrite E; left; reflexivity).
  apply selected_In in Hf. destruct Hf as [Hin Hp]. rewrite (H f Hin) in Hp. discriminate.
Qed.

Lemma main_zoom :
  selected w "zoom_" ≠ [] → main w = zoom_mode w (selected w "zoom_").
Proof.
  intros H. unfold main. fold (selected w "zoom_").
  destruct (selected w "zoom_"); [contradiction | reflexivity].
Qed.

Lemma main_elevation :
  selected w "zoom_" = [] → selected w "elevation_" ≠ [] →
  main w = elevation_mode w (selected w "elevation_").
Proof.
  intros Hz H. unfold main. fold (selected w "zoom_") (selected w "elevation_").
  rewrite Hz. destruct (selected w "elevation_"); [contradiction | reflexivity].
Qed.

Lemma main_empty :
  selected w "zoom_" = [] → selected w "elevation_" = [] →
  main w = Ok {| printed := [NoScreenshots "No screenshots found!"];
                 written := None;
                 returned := ElevationResults ∅ |}.
Proof.
  intros Hz He. unfold main. fold (selected w "zoom_") (selected w "elevation_").
  rewrite Hz, He. reflexivity.
Qed.

(** *** The zoom loop *)

Lemma zoom_step_row (filename : string) (rows : list row) (out : list line) :
  ∀ st', zoom_step w filename (rows, out) = Ok st' →
    ∃ r, zoom_row w filename = Ok r ∧ st'.1 = rows ++ [r].
Proof.
  intros st'. unfold zoom_step, zoom_row.
  rewrite analyze_image_analysis_of. cbn [mbind result_bind].
  destruct (parse_zoom filename) as [[name level] | e]; [|discriminate].
  cbn [mbind result_bind]. intros H. eexists. split; [reflexivity|].
  destruct (analysis_of w filename); injection H as <-; reflexivity.
Qed.

Lemma zoom_step_ok (filename : string) (rows : list row) (out : list line)
    (r : row) :
  zoom_row w filename = Ok r →
  ∃ out', zoom_step w filename (rows, out) = Ok (rows ++ [r], out').
Proof.
  unfold zoom_step, zoom_row. rewrite analyze_image_analysis_of. cbn [mbind result_bind].
  destruct (parse_zoom filename) as [[name level] | e]; [|discriminate].
  cbn [mbind result_bind]. intros H. injection H as <-. cbn [row_analysis].
  destruct (analysis_of w filename); eexists; reflexivity.
Qed.

(** If the loop ends normally, it has appended one row per file, in order. *)
Lemma zoom_loop_inv (files : list string) (st st' : list row * list line) :
  for_each files (zoom_step w) st = Ok st' →
  ∃ rows, st'.1 = st.1 ++ rows ∧ Forall2 (λ f r, zoom_row w f = Ok r) files rows.
Proof.
  revert st. induction files as [|f files IH]; intros [rows out] H.
  - injection H as <-. exists []. split; [symmetry; apply app_nil_r | constructor].
  - cbn [for_each] in H.
    destruct (zoom_step w f (rows, out)) as [st1 | e] eqn:S; [|discriminate].
    cbn [mbind result_bind] in H.
    destruct (zoom_step_row f rows out st1 S) as (r & Hr & E1).
    destruct (IH st1 H) as (rs & E & F). exists (r :: rs). split.
    + rewrite E, E1, <- app_assoc. reflexivity.
    + constructor; assumption.
Qed.

(** The loop ends normally when every name parses. *)
Lemma zoom_loop_ok (files : list string) (st : list row * list line) :
  (∀ f, In f files → ∃ v, parse_zoom f = Ok v) →
  ∃ st', for_each files (zoom_step w) st = Ok st'.
Proof.
  revert st. induction files as [|f files IH]; intros [rows out] H.
  - eexists. reflexivity.
  - destruct (H f (or_introl eq_refl)) as [[name level] P].
    assert (R : zoom_row w f = Ok {| test_name := name; water_level_ft := level;
                                     row_analysis := analysis_of w f |}).
    { unfold zoom_row. rewrite P. reflexivity. }
    destruct (zoom_step_ok f rows out _ R) as [out' S].
    cbn [for_each]. rewrite S. cbn [mbind result_bind]. apply IH.
    intros g Hg. apply H. right. assumption.
Qed.

Lemma zoom_mode_inv (files : list string) (r : run) :
  zoom_mode w files = Ok r →
  ∃ rows, returned r = ZoomResults rows
          ∧ written r = Some (path_join (SCREENSHOT_DIR w) "zoom_analysis.json",
                              ZoomResults rows)
          ∧ Forall2 (λ f row, zoom_row w f = Ok row) files rows.
Proof.
  unfold zoom_mode. intros H.
  destruct (for_each files (zoom_step w) _) as [[rows out] | e] eqn:L; [|discriminate].
  cbn [mbind result_bind] in H. injection H as <-.
  destruct (zoom_loop_inv files _ _ L) as (rs & E & F). cbn [fst] in E. subst rows.
  exists rs. cbn [returned written app]. auto.
Qed.

Lemma zoom_mode_ok (files : list string) :
  (∀ f, In f files → ∃ v, parse_zoom f = Ok v) →
  ∃ r, zoom_mode w files = Ok r.
Proof.
  intros H. unfold zoom_mode.
  destruct (zoom_loop_ok files
              ([], [AnalyzingZoom (length files); ZoomHeader; Rule 65]) H) as [[rows out] ->].
  eexists. reflexivity.
Qed.


Lemma zoom_row_inv (filename : string) (r : row) :
  zoom_row w filename = Ok r →
  parse_zoom filename = Ok (test_name r, water_level_ft r)
  ∧ analyze_image w (path_join (SCREENSHOT_DIR w) filename) = Ok (row_analysis r).
Proof.
  unfold zoom_row. destruct (parse_zoom filename) as [[name level] | e]; [|discriminate].
  cbn [mbind result_bind]. intros H. injection H as <-. cbn [test_name water_level_ft row_analysis].
  split; [reflexivity | apply analyze_image_analysis_of].
Qed.

(** *** The elevation loop *)

Lemma elevation_step_inv (filename : string)
    (m : gmap Z analysis) (out : list line) (st' : gmap Z analysis * list line) :
  elevation_step w filename (m, out) = Ok st' →
  ∃ k, parse_elevation filename = Ok k ∧ st'.1 = <[k := analysis_of w filename]> m.
Proof.
  unfold elevation_step. rewrite analyze_image_analysis_of. cbn [mbind result_bind].
  destruct (parse_elevation filename) as [k | e]; [|discriminate].
  cbn [mbind result_bind]. intros H. exists k. split; [reflexivity|].
  destruct (analysis_of w filename); injection H as <-; reflexivity.
Qed.

Lemma elevation_step_ok (filename : string)
    (m : gmap Z analysis) (out : list line) (k : Z) :
  parse_elevation filename = Ok k →
  ∃ out', elevation_step w filename (m, out) = Ok (<[k := analysis_of w filename]> m, out').
Proof.
  intros P. unfold elevation_step. rewrite analyze_image_analysis_of, P.
  cbn [mbind result_bind]. destruct (analysis_of w filename); eexists; reflexivity.
Qed.

(** If the loop ends normally, every name parsed and the files were entered
    in order, each under its elevation. *)
Lemma elevation_loop_inv (files : list string)
    (st st' : gmap Z analysis * list line) :
  for_each files (elevation_step w) st = Ok st' →
  ∃ fks, map fst fks = files
         ∧ List.Forall (λ fk, parse_elevation fk.1 = Ok fk.2) fks
         ∧ st'.1 = entered w fks st.1.
Proof.
  revert st. induction files as [|f files IH]; intros [m out] H.
  - injection H as <-. exists []. repeat split. constructor.
  - cbn [for_each] in H.
    destruct (elevation_step w f (m, out)) as [st1 | e] eqn:S; [|discriminate].
    cbn [mbind result_bind] in H.
    destruct (elevation_step_inv f m out st1 S) as (k & P & E1).
    destruct (IH st1 H) as (fks & Hm & F & E). exists ((f, k) :: fks).
    split; [cbn [map fst]; congruence|]. split; [constructor; assumption|].
    rewrite E, E1. reflexivity.
Qed.

Lemma elevation_loop_ok (files : list string)
    (st : gmap Z analysis * list line) :
  (∀ f, In f files → ∃ k, parse_elevation f = Ok k) →
  ∃ st', for_each files (elevation_step w) st = Ok st'.
Proof.
  revert st. induction files as [|f files IH]; intros [m out] H.
  - eexists. reflexivity.
  - destruct (H f (or_introl eq_refl)) as [k P].
    destruct (elevation_step_ok f m out k P) as [out' S].
    cbn [for_each]. rewrite S. cbn [mbind result_bind]. apply IH.
    intros g Hg. apply H. right. assumption.
Qed.

Lemma elevation_mode_inv (files : list string) (r : run) :
  elevation_mode w files = Ok r →
  ∃ fks, returned r = ElevationResults (entered w fks ∅)
         ∧ written r = Some (path_join (SCREENSHOT_DIR w) "analysis_results.json",
                             ElevationResults (entered w fks ∅))
         ∧ map fst fks = files
         ∧ List.Forall (λ fk, parse_elevation fk.1 = Ok fk.2) fks.
Proof.
  unfold elevation_mode. intros H.
  destruct (for_each files (elevation_step w) _) as [[m out] | e] eqn:L; [|discriminate].
  cbn [mbind result_bind] in H. injection H as <-.
  destruct (elevation_loop_inv files _ _ L) as (fks & Hm & F & E). cbn [fst] in E. subst m.
  exists fks. cbn [returned written]. auto.
Qed.

Lemma elevation_mode_ok (files : list string) :
  (∀ f, In f files → ∃ k, parse_elevation f = Ok k) →
  ∃ r, elevation_mode w files = Ok r.
Proof.
  intros H. unfold elevation_mode.
  destruct (elevation_loop_ok files
              (∅, [AnalyzingElevation (length files); ElevationHeader; Rule 60]) H)
    as [[m out] ->].
  eexists. reflexivity.
Qed.

Lemma entered_app (l1 l2 : list (string * Z)) (m : gmap Z analysis) :
  entered w (l1 ++ l2) m = entered w l2 (entered w l1 m).
Proof. apply fold_left_app. Qed.

Lemma entered_other_keys (l : list (string * Z)) (m : gmap Z analysis) (k : Z) :
  (∀ fk, In fk l → fk.2 ≠ k) → entered w l m !! k = m !! k.
Proof.
  revert m. induction l as [|[g j] l IH]; intros m H; [reflexivity|].
  change (entered w ((g, j) :: l) m) with (entered w l (<[j := analysis_of w g]> m)).
  rewrite IH by (intros fk Hfk; apply H; right; assumption).
  apply lookup_insert_ne. apply (H (g, j)). left. reflexivity.
Qed.

(** The entry of an elevation is that of the last file entered under it. *)
Lemma entered_last (l1 l2 : list (string * Z)) (f : string) (k : Z)
    (m : gmap Z analysis) :
  (∀ fk, In fk l2 → fk.2 ≠ k) →
  entered w (l1 ++ (f, k) :: l2) m !! k = Some (analysis_of w f).
Proof.
  intros H. rewrite entered_app.
  change (entered w ((f, k) :: l2) (entered w l1 m))
    with (entered w l2 (<[k := analysis_of w f]> (entered w l1 m))).
  rewrite (entered_other_keys l2 _ k H). apply lookup_insert_eq.
Qed.

Lemma parsed_split (fks : list (string * Z)) (l1 l2 : list string) (f : string) (k : Z) :
  map fst fks = l1 ++ f :: l2 →
  List.Forall (λ fk, parse_elevation fk.1 = Ok fk.2) fks →
  parse_elevation f = Ok k →
  (∀ g, In g l2 → parse_elevation g ≠ Ok k) →
  ∃ fks1 fks2, fks = fks1 ++ (f, k) :: fks2 ∧ ∀ fk, In fk fks2 → fk.2 ≠ k.
Proof.
  intros Hm F P N. apply map_eq_app in Hm. destruct Hm as (fks1 & rest & -> & H1 & H2).
  apply map_eq_cons in H2. destruct H2 as ([f' k'] & fks2 & -> & Hf & H2).
  cbn [fst] in Hf. subst f'.
  apply List.Forall_app in F. destruct F as [_ F].
  apply List.Forall_cons_iff in F. destruct F as [Pk F]. cbn [fst snd] in Pk.
  assert (k' = k) as -> by congruence.
  exists fks1, fks2. split; [reflexivity|].
  intros [g j] Hg E. cbn [snd] in E. subst j.
  rewrite List.Forall_forall in F. pose proof (F _ Hg) as Pg. cbn [fst snd] in Pg.
  apply (N g); [|assumption]. rewrite <- H2. apply (in_map fst _ _ Hg).
Qed.

End Batch.

(** ** The two modes *)
Section Modes.

Lemma selected_not_nil (w : World) (prefix : string) :
  (∃ f, In f (listdir w) ∧ PyStr.startswith f prefix = true) → selected w prefix ≠ [].
Proof.
  intros (f & Hin & Hp) E.
  assert (Hf : In f (selected w prefix)) by (apply selected_In; split; assumption).
  rewrite E in Hf. destruct Hf.
Qed.

(** C7: as soon as a name of the directory starts with "zoom_", [main] runs
    the zoom mode on the zoom files alone, whatever else the directory
    holds; when no name starts with "zoom_" or "elevation_", it prints
    "No screenshots found!", returns an empty dictionary and writes no
    file. *)
Theorem mode_selection (w : World) :
  ((∃ f, In f (listdir w) ∧ PyStr.startswith f "zoom_" = true) →
   main w = zoom_mode w (selected w "zoom_")
   ∧ ∀ r, main w = Ok r →
       ∃ rows, returned r = ZoomResults rows
         ∧ written r = Some (path_join (SCREENSHOT_DIR w) "zoom_analysis.json",
                             ZoomResults rows)
         ∧ Forall2 (λ f row, zoom_row w f = Ok row) (selected w "zoom_") rows)
  ∧ ((∀ f, In f (listdir w) →
        PyStr.startswith f "zoom_" = false ∧ PyStr.startswith f "elevation_" = false) →
     main w = Ok {| printed := [NoScreenshots "No screenshots found!"];
                    written := None;
                    returned := ElevationResults ∅ |}).
Proof.
  split.
  - intros H. pose proof (main_zoom w (selected_not_nil w _ H)) as M.
    split; [exact M|]. intros r Hr. rewrite M in Hr. apply zoom_mode_inv. exact Hr.
  - intros H. apply main_empty; apply selected_nil; intros f Hf; apply (H f Hf).
Qed.

Lemma mode_selection_witness :
  (main zoom_and_elevation = zoom_mode zoom_and_elevation (selected zoom_and_elevation "zoom_")
   ∧ ∀ r, main zoom_and_elevation = Ok r →
       ∃ rows, returned r = ZoomResults rows
         ∧ written r = Some ("test_screenshots/zoom_analysis.json"%string, ZoomResults rows)
         ∧ Forall2 (λ f row, zoom_row zoom_and_elevation f = Ok row)
                   (selected zoom_and_elevation "zoom_") rows)
  ∧ main no_screenshots = Ok {| printed := [NoScreenshots "No screenshots found!"];
                                written := None;
                                returned := ElevationResults ∅ |}.
Proof.
  split.
  - apply (proj1 (mode_selection zoom_and_elevation)).
    exists "zoom_Global_Full_+0000ft.png"%string. split; [|reflexivity].
    right. right. left. reflexivity.
  - apply (proj2 (mode_selection no_screenshots)).
    intros f [<- | [<- | []]]; split; reflexivity.
Defined.

(** C3, as the code has it.  [analyze_image] returns a dictionary for every
    path, the error dictionary with the text of the failure when the file
    does not open, statistics when it is an image of tuples.  When the
    selected names parse, the batch completes and writes its summary: in
    zoom mode one row per file, in order, holding the analysis of that
    file; in elevation mode a dictionary in which each elevation holds the
    analysis of the last file, in sorted order, that parses to it. *)
Theorem batch_with_corrupt_file (w : World) :
  (∀ filepath,
     ∃ a, analyze_image w filepath = Ok a
       ∧ (∀ e, Image_open w filepath = Raise e → a = Error e)
       ∧ (∀ img, Image_open w filepath = Ok img → channels_at_least 0 img →
                 ∃ s, a = Stats s))
  ∧ (selected w "zoom_" ≠ [] →
     (∀ f, In f (selected w "zoom_") → ∃ v, parse_zoom f = Ok v) →
     ∃ r rows,
       main w = Ok r
       ∧ returned r = ZoomResults rows
       ∧ written r = Some (path_join (SCREENSHOT_DIR w) "zoom_analysis.json",
                           ZoomResults rows)
       ∧ Forall2 (λ f row,
                    analyze_image w (path_join (SCREENSHOT_DIR w) f)
                    = Ok (row_analysis row))
                 (selected w "zoom_") rows)
  ∧ (selected w "zoom_" = [] → selected w "elevation_" ≠ [] →
     (∀ f, In f (selected w "elevation_") → ∃ k, parse_elevation f = Ok k) →
     ∃ r m,
       main w = Ok r
       ∧ returned r = ElevationResults m
       ∧ written r = Some (path_join (SCREENSHOT_DIR w) "analysis_results.json",
                           ElevationResults m)
       ∧ ∀ l1 f l2 k,
           selected w "elevation_" = l1 ++ f :: l2 →
           parse_elevation f = Ok k →
           (∀ g, In g l2 → parse_elevation g ≠ Ok k) →
           ∃ a, analyze_image w (path_join (SCREENSHOT_DIR w) f) = Ok a
                ∧ m !! k = Some a).
Proof.
  split; [|split].
  - intros filepath. destruct (analyze_image_returns w filepath) as [a A].
    exists a. split; [exact A|]. split.
    + intros e He. rewrite (analyze_image_open_error w filepath e He) in A. congruence.
    + intros img Ho Hc. destruct (tuples_analysed w filepath img Ho Hc) as (s & S & _).
      exists s. congruence.
  - intros Hz Hp. destruct (zoom_mode_ok w _ Hp) as [r R].
    destruct (zoom_mode_inv w _ r R) as (rows & Hret & Hw & F).
    exists r, rows. rewrite (main_zoom w Hz). repeat split; try assumption.
    eapply Forall2_impl; [exact F|]. intros f row Hr. apply (zoom_row_inv w f row Hr).
  - intros Hz He Hp. destruct (elevation_mode_ok w _ Hp) as [r R].
    destruct (elevation_mode_inv w _ r R) as (fks & Hret & Hw & Hm & F).
    exists r, (entered w fks ∅). rewrite (main_elevation w Hz He).
    repeat split; try assumption.
    intros l1 f l2 k Hs P N. rewrite Hs in Hm.
    destruct (parsed_split fks l1 l2 f k Hm F P N) as (fks1 & fks2 & -> & N').
    exists (analysis_of w f). split; [apply analyze_image_analysis_of|].
    apply entered_last. exact N'.
Qed.


Lemma batch_with_corrupt_file_witness :
  (∃ r rows,
     main zoom_and_elevation = Ok r
     ∧ returned r = ZoomResults rows
     ∧ written r = Some ("test_screenshots/zoom_analysis.json"%string, ZoomResults rows)
     ∧ Forall2 (λ f row,
                  analyze_image zoom_and_elevation (path_join "test_screenshots" f)
                  = Ok (row_analysis row))
               (selected zoom_and_elevation "zoom_") rows)
  ∧ (∃ r m,
       main elevations_only = Ok r
       ∧ returned r = ElevationResults m
       ∧ written r = Some ("test_screenshots/analysis_results.json"%string,
                           ElevationResults m)
       ∧ ∀ l1 f l2 k,
           selected elevations_only "elevation_" = l1 ++ f :: l2 →
           parse_elevation f = Ok k →
           (∀ g, In g l2 → parse_elevation g ≠ Ok k) →
           ∃ a, analyze_image elevations_only (path_join "test_screenshots" f) = Ok a
                ∧ m !! k = Some a).
Proof.
  split.
  - apply (proj1 (proj2 (batch_with_corrupt_file zoom_and_elevation))).
    + vm_compute. discriminate.
    + intros f H. vm_compute in H.
      destruct H as [<- | [<- | []]]; eexists; vm_compute; reflexivity.
  - apply (proj2 (proj2 (batch_with_corrupt_file elevations_only))).
    + vm_compute. reflexivity.
    + vm_compute. discriminate.
    + intros f H. vm_compute in H.
      destruct H as [<- | [<- | []]]; eexists; vm_compute; reflexivity.
Defined.

(** The zoom batch on a directory with a file that is not an image: an
    error row for that file, a row of statistics for the other. *)
Example zoom_batch_rows :
  ∃ r s,
    main zoom_and_elevation = Ok r
    ∧ returned r
      = ZoomResults
          [ {| test_name := "Global_Full"; water_level_ft := 0;
               row_analysis := Error "cannot identify image file" |};
            {| test_name := "Local_Coast"; water_level_ft := -100;
               row_analysis := Stats s |} ].
Proof. eexists. eexists. split; vm_compute; reflexivity. Qed.

(** C3 as stated fails in elevation mode: two names that parse to the same
    elevation share one entry.  Here the file that is not an image comes
    first in sorted order, and the summary written holds no error entry. *)
Lemma corrupt_file_row_overwritten :
  ∃ r m,
    main same_elevation_twice = Ok r
    ∧ returned r = ElevationResults m
    ∧ written r = Some ("test_screenshots/analysis_results.json"%string,
                        ElevationResults m)
    ∧ selected same_elevation_twice "elevation_"
      = ["elevation_+00000ft.png"%string; "elevation_-00000ft.png"%string]
    ∧ corrupt same_elevation_twice "elevation_+00000ft.png" "cannot identify image file"
    ∧ valid_image same_elevation_twice "elevation_-00000ft.png"
    ∧ ∀ k e, m !! k ≠ Some (Error e).
Proof.
  pose (s := {| rec_blue_pixels := 100; rec_total_pixels := 100;
                rec_blue_ratio := 1%Q; rec_avg_color := (0, 0, 255);
                rec_has_flooding := true |}).
  assert (M : main same_elevation_twice
              = Ok {| printed :=
                        [AnalyzingElevation 2; ElevationHeader; Rule 60;
                         ElevationError 0 "cannot identify image file";
                         ElevationRow 0 1%Q (0, 0, 255) "YES"; Rule 60;
                         Saved "test_screenshots/analysis_results.json"];
                      written := Some ("test_screenshots/analysis_results.json"%string,
                                       ElevationResults {[ 0 := Stats s ]});
                      returned := ElevationResults {[ 0 := Stats s ]} |})
    by (vm_compute; reflexivity).
  eexists. exists {[ 0 := Stats s ]}. split; [exact M|].
  split; [reflexivity|]. split; [reflexivity|]. split; [vm_compute; reflexivity|].
  split; [reflexivity|]. split.
  - eexists. split; [reflexivity|]. intros x y _. eexists. split; [reflexivity|]. simpl. lia.
  - intros k e. destruct (decide (k = 0)) as [-> | N].
    + rewrite lookup_singleton_eq. discriminate.
    + rewrite lookup_singleton_ne by congruence. discriminate.
Qed.

End Modes.

(** ** What the analysis reads *)
Section Reading.
Import PyFloat.

Lemma visit_same (img1 img2 : PIL.Image) (c : Z * Z) (st : locals) :
  in_bounds img1 c = in_bounds img2 c →
  (in_bounds img1 c = true →
   read_of (PIL.getpixel img1 c) = read_of (PIL.getpixel img2 c)) →
  visit img1 c.1 c.2 st = visit img2 c.1 c.2 st.
Proof.
  intros Hb Hr. rewrite !visit_cases, <- Hb.
  destruct (in_bounds img1 c); [|reflexivity]. specialize (Hr eq_refl).
  destruct (PIL.getpixel img1 c) as [v1 | cs1], (PIL.getpixel img2 c) as [v2 | cs2];
    unfold read_of in Hr; try discriminate; [reflexivity|].
  assert (E : counted (PIL.Bands cs1) = counted (PIL.Bands cs2)) by congruence.
  rewrite E. reflexivity.
Qed.

Lemma scan_same (img1 img2 : PIL.Image) (cs : list (Z * Z)) (st : locals) :
  (∀ c, In c cs → in_bounds img1 c = in_bounds img2 c) →
  (∀ c, In c cs → in_bounds img1 c = true →
        read_of (PIL.getpixel img1 c) = read_of (PIL.getpixel img2 c)) →
  for_each cs (λ c st, visit img1 c.1 c.2 st) st
  = for_each cs (λ c st, visit img2 c.1 c.2 st) st.
Proof.
  revert st. induction cs as [|c cs IH]; intros st Hb Hr; [reflexivity|].
  cbn [for_each].
  rewrite (visit_same img1 img2 c st (Hb c (or_introl eq_refl)) (Hr c (or_introl eq_refl))).
  destruct (visit img2 c.1 c.2 st) as [st' | e]; [|reflexivity].
  cbn [mbind result_bind]. apply IH; intros d Hd; [apply Hb | apply Hr]; right; assumption.
Qed.

Lemma sample_same (img1 img2 : PIL.Image) :
  same_sample img1 img2 → sample img1 = sample img2.
Proof.
  intros [Hs Hp]. rewrite !sample_scanned.
  assert (Hc : scanned img1 = scanned img2) by (unfold scanned; rewrite Hs; reflexivity).
  assert (Hb : ∀ c, in_bounds img1 c = in_bounds img2 c)
    by (intros c; unfold in_bounds; rewrite Hs; reflexivity).
  rewrite <- Hc. apply scan_same.
  - intros c _. apply Hb.
  - intros [x y] Hin B. apply Hp, in_window. unfold window.
    apply filter_In. split; assumption.
Qed.

(** The analysis reads nothing but the size and the first three channels of
    the pixels of the sample window: the pixels outside the window, the
    alpha channel and the file it came from do not matter. *)
Theorem analysis_reads_only_the_window
    (w1 w2 : World) (path1 path2 : string) (img1 img2 : PIL.Image) :
  Image_open w1 path1 = Ok img1 →
  Image_open w2 path2 = Ok img2 →
  same_sample img1 img2 →
  analyze_image w1 path1 = analyze_image w2 path2.
Proof.
  intros H1 H2 S. unfold analyze_image, analyze_body. rewrite H1, H2.
  cbn [mbind result_bind]. rewrite (sample_same img1 img2 S). reflexivity.
Qed.

Lemma analysis_reads_only_the_window_witness :
  analyze_image (opens_as (uniform 300 200 (PIL.Bands [10; 20; 200; 255]))) "a.png"
  = analyze_image
      (opens_as (two_halves 300 200 (PIL.Bands [10; 20; 200]) (PIL.Bands [10; 20; 200; 0])))
      "b.png".
Proof.
  apply (analysis_reads_only_the_window _ _ _ _
           (uniform 300 200 (PIL.Bands [10; 20; 200; 255]))
           (two_halves 300 200 (PIL.Bands [10; 20; 200]) (PIL.Bands [10; 20; 200; 0])));
    try reflexivity.
  split; [reflexivity|]. intros x y _. cbn [uniform two_halves PIL.getpixel].
  destruct (x <? 300 / 2); reflexivity.
Defined.

Lemma flat_map_nil {A B} (f : A → list B) (l : list A) :
  (∀ a, In a l → f a = []) → flat_map f l = [].
Proof.
  intros H. induction l as [|a l IH]; [reflexivity|]. cbn [flat_map].
  rewrite (H a (or_introl eq_refl)), IH; [reflexivity|].
  intros b Hb. apply H. right. assumption.
Qed.

Lemma summary_initial : summary initial = nothing_sampled.
Proof. vm_compute. reflexivity. Qed.

(** When no pixel of the window is a tuple of 3 channels or more (tuples of
    two channels, or an image without pixels), nothing is divided: the
    record holds zeros and is not flooded. *)
Theorem nothing_to_sample (w : World) (filepath : string) (img : PIL.Image) :
  Image_open w filepath = Ok img →
  (∀ x y, in_sample_window img x y →
     ∃ cs, PIL.getpixel img (x, y) = PIL.Bands cs ∧ (length cs < 3)%nat) →
  analyze_image w filepath = Ok (Stats nothing_sampled).
Proof.
  intros Ho H. rewrite (analyze_image_ok w filepath img Ho).
  - assert (E : sampled img = []).
    { apply flat_map_nil. intros [x y] Hin. apply in_window in Hin.
      destruct (H x y Hin) as (cs & -> & L).
      destruct cs as [|r [|g [|b rest]]]; cbn [length] in L; try lia; reflexivity. }
    rewrite E. cbn [tally fold_left]. rewrite summary_initial. reflexivity.
  - intros x y Hw. destruct (H x y Hw) as (cs & E & _). exists cs. exact E.
Qed.

Lemma nothing_to_sample_witness :
  analyze_image (opens_as (uniform 640 480 (PIL.Bands [128; 255]))) "gray_alpha.png"
  = Ok (Stats nothing_sampled)
  ∧ analyze_image (opens_as (uniform 0 0 (PIL.Bands [0; 0; 255]))) "empty.png"
    = Ok (Stats nothing_sampled).
Proof.
  split.
  - apply (nothing_to_sample _ _ (uniform 640 480 (PIL.Bands [128; 255]))); [reflexivity|].
    intros x y _. exists [128; 255]. split; [reflexivity | simpl; lia].
  - apply (nothing_to_sample _ _ (uniform 0 0 (PIL.Bands [0; 0; 255]))); [reflexivity|].
    intros x y Hw. unfold in_sample_window in Hw. cbn in Hw. lia.
Defined.

End Reading.

(** ** What the record holds *)
Section Records.
Import PyFloat.

Lemma round53_255 : round53 (inject_Z 255) = inject_Z 255.
Proof. vm_compute. reflexivity. Qed.

(** A rounded channel average is a channel value. *)
Lemma channel_average_bounds (channel : rgb → Z) (ps : list rgb) :
  List.Forall (λ p, 0 <= channel p <= 255) ps →
  0 <= PyFloat.round
         (quotient_or (total (map channel ps)) (Z.of_nat (length ps))
            (inject_Z (total (map channel ps)))) <= 255.
Proof.
  intros F. pose proof (total_bounded channel ps F) as B.
  unfold quotient_or, PyFloat.round.
  destruct (Z.ltb_spec 0 (Z.of_nat (length ps))) as [T | T].
  - pose proof (quotient_nonneg _ _ (proj1 B) T) as N. split.
    + apply rne_ge_int. apply (round53_nonneg _ N).
    + apply rne_le_int. rewrite <- round53_255. apply round53_mono; [exact N|].
      apply Qle_shift_div_r; [apply inject_Z_pos; exact T|].
      rewrite <- inject_Z_mult, <- Zle_Qle. lia.
  - assert (E : total (map channel ps) = 0) by lia. rewrite E. rewrite rne_inject_Z. lia.
Qed.

(** The averages are channel values: for an image of 8-bit channels each
    component of [avg_color] lies between 0 and 255, also when nothing was
    sampled. *)
Theorem avg_color_in_channel_range
    (w : World) (filepath : string) (img : PIL.Image) (s : stats) :
  Image_open w filepath = Ok img →
  eight_bit img →
  analyze_image w filepath = Ok (Stats s) →
  0 <= (rec_avg_color s).1.1 <= 255
  ∧ 0 <= (rec_avg_color s).1.2 <= 255
  ∧ 0 <= (rec_avg_color s).2 <= 255.
Proof.
  intros Ho H8 H. destruct (analyze_image_inv _ _ _ H) as (img' & Ho' & ->).
  assert (img' = img) as -> by congruence.
  pose proof (sampled_eight_bit img H8) as F.
  cbn [summary rec_avg_color fst snd].
  rewrite tally_avg_r, tally_avg_g, tally_avg_b, sampled_total_pixels.
  cbn [initial avg_r avg_g avg_b]. rewrite !Z.add_0_l.
  split; [|split]; apply channel_average_bounds;
    (eapply List.Forall_impl; [|exact F]); intros p (Hr & Hg & Hb); assumption.
Qed.

Lemma avg_color_in_channel_range_witness :
  0 <= 0 <= 255 ∧ 0 <= 0 <= 255 ∧ 0 <= 26 <= 255.
Proof.
  apply (avg_color_in_channel_range (opens_as blue_corner) "zoom_Global_Full_+0000ft.png"
           blue_corner
           {| rec_blue_pixels := 201; rec_total_pixels := 2009;
              rec_blue_ratio := lit_0_1; rec_avg_color := (0, 0, 26);
              rec_has_flooding := true |}).
  - reflexivity.
  - exact blue_corner_eight_bit.
  - vm_compute. reflexivity.
Defined.

Lemma filter_all {A} (f : A → bool) (l : list A) :
  (∀ a, In a l → f a = true) → List.filter f l = l.
Proof.
  intros H. induction l as [|a l IH]; [reflexivity|]. cbn [List.filter].
  rewrite (H a (or_introl eq_refl)), IH; [reflexivity|].
  intros b Hb. apply H. right. assumption.
Qed.

Lemma filter_none {A} (f : A → bool) (l : list A) :
  (∀ a, In a l → f a = false) → List.filter f l = [].
Proof.
  intros H. induction l as [|a l IH]; [reflexivity|]. cbn [List.filter].
  rewrite (H a (or_introl eq_refl)). apply IH.
  intros b Hb. apply H. right. assumption.
Qed.

Lemma is_blue_sampled (img : PIL.Image) (p : rgb) :
  eight_bit img → In p (sampled img) →
  is_blue (red p) (green p) (blue p) = true ↔ flood_color (red p) (green p) (blue p).
Proof.
  intros H8 Hp. pose proof (sampled_eight_bit img H8) as F.
  rewrite List.Forall_forall in F. destruct (F p Hp) as (Hr & Hg & _).
  apply is_blue_iff; assumption.
Qed.

Lemma round_ndigits_one : round_ndigits 1 4 = 1%Q.
Proof. vm_compute. reflexivity. Qed.

Lemma round_ndigits_zero : round_ndigits 0 4 = 0%Q.
Proof. vm_compute. reflexivity. Qed.

Lemma round53_self_quotient (t : Z) : 0 < t → round53 (inject_Z t / inject_Z t) = 1%Q.
Proof.
  intros T. rewrite <- round53_one. apply round53_compat.
  apply Qmult_inv_r. pose proof (inject_Z_pos t T). lra.
Qed.

Lemma round53_zero_quotient (t : Z) : round53 (inject_Z 0 / inject_Z t) = 0%Q.
Proof.
  rewrite <- round53_zero. apply round53_compat.
  unfold Qdiv. change (inject_Z 0) with 0%Q. ring.
Qed.

(** Uniform samples: when every sampled pixel has the flood colour the
    reported ratio is exactly 1.0 and the image is flooded; when none has,
    [blue_pixels] and the ratio are 0 and the image is not flooded. *)
Theorem all_or_nothing_blue
    (w : World) (filepath : string) (img : PIL.Image) (s : stats) :
  Image_open w filepath = Ok img →
  eight_bit img →
  analyze_image w filepath = Ok (Stats s) →
  ((∀ p, In p (sampled img) → flood_color (red p) (green p) (blue p)) →
   0 < rec_total_pixels s →
   rec_blue_pixels s = rec_total_pixels s
   ∧ rec_blue_ratio s = 1%Q
   ∧ rec_has_flooding s = true)
  ∧ ((∀ p, In p (sampled img) → ¬ flood_color (red p) (green p) (blue p)) →
     rec_blue_pixels s = 0
     ∧ rec_blue_ratio s = 0%Q
     ∧ rec_has_flooding s = false).
Proof.
  intros Ho H8 H. destruct (analyze_image_inv _ _ _ H) as (img' & Ho' & ->).
  assert (img' = img) as -> by congruence.
  cbn [summary rec_blue_pixels rec_total_pixels rec_blue_ratio rec_has_flooding].
  rewrite tally_blue_pixels, sampled_total_pixels. cbn [initial blue_pixels].
  rewrite Z.add_0_l. unfold quotient_or. split.
  - intros A T. rewrite filter_all.
    + destruct (Z.ltb_spec 0 (Z.of_nat (length (sampled img)))); [|lia].
      rewrite round53_self_quotient by assumption.
      split; [reflexivity|]. split; [apply round_ndigits_one | vm_compute; reflexivity].
    + intros p Hp. apply (is_blue_sampled img p H8 Hp). apply A. exact Hp.
  - intros A. rewrite filter_none.
    + cbn [length Z.of_nat]. split; [reflexivity|].
      destruct (0 <? Z.of_nat (length (sampled img))).
      * rewrite round53_zero_quotient.
        split; [apply round_ndigits_zero | vm_compute; reflexivity].
      * split; [apply round_ndigits_zero | vm_compute; reflexivity].
    + intros p Hp. destruct (is_blue (red p) (green p) (blue p)) eqn:E; [|reflexivity].
      exfalso. apply (A p Hp). apply (is_blue_sampled img p H8 Hp). exact E.
Qed.


Lemma uniform_eight_bit (width height : Z) (cs : list Z) :
  Forall (λ v, 0 <= v <= 255) cs → eight_bit (uniform width height (PIL.Bands cs)).
Proof. intros F x y cs' _ E. cbn in E. injection E as <-. exact F. Qed.

Lemma sampled_uniform (width height : Z) (p : PIL.pixel) (q : rgb) :
  In q (sampled (uniform width height p)) → In q (counted p).
Proof.
  intros H. apply in_flat_map in H. destruct H as (c & _ & H). exact H.
Qed.

Lemma all_or_nothing_blue_witness :
  (100 = 100 ∧ 1%Q = 1%Q ∧ true = true)
  ∧ (0 = 0 ∧ 0%Q = 0%Q ∧ false = false).
Proof.
  split.
  - apply (proj1 (all_or_nothing_blue
                    (opens_as (uniform 10 10 (PIL.Bands [0; 0; 255])))
                    "zoom_Global_Full_+0000ft.png"
                    (uniform 10 10 (PIL.Bands [0; 0; 255]))
                    {| rec_blue_pixels := 100; rec_total_pixels := 100;
                       rec_blue_ratio := 1%Q; rec_avg_color := (0, 0, 255);
                       rec_has_flooding := true |}
                    eq_refl
                    (uniform_eight_bit 10 10 [0; 0; 255] ltac:(repeat constructor; lia))
                    ltac:(vm_compute; reflexivity))).
    + intros p Hp. apply sampled_uniform in Hp. destruct Hp as [<- | []].
      unfold flood_color. cbn. repeat split; reflexivity.
    + reflexivity.
  - apply (proj2 (all_or_nothing_blue
                    (opens_as (uniform 10 10 (PIL.Bands [255; 255; 255])))
                    "zoom_Global_Full_+0000ft.png"
                    (uniform 10 10 (PIL.Bands [255; 255; 255]))
                    {| rec_blue_pixels := 0; rec_total_pixels := 100;
                       rec_blue_ratio := 0%Q; rec_avg_color := (255, 255, 255);
                       rec_has_flooding := false |}
                    eq_refl
                    (uniform_eight_bit 10 10 [255; 255; 255] ltac:(repeat constructor; lia))
                    ltac:(vm_compute; reflexivity))).
    intros p Hp. apply sampled_uniform in Hp. destruct Hp as [<- | []].
    unfold flood_color. cbn. intros (_ & H & _). revert H. apply Qle_not_lt. discriminate.
Defined.

End Records.

(** ** Runs of the batch *)
Section Runs.

Lemma zoom_step_raises (w : World) (f e : string) (st : list row * list line) :
  parse_zoom f = Raise e → zoom_step w f st = Raise e.
Proof.
  intros P. destruct st as [rows out]. unfold zoom_step.
  rewrite analyze_image_analysis_of, P. reflexivity.
Qed.

Lemma elevation_step_raises (w : World) (f e : string)
    (st : gmap Z analysis * list line) :
  parse_elevation f = Raise e → elevation_step w f st = Raise e.
Proof.
  intros P. destruct st as [m out]. unfold elevation_step.
  rewrite analyze_image_analysis_of, P. reflexivity.
Qed.

(** A loop whose steps succeed up to an element that raises, raises. *)
Lemma for_each_raises {A S} (body : A → S → result S) (l1 l2 : list A) (a : A)
    (e : string) (st : S) :
  (∀ x, In x l1 → ∀ s, ∃ s', body x s = Ok s') →
  (∀ s, body a s = Raise e) →
  for_each (l1 ++ a :: l2) body st = Raise e.
Proof.
  revert st. induction l1 as [|x l1 IH]; intros st H1 Ha.
  - cbn [app for_each]. rewrite Ha. reflexivity.
  - cbn [app for_each]. destruct (H1 x (or_introl eq_refl) st) as [s' ->].
    cbn [mbind result_bind]. apply IH; [|exact Ha].
    intros y Hy. apply H1. right. exact Hy.
Qed.

Lemma zoom_step_succeeds (w : World) (f : string) :
  (∃ v, parse_zoom f = Ok v) → ∀ st, ∃ st', zoom_step w f st = Ok st'.
Proof.
  intros [[name level] P] [rows out].
  assert (R : zoom_row w f = Ok {| test_name := name; water_level_ft := level;
                                   row_analysis := analysis_of w f |}).
  { unfold zoom_row. rewrite P. reflexivity. }
  destruct (zoom_step_ok w f rows out _ R) as [out' S]. eexists. exact S.
Qed.

Lemma elevation_step_succeeds (w : World) (f : string) :
  (∃ k, parse_elevation f = Ok k) → ∀ st, ∃ st', elevation_step w f st = Ok st'.
Proof.
  intros [k P] [m out]. destruct (elevation_step_ok w f m out k P) as [out' S].
  eexists. exact S.
Qed.

(** A name that does not parse aborts the run: [main] raises the exception
    of the first selected name, in sorted order, that [int] or [parts[1]]
    rejects, and the summary of the images analysed so far is not
    written. *)
Theorem unparsed_name_aborts_the_run
    (w : World) (l1 l2 : list string) (f e : string) :
  (selected w "zoom_" = l1 ++ f :: l2 →
   (∀ g, In g l1 → ∃ v, parse_zoom g = Ok v) →
   parse_zoom f = Raise e →
   main w = Raise e)
  ∧ (selected w "zoom_" = [] →
     selected w "elevation_" = l1 ++ f :: l2 →
     (∀ g, In g l1 → ∃ k, parse_elevation g = Ok k) →
     parse_elevation f = Raise e →
     main w = Raise e).
Proof.
  split.
  - intros Hs H1 P.
    rewrite (main_zoom w) by (rewrite Hs; destruct l1; discriminate).
    unfold zoom_mode. rewrite Hs.
    rewrite (for_each_raises (zoom_step w) l1 l2 f e); [reflexivity| |].
    + intros g Hg. apply zoom_step_succeeds, H1, Hg.
    + intros st. apply zoom_step_raises, P.
  - intros Hz Hs H1 P.
    rewrite (main_elevation w Hz) by (rewrite Hs; destruct l1; discriminate).
    unfold elevation_mode. rewrite Hs.
    rewrite (for_each_raises (elevation_step w) l1 l2 f e); [reflexivity| |].
    + intros g Hg. apply elevation_step_succeeds, H1, Hg.
    + intros st. apply elevation_step_raises, P.
Qed.

Lemma unparsed_name_aborts_the_run_witness :
  main zoom_name_without_level = Raise "list index out of range".
Proof.
  apply (proj1 (unparsed_name_aborts_the_run zoom_name_without_level
                  ["zoom_Global_Full_+0000ft.png"%string;
                   "zoom_Regional_+0100ft.png"%string]
                  []
                  "zoom_debug.png" "list index out of range")).
  - vm_compute. reflexivity.
  - intros g [<- | [<- | []]]; eexists; vm_compute; reflexivity.
  - vm_compute. reflexivity.
Defined.

(** *** The run depends on the selected files only *)

Lemma analyze_image_same_open (w1 w2 : World) (path : string) :
  Image_open w1 path = Image_open w2 path → analyze_image w1 path = analyze_image w2 path.
Proof. intros H. unfold analyze_image, analyze_body. rewrite H. reflexivity. Qed.

Lemma for_each_same {A S} (body1 body2 : A → S → result S) (l : list A) (st : S) :
  (∀ x, In x l → ∀ s, body1 x s = body2 x s) →
  for_each l body1 st = for_each l body2 st.
Proof.
  revert st. induction l as [|x l IH]; intros st H; [reflexivity|].
  cbn [for_each]. rewrite (H x (or_introl eq_refl)).
  destruct (body2 x st) as [s' | e]; [|reflexivity].
  cbn [mbind result_bind]. apply IH. intros y Hy. apply H. right. exact Hy.
Qed.

(** In zoom mode the run is decided by the zoom files alone: two
    directories with the same zoom names, whose zoom files open alike, give
    the same report, the same summary and the same result, whatever other
    files they hold and whatever those files contain. *)
Theorem zoom_run_reads_zoom_files_only (w1 w2 : World) :
  SCREENSHOT_DIR w1 = SCREENSHOT_DIR w2 →
  selected w1 "zoom_" ≠ [] →
  selected w1 "zoom_" = selected w2 "zoom_" →
  (∀ f, In f (selected w1 "zoom_") →
     Image_open w1 (path_join (SCREENSHOT_DIR w1) f)
     = Image_open w2 (path_join (SCREENSHOT_DIR w1) f)) →
  main w1 = main w2.
Proof.
  intros Hd Hn Hs Ho.
  rewrite (main_zoom w1 Hn), (main_zoom w2) by (rewrite <- Hs; exact Hn).
  unfold zoom_mode. rewrite <- Hs, <- Hd.
  rewrite (for_each_same (zoom_step w1) (zoom_step w2)); [reflexivity|].
  intros f Hf [rows out]. unfold zoom_step. rewrite <- Hd.
  rewrite (analyze_image_same_open w1 w2 _ (Ho f Hf)). reflexivity.
Qed.

Lemma zoom_run_reads_zoom_files_only_witness :
  main zoom_and_elevation = main zoom_among_others.
Proof.
  apply zoom_run_reads_zoom_files_only.
  - reflexivity.
  - vm_compute. discriminate.
  - vm_compute. reflexivity.
  - intros f H. vm_compute in H. destruct H as [<- | [<- | []]]; reflexivity.
Defined.

End Runs.

(** ** Reports and entries *)
Section Reports.

Lemma zoom_step_line (w : World) (f : string) (rows : list row) (out : list line)
    (st' : list row * list line) :
  zoom_step w f (rows, out) = Ok st' →
  ∃ r, zoom_row w f = Ok r ∧ st' = (rows ++ [r], out ++ [zoom_line r]).
Proof.
  unfold zoom_step, zoom_row. rewrite analyze_image_analysis_of. cbn [mbind result_bind].
  destruct (parse_zoom f) as [[name level] | e]; [|discriminate].
  cbn [mbind result_bind]. intros H. eexists. split; [reflexivity|].
  unfold zoom_line. cbn [row_analysis test_name water_level_ft].
  destruct (analysis_of w f); injection H as <-; reflexivity.
Qed.

(** The loop appends one row and one line per file. *)
Lemma zoom_loop_report (w : World) (files : list string) (rows : list row)
    (out : list line) (st' : list row * list line) :
  for_each files (zoom_step w) (rows, out) = Ok st' →
  ∃ rs, st' = (rows ++ rs, out ++ map zoom_line rs)
        ∧ Forall2 (λ f r, zoom_row w f = Ok r) files rs.
Proof.
  revert rows out. induction files as [|f files IH]; intros rows out H.
  - injection H as <-. exists []. rewrite !app_nil_r. split; [reflexivity | constructor].
  - cbn [for_each] in H.
    destruct (zoom_step w f (rows, out)) as [st1 | e] eqn:S; [|discriminate].
    cbn [mbind result_bind] in H.
    destruct (zoom_step_line w f rows out st1 S) as (r & Hr & ->).
    destruct (IH _ _ H) as (rs & -> & F). exists (r :: rs). split.
    + cbn [map]. rewrite <- !app_assoc. reflexivity.
    + constructor; assumption.
Qed.

(** The report of a zoom run: the count of zoom files, the header and a
    rule; then one line per row of the result, in the order of the rows, an
    ERROR line exactly for the rows that hold an error; then a rule and the
    name of the summary file.  There is one row per zoom file. *)
Theorem zoom_report_follows_the_rows (w : World) (r : run) :
  selected w "zoom_" ≠ [] →
  main w = Ok r →
  ∃ rows,
    returned r = ZoomResults rows
    ∧ length rows = length (selected w "zoom_")
    ∧ printed r
      = [AnalyzingZoom (length rows); ZoomHeader; Rule 65]
        ++ map zoom_line rows
        ++ [Rule 65; Saved (path_join (SCREENSHOT_DIR w) "zoom_analysis.json")].
Proof.
  intros Hn H. rewrite (main_zoom w Hn) in H. unfold zoom_mode in H.
  destruct (for_each _ (zoom_step w) _) as [[rows out] | e] eqn:L; [|discriminate].
  cbn [mbind result_bind] in H. injection H as <-.
  destruct (zoom_loop_report w _ _ _ _ L) as (rs & E & F). injection E as -> ->.
  exists rs. cbn [returned printed app].
  pose proof (Forall2_length _ _ _ F) as Len.
  split; [reflexivity|]. split; [symmetry; exact Len|].
  rewrite Len, <- !app_assoc. reflexivity.
Qed.

Lemma zoom_report_follows_the_rows_witness :
  ∃ rows,
    ZoomResults
      [ {| test_name := "Global_Full"; water_level_ft := 0;
           row_analysis := Error "cannot identify image file" |};
        {| test_name := "Local_Coast"; water_level_ft := -100;
           row_analysis :=
             Stats {| rec_blue_pixels := 100; rec_total_pixels := 100;
                      rec_blue_ratio := 1%Q; rec_avg_color := (0, 0, 255);
                      rec_has_flooding := true |} |} ]
    = ZoomResults rows
    ∧ length rows = length (selected zoom_and_elevation "zoom_")
    ∧ [AnalyzingZoom 2; ZoomHeader; Rule 65;
       ZoomError "Global_Full" 0 "cannot identify image file";
       ZoomRow "Local_Coast" (-100) 1%Q "YES";
       Rule 65; Saved "test_screenshots/zoom_analysis.json"]
      = [AnalyzingZoom (length rows); ZoomHeader; Rule 65]
        ++ map zoom_line rows
        ++ [Rule 65; Saved "test_screenshots/zoom_analysis.json"].
Proof.
  apply (zoom_report_follows_the_rows zoom_and_elevation
           {| printed :=
                [AnalyzingZoom 2; ZoomHeader; Rule 65;
                 ZoomError "Global_Full" 0 "cannot identify image file";
                 ZoomRow "Local_Coast" (-100) 1%Q "YES";
                 Rule 65; Saved "test_screenshots/zoom_analysis.json"];
              written := Some ("test_screenshots/zoom_analysis.json"%string,
                               ZoomResults
                                 [ {| test_name := "Global_Full"; water_level_ft := 0;
                                      row_analysis := Error "cannot identify image file" |};
                                   {| test_name := "Local_Coast"; water_level_ft := -100;
                                      row_analysis :=
                                        Stats {| rec_blue_pixels := 100;
                                                 rec_total_pixels := 100;
                                                 rec_blue_ratio := 1%Q;
                                                 rec_avg_color := (0, 0, 255);
                                                 rec_has_flooding := true |} |} ]);
              returned :=
                ZoomResults
                  [ {| test_name := "Global_Full"; water_level_ft := 0;
                       row_analysis := Error "cannot identify image file" |};
                    {| test_name := "Local_Coast"; water_level_ft := -100;
                       row_analysis :=
                         Stats {| rec_blue_pixels := 100; rec_total_pixels := 100;
                                  rec_blue_ratio := 1%Q; rec_avg_color := (0, 0, 255);
                                  rec_has_flooding := true |} |} ] |}).
  - vm_compute. discriminate.
  - vm_compute. reflexivity.
Defined.

(** *** The entries of the elevation dictionary *)

Lemma entered_lookup_inv (w : World) (fks : list (string * Z)) (m : gmap Z analysis)
    (k : Z) (a : analysis) :
  entered w fks m !! k = Some a →
  m !! k = Some a ∨ ∃ f, In (f, k) fks ∧ a = analysis_of w f.
Proof.
  revert m. induction fks as [|[g j] fks IH]; intros m H; [left; exact H|].
  change (entered w ((g, j) :: fks) m) with (entered w fks (<[j := analysis_of w g]> m)) in H.
  destruct (IH _ H) as [H' | (f & Hin & E)].
  - destruct (decide (j = k)) as [-> | N].
    + rewrite lookup_insert_eq in H'. injection H' as <-.
      right. exists g. split; [left; reflexivity | reflexivity].
    + rewrite lookup_insert_ne in H' by exact N. left. exact H'.
  - right. exists f. split; [right; exact Hin | exact E].
Qed.

Lemma entered_lookup_some (w : World) (fks : list (string * Z)) (m : gmap Z analysis)
    (f : string) (k : Z) :
  In (f, k) fks → is_Some (entered w fks m !! k).
Proof.
  intros Hin. apply in_split in Hin. destruct Hin as (l1 & l2 & ->).
  rewrite entered_app.
  change (entered w ((f, k) :: l2) (entered w l1 m))
    with (entered w l2 (<[k := analysis_of w f]> (entered w l1 m))).
  assert (G : ∀ l m', is_Some (m' !! k) → is_Some (entered w l m' !! k)).
  { clear. induction l as [|[g j] l IH]; intros m' H; [exact H|].
    change (entered w ((g, j) :: l) m') with (entered w l (<[j := analysis_of w g]> m')).
    apply IH. destruct (decide (j = k)) as [-> | N].
    - rewrite lookup_insert_eq. eexists. reflexivity.
    - rewrite lookup_insert_ne by exact N. exact H. }
  apply G. rewrite lookup_insert_eq. eexists. reflexivity.
Qed.

Lemma entered_size (w : World) (fks : list (string * Z)) (m : gmap Z analysis) :
  (size (entered w fks m) <= size m + length fks)%nat.
Proof.
  revert m. induction fks as [|[g j] fks IH]; intros m; [simpl; lia|].
  change (entered w ((g, j) :: fks) m) with (entered w fks (<[j := analysis_of w g]> m)).
  pose proof (IH (<[j := analysis_of w g]> m)) as B.
  pose proof (map_size_insert j (analysis_of w g) m) as S.
  destruct (m !! j); cbn [length]; unfold id in S; lia.
Qed.

(** The elevation dictionary has an entry exactly for the elevations the
    selected names parse to, each entry is the analysis of a file with that
    elevation, and there are at most as many entries as files. *)
Theorem elevation_entries (w : World) (r : run) (m : gmap Z analysis) :
  selected w "zoom_" = [] →
  main w = Ok r →
  returned r = ElevationResults m →
  (∀ k, is_Some (m !! k)
        ↔ ∃ f, In f (selected w "elevation_") ∧ parse_elevation f = Ok k)
  ∧ (∀ k a, m !! k = Some a →
        ∃ f, In f (selected w "elevation_") ∧ parse_elevation f = Ok k
             ∧ analyze_image w (path_join (SCREENSHOT_DIR w) f) = Ok a)
  ∧ (size m <= length (selected w "elevation_"))%nat.
Proof.
  intros Hz H Hr.
  destruct (selected w "elevation_") as [|f0 files] eqn:He.
  - rewrite (main_empty w Hz He) in H. injection H as <-. cbn [returned] in Hr.
    injection Hr as <-. split; [|split].
    + intros k. rewrite lookup_empty. split; [intros [a E]; discriminate|].
      intros (f & [] & _).
    + intros k a E. rewrite lookup_empty in E. discriminate.
    + rewrite map_size_empty. cbn [length]. lia.
  - rewrite (main_elevation w Hz) in H by (rewrite He; discriminate). rewrite He in H.
    destruct (elevation_mode_inv w _ r H) as (fks & Hret & _ & Hm & F).
    rewrite Hret in Hr. injection Hr as <-.
    rewrite List.Forall_forall in F.
    assert (In1 : ∀ f k, In (f, k) fks → In f (f0 :: files) ∧ parse_elevation f = Ok k).
    { intros f k Hin. split; [rewrite <- Hm; apply (in_map fst _ _ Hin) | apply (F _ Hin)]. }
    assert (In2 : ∀ f k, In f (f0 :: files) → parse_elevation f = Ok k → In (f, k) fks).
    { intros f k Hin P. rewrite <- Hm in Hin. apply in_map_iff in Hin.
      destruct Hin as ([f' k'] & E & Hin). cbn [fst] in E. subst f'.
      pose proof (F _ Hin) as P'. cbn [fst snd] in P'.
      assert (k' = k) as -> by congruence. exact Hin. }
    split; [|split].
    + intros k. split.
      * intros [a E]. apply entered_lookup_inv in E.
        destruct E as [E | (f & Hin & _)]; [rewrite lookup_empty in E; discriminate|].
        exists f. apply In1, Hin.
      * intros (f & Hin & P). apply (entered_lookup_some w fks ∅ f k). apply In2; assumption.
    + intros k a E. apply entered_lookup_inv in E.
      destruct E as [E | (f & Hin & ->)]; [rewrite lookup_empty in E; discriminate|].
      exists f. destruct (In1 f k Hin) as [H1 H2].
      split; [exact H1|]. split; [exact H2 | apply analyze_image_analysis_of].
    + pose proof (entered_size w fks ∅) as B. rewrite map_size_empty in B.
      rewrite <- Hm, length_map. lia.
Qed.


Lemma elevation_entries_witness :
  ∃ r m,
    main same_elevation_twice = Ok r
    ∧ returned r = ElevationResults m
    ∧ (∀ k, is_Some (m !! k)
            ↔ ∃ f, In f (selected same_elevation_twice "elevation_")
                   ∧ parse_elevation f = Ok k)
    ∧ (∀ k a, m !! k = Some a →
          ∃ f, In f (selected same_elevation_twice "elevation_")
               ∧ parse_elevation f = Ok k
               ∧ analyze_image same_elevation_twice (path_join "test_screenshots" f) = Ok a)
    ∧ (size m <= length (selected same_elevation_twice "elevation_"))%nat.
Proof.
  eexists. eexists. split; [vm_compute; reflexivity|]. split; [reflexivity|].
  eapply (elevation_entries same_elevation_twice).
  - vm_compute. reflexivity.
  - vm_compute. reflexivity.
  - vm_compute. reflexivity.
Defined.

End Reports.

(** ** File names: what the test run writes, the analysis reads *)
Section Names.
Open Scope string_scope.
#[local] Arguments String.append !_ _ : simpl nomatch.

Lemma string_app_nil_r (s : string) : s ++ "" = s.
Proof. induction s as [|c s IH]; [reflexivity | cbn [String.append]; rewrite IH; reflexivity]. Qed.

Lemma string_app_assoc (a b c : string) : (a ++ b) ++ c = a ++ b ++ c.
Proof. induction a as [|d a IH]; [reflexivity | cbn [String.append]; rewrite IH; reflexivity]. Qed.

Lemma avoids_app (a b chars : string) :
  avoids (a ++ b) chars = avoids a chars && avoids b chars.
Proof. induction a as [|c a IH]; cbn; [reflexivity|]. rewrite IH, andb_assoc. reflexivity. Qed.

Lemma contains_In (c : ascii) (chars : string) :
  PyStr.contains c chars = true ↔ In c (list_ascii_of_string chars).
Proof.
  induction chars as [|d chars IH]; cbn.
  - split; [discriminate | intros []].
  - rewrite orb_true_iff, IH, Ascii.eqb_eq. split; intros [H | H]; auto.
Qed.

Lemma avoids_In (s chars : string) :
  avoids s chars = true ↔ ∀ c, In c (list_ascii_of_string s) → PyStr.contains c chars = false.
Proof.
  induction s as [|d s IH]; cbn.
  - split; [intros _ c [] | reflexivity].
  - rewrite andb_true_iff, negb_true_iff, IH. split.
    + intros [H1 H2] c [<- | H]; auto.
    + intros H; split; [apply H; left; reflexivity | intros c Hc; apply H; right; exact Hc].
Qed.

(** Avoiding more characters is avoiding fewer. *)
Lemma avoids_weaken (s chars chars' : string) :
  avoids s chars = true →
  (∀ c, PyStr.contains c chars' = true → PyStr.contains c chars = true) →
  avoids s chars' = true.
Proof.
  rewrite !avoids_In. intros H W c Hc. specialize (H c Hc).
  destruct (PyStr.contains c chars') eqn:E; [|reflexivity].
  rewrite (W c E) in H. discriminate.
Qed.

(** *** [replace] *)

(** The characters of a matched occurrence are dropped. *)
Lemma replace_from_skip (old new p rest : string) :
  PyStr.replace_from old new (String.length p) (p ++ rest)
  = PyStr.replace_from old new 0 rest.
Proof.
  induction p as [|c p IH]; [reflexivity|].
  cbn [String.length String.append PyStr.replace_from]. exact IH.
Qed.

Lemma prefix_app (p s : string) : String.prefix p (p ++ s) = true.
Proof.
  induction p as [|c p IH]; cbn; [destruct s; reflexivity|].
  destruct (ascii_dec c c); [exact IH | contradiction].
Qed.

Lemma prefix_head (c d : ascii) (old s : string) :
  c ≠ d → String.prefix (String c old) (String d s) = false.
Proof. intros N. cbn. destruct (ascii_dec c d); [contradiction | reflexivity]. Qed.

(** An occurrence at the front is replaced, and the scan goes on behind
    it. *)
Lemma replace_prefix (c : ascii) (old new rest : string) :
  PyStr.replace (String c old ++ rest) (String c old) new
  = new ++ PyStr.replace rest (String c old) new.
Proof.
  unfold PyStr.replace. cbn [String.append].
  change (PyStr.replace_from (String c old) new 0 (String c (old ++ rest)))
    with (if String.prefix (String c old) (String c (old ++ rest))
          then new ++ PyStr.replace_from (String c old) new
                        (String.length (String c old) - 1) (old ++ rest)
          else String c (PyStr.replace_from (String c old) new 0 (old ++ rest))).
  assert (P : String.prefix (String c old) (String c (old ++ rest)) = true)
    by exact (prefix_app (String c old) rest).
  rewrite P.
  replace (String.length (String c old) - 1)%nat with (String.length old)
    by (cbn [String.length]; lia).
  rewrite replace_from_skip. reflexivity.
Qed.

(** A string without the first character of [old] has no occurrence. *)
Lemma replace_avoids (c : ascii) (old new s : string) :
  avoids s (String c "") = true → PyStr.replace s (String c old) new = s.
Proof.
  unfold PyStr.replace. induction s as [|d s IH]; [reflexivity|].
  cbn [avoids PyStr.contains]. rewrite orb_false_r, andb_true_iff, negb_true_iff.
  intros [N A]. cbn [PyStr.replace_from].
  rewrite prefix_head; [rewrite (IH A); reflexivity|].
  intros ->. rewrite Ascii.eqb_refl in N. discriminate.
Qed.

(** The occurrence at the end of a string that has none of its first
    character before. *)
Lemma replace_suffix (c : ascii) (old new pre : string) :
  avoids pre (String c "") = true →
  PyStr.replace (pre ++ String c old) (String c old) new = pre ++ new.
Proof.
  intros A. induction pre as [|d pre IH].
  - cbn [String.append]. rewrite <- (string_app_nil_r (String c old)) at 1.
    rewrite replace_prefix. unfold PyStr.replace.
    cbn [PyStr.replace_from String.append]. apply string_app_nil_r.
  - cbn [avoids PyStr.contains] in A.
    rewrite orb_false_r, andb_true_iff, negb_true_iff in A. destruct A as [N A].
    unfold PyStr.replace in *. cbn [String.append PyStr.replace_from].
    rewrite prefix_head; [rewrite (IH A); reflexivity|].
    intros ->. rewrite Ascii.eqb_refl in N. discriminate.
Qed.

(** *** [rsplit] *)

Lemma rpartition_avoids (c : ascii) (s : string) :
  avoids s (String c "") = true → PyStr.rpartition (String c "") s = None.
Proof.
  induction s as [|d s IH]; [reflexivity|].
  cbn [avoids PyStr.contains]. rewrite orb_false_r, andb_true_iff, negb_true_iff.
  intros [N A]. cbn [PyStr.rpartition]. rewrite (IH A), prefix_head; [reflexivity|].
  intros ->. rewrite Ascii.eqb_refl in N. discriminate.
Qed.

(** The split is at the last separator. *)
Lemma rpartition_last (c : ascii) (before after : string) :
  avoids after (String c "") = true →
  PyStr.rpartition (String c "") (before ++ String c after) = Some (before, after).
Proof.
  intros A. induction before as [|d before IH].
  - cbn [String.append PyStr.rpartition]. rewrite (rpartition_avoids c after A).
    cbn. destruct (ascii_dec c c); [|contradiction]. destruct after; reflexivity.
  - cbn [String.append PyStr.rpartition]. rewrite IH. reflexivity.
Qed.

(** *** [lstrip] and [strip] *)

Lemma lstrip_avoids (s chars : string) :
  avoids s chars = true → PyStr.lstrip s chars = s.
Proof.
  destruct s as [|c s]; [reflexivity|]. cbn. rewrite andb_true_iff, negb_true_iff.
  intros [-> _]. reflexivity.
Qed.

Lemma rev_onto_rev_onto (s acc acc' : string) :
  PyStr.rev_onto (PyStr.rev_onto s acc) acc' = PyStr.rev_onto acc (s ++ acc').
Proof. revert acc. induction s as [|c s IH]; intros acc; cbn; [reflexivity | apply IH]. Qed.

Lemma rev_rev (s : string) : PyStr.rev (PyStr.rev s) = s.
Proof. unfold PyStr.rev. rewrite rev_onto_rev_onto. cbn. apply string_app_nil_r. Qed.

Lemma avoids_rev_onto (s acc chars : string) :
  avoids (PyStr.rev_onto s acc) chars = avoids s chars && avoids acc chars.
Proof.
  revert acc. induction s as [|c s IH]; intros acc; cbn; [reflexivity|].
  rewrite IH. cbn. rewrite !andb_assoc. f_equal. apply andb_comm.
Qed.

(** A string without the characters to strip is left as it is. *)
Lemma strip_chars_avoids (s chars : string) :
  avoids s chars = true → PyStr.strip_chars s chars = s.
Proof.
  intros A. unfold PyStr.strip_chars. rewrite (lstrip_avoids _ _ A), lstrip_avoids.
  - apply rev_rev.
  - unfold PyStr.rev. rewrite avoids_rev_onto, A. reflexivity.
Qed.

(** A string without white space is its own [strip]. *)
Lemma strip_avoids (s : string) : avoids s PyStr.whitespace = true → PyStr.strip s = s.
Proof. apply (strip_chars_avoids s PyStr.whitespace). Qed.

(** *** Decimal digits *)

Lemma within_app (a b chars : string) :
  within (a ++ b) chars = within a chars && within b chars.
Proof. induction a as [|c a IH]; cbn; [reflexivity|]. rewrite IH, andb_assoc. reflexivity. Qed.

(** A string made of some characters avoids the characters that are not
    among them. *)
Lemma within_avoids (s chars bad : string) :
  within s chars = true → avoids bad chars = true → avoids s bad = true.
Proof.
  intros W A. induction s as [|c s IH]; [reflexivity|].
  cbn in W |- *. apply andb_true_iff in W as [Hc W]. rewrite (IH W), andb_true_r.
  apply negb_true_iff. destruct (PyStr.contains c bad) eqn:E; [|reflexivity].
  apply contains_In in E. rewrite avoids_In in A. rewrite (A c E) in Hc. discriminate.
Qed.

Lemma digit_cases (c : ascii) :
  PyStr.contains c decimal_digits = true →
  ∃ d, 0 <= d <= 9 ∧ c = PyFormat.digit_char d.
Proof.
  intros H. apply contains_In in H. cbn in H.
  destruct H as [<-|[<-|[<-|[<-|[<-|[<-|[<-|[<-|[<-|[<-|[]]]]]]]]]]];
    [exists 0|exists 1|exists 2|exists 3|exists 4|exists 5|exists 6|exists 7|exists 8|exists 9];
    (split; [lia | reflexivity]).
Qed.

Lemma digit_char_cases (d : Z) (P : Z → Prop) :
  0 <= d <= 9 → P 0 → P 1 → P 2 → P 3 → P 4 → P 5 → P 6 → P 7 → P 8 → P 9 → P d.
Proof.
  intros B. assert (d = 0 ∨ d = 1 ∨ d = 2 ∨ d = 3 ∨ d = 4 ∨ d = 5 ∨ d = 6 ∨ d = 7
                    ∨ d = 8 ∨ d = 9) as [->|[->|[->|[->|[->|[->|[->|[->|[->| ->]]]]]]]]] by lia;
    auto.
Qed.

Lemma digit_char_digit (d : Z) :
  0 <= d <= 9 →
  PyStr.contains (PyFormat.digit_char d) decimal_digits = true
  ∧ PyStr.digit_of (PyFormat.digit_char d) = Some d
  ∧ (PyFormat.digit_char d = "0"%char → d = 0).
Proof.
  intros B. pattern d. apply (digit_char_cases d); [exact B|..];
    (split; [reflexivity | split; [reflexivity | try reflexivity; discriminate]]).
Qed.

Lemma digit_of_digit (c : ascii) :
  PyStr.contains c decimal_digits = true →
  ∃ d, 0 <= d <= 9 ∧ PyStr.digit_of c = Some d ∧ Ascii.eqb c "_" = false
       ∧ c ≠ "-"%char ∧ c ≠ "+"%char.
Proof.
  intros H. destruct (digit_cases c H) as (d & B & ->). exists d. split; [exact B|].
  pattern d. apply (digit_char_cases d); [exact B|..];
    (split; [reflexivity | split; [reflexivity | split; discriminate]]).
Qed.

Lemma value_from_app (a : Z) (s t : string) :
  within s decimal_digits = true →
  value_from a (s ++ t) = value_from (value_from a s) t.
Proof.
  revert a. induction s as [|c s IH]; intros a W; [reflexivity|].
  cbn in W. apply andb_true_iff in W as [Hc W].
  destruct (digit_of_digit c Hc) as (d & _ & E & _).
  cbn [String.append value_from]. rewrite E. apply IH, W.
Qed.

(** [int] reads a string of digits as [value_from] does. *)
Lemma digits_value (s : string) (a : Z) (b : bool) :
  within s decimal_digits = true →
  PyStr.digits s a b
  = match s with
    | "" => if b then Some a else None
    | _ => Some (value_from a s)
    end.
Proof.
  revert a b. induction s as [|c s IH]; intros a b W; [reflexivity|].
  cbn in W. apply andb_true_iff in W as [Hc W].
  destruct (digit_of_digit c Hc) as (d & _ & E & U & _).
  cbn [PyStr.digits value_from]. rewrite U, E, (IH _ _ W). destruct s; reflexivity.
Qed.

Lemma int_whitespace_no_digit : avoids PyStr.int_whitespace decimal_digits = true.
Proof. reflexivity. Qed.

(** Without a sign in front, [int] reads the digits of the whole string. *)
Lemma int_unsigned (c : ascii) (s : string) :
  c ≠ "-"%char → c ≠ "+"%char →
  PyStr.strip_chars (String c s) PyStr.int_whitespace = String c s →
  PyStr.int (String c s)
  = match PyStr.digits (String c s) 0 false with
    | Some n => Ok n
    | None => Raise ("invalid literal for int() with base 10: "
                     ++ PyStr.take 200 (PyStr.repr (String c s)))
    end.
Proof.
  intros Nm Np E. unfold PyStr.int. rewrite E.
  generalize (PyStr.take 200 (PyStr.repr (String c s))). intros text.
  destruct c as [[] [] [] [] [] [] [] []]; try reflexivity; exfalso;
    first [apply Nm; reflexivity | apply Np; reflexivity].
Qed.

Lemma int_digits (s : string) :
  within s decimal_digits = true → s ≠ "" → PyStr.int s = Ok (value_from 0 s).
Proof.
  intros W N. destruct s as [|c s]; [contradiction|].
  pose proof W as W'. cbn [within] in W'. apply andb_true_iff in W' as [Hc _].
  destruct (digit_of_digit c Hc) as (d & _ & _ & _ & Nm & Np).
  rewrite (int_unsigned c s Nm Np
             (strip_chars_avoids _ _ (within_avoids _ _ _ W int_whitespace_no_digit))).
  rewrite (digits_value _ _ _ W). reflexivity.
Qed.

Lemma int_minus_digits (s : string) :
  within s decimal_digits = true → s ≠ "" →
  PyStr.int (String "-" s) = Ok (- value_from 0 s).
Proof.
  intros W N. unfold PyStr.int. rewrite strip_chars_avoids.
  - rewrite (digits_value _ _ _ W). destruct s; [contradiction | reflexivity].
  - cbn [avoids]. rewrite (within_avoids _ _ _ W int_whitespace_no_digit). reflexivity.
Qed.

(** [decimal] writes the digits of [n], without a leading zero unless [n]
    is [0], once the fuel covers them. *)
Lemma decimal_spec (k : nat) (n : Z) (acc : string) :
  0 <= n < 10 ^ Z.of_nat (S k) →
  ∃ c ds, PyFormat.decimal (S k) n acc = String c ds ++ acc
    ∧ within (String c ds) decimal_digits = true
    ∧ (∀ a, value_from a (String c ds) = a * 10 ^ Z.of_nat (String.length (String c ds)) + n)
    ∧ (c = "0"%char → n = 0 ∧ ds = "").
Proof.
  revert n acc. induction k as [|k IH]; intros n acc B.
  - assert (L : n < 10) by (change (10 ^ Z.of_nat 1) with 10 in B; lia).
    assert (M : n mod 10 = n) by (apply Z.mod_small; lia).
    destruct (digit_char_digit n ltac:(lia)) as (D1 & D2 & D3).
    exists (PyFormat.digit_char n), "". cbn [PyFormat.decimal]. rewrite M.
    apply Z.ltb_lt in L. rewrite L. split; [reflexivity|].
    split; [cbn [within]; rewrite D1; reflexivity|].
    split; [|intros E; split; [apply D3, E | reflexivity]].
    intros a. cbn [value_from String.length]. rewrite D2.
    change (10 ^ Z.of_nat 1) with 10. lia.
  - destruct (Z.ltb_spec n 10) as [L | L].
    + destruct (IH n acc) as (c & ds & E & R).
      { split; [lia|]. rewrite Nat2Z.inj_succ, Z.pow_succ_r by lia.
        pose proof (Z.pow_pos_nonneg 10 (Z.of_nat k)). lia. }
      exists c, ds. split; [|exact R].
      rewrite <- E. cbn [PyFormat.decimal]. apply Z.ltb_lt in L. rewrite L.
      reflexivity.
    + assert (P : 10 ^ Z.of_nat (S (S k)) = 10 * 10 ^ Z.of_nat (S k))
        by (rewrite (Nat2Z.inj_succ (S k)), Z.pow_succ_r by lia; reflexivity).
      destruct (IH (n / 10) (String (PyFormat.digit_char (n mod 10)) acc))
        as (c & ds & E & W & V & Z0).
      { split; [apply Z.div_pos; lia|]. apply Z.div_lt_upper_bound; lia. }
      destruct (digit_char_digit (n mod 10)) as (D1 & D2 & _).
      { pose proof (Z.mod_pos_bound n 10). lia. }
      exists c, (ds ++ String (PyFormat.digit_char (n mod 10)) "").
      split; [|split; [|split]].
      * change (PyFormat.decimal (S (S k)) n acc)
          with (if (n <? 10)%Z then String (PyFormat.digit_char (n mod 10)) acc
                else PyFormat.decimal (S k) (n / 10)
                       (String (PyFormat.digit_char (n mod 10)) acc)).
        apply Z.ltb_ge in L. rewrite L, E.
        cbn [String.append]. rewrite string_app_assoc. reflexivity.
      * change (String c (ds ++ String (PyFormat.digit_char (n mod 10)) ""))
          with (String c ds ++ String (PyFormat.digit_char (n mod 10)) "").
        rewrite within_app, W. cbn [within]. rewrite D1. reflexivity.
      * intros a.
        change (String c (ds ++ String (PyFormat.digit_char (n mod 10)) ""))
          with (String c ds ++ String (PyFormat.digit_char (n mod 10)) "").
        rewrite (value_from_app _ _ _ W), V. cbn [value_from]. rewrite D2.
        assert (Len : String.length (String c ds ++ String (PyFormat.digit_char (n mod 10)) "")
                      = S (String.length (String c ds))).
        { clear. generalize (String c ds). intros s. induction s as [|x s IHs];
            [reflexivity | cbn [String.append String.length]; rewrite IHs; reflexivity]. }
        rewrite Len, Nat2Z.inj_succ, Z.pow_succ_r by lia.
        pose proof (Z.div_mod n 10). lia.
      * intros ->. destruct (Z0 eq_refl) as [Q _].
        assert (10 <= n) by lia. pose proof (Z.div_mod n 10).
        pose proof (Z.mod_pos_bound n 10). lia.
Qed.

Lemma str_nat_spec (n : Z) :
  0 <= n →
  ∃ c ds, PyFormat.str_nat n = String c ds
    ∧ within (String c ds) decimal_digits = true
    ∧ value_from 0 (String c ds) = n
    ∧ (c = "0"%char → n = 0 ∧ ds = "").
Proof.
  intros B. unfold PyFormat.str_nat.
  destruct (decimal_spec (Z.to_nat (Z.log2 n)) n "") as (c & ds & E & W & V & Z0).
  - split; [exact B|]. rewrite Nat2Z.inj_succ, Z2Nat.id by apply Z.log2_nonneg.
    destruct (Z.eq_dec n 0) as [-> | N]; [reflexivity|].
    pose proof (Z.log2_spec n ltac:(lia)) as [_ U].
    eapply Z.lt_le_trans; [exact U|].
    apply Z.pow_le_mono_l. pose proof (Z.log2_nonneg n). lia.
  - exists c, ds. rewrite E, string_app_nil_r. repeat split; try tauto.
    rewrite V. lia.
Qed.

Lemma within_zeros (k : nat) : within (PyFormat.zeros k) decimal_digits = true.
Proof. induction k as [|k IH]; [reflexivity | cbn; exact IH]. Qed.

Lemma value_from_zeros (k : nat) (s : string) :
  value_from 0 (PyFormat.zeros k ++ s) = value_from 0 s.
Proof. induction k as [|k IH]; [reflexivity | exact IH]. Qed.

Lemma lstrip_zeros (k : nat) (s : string) :
  PyStr.lstrip (PyFormat.zeros k ++ s) "0" = PyStr.lstrip s "0".
Proof. induction k as [|k IH]; [reflexivity | exact IH]. Qed.

Lemma zeros_not_empty (k : nat) (c : ascii) (s : string) :
  PyFormat.zeros k ++ String c s ≠ "".
Proof. destruct k; discriminate. Qed.

(** The shape of a formatted number: the sign, zeros, the digits. *)
Lemma signed_zero_padded_spec (width : nat) (n : Z) :
  ∃ k c ds,
    PyFormat.signed_zero_padded width n
    = String (if (n <? 0)%Z then "-" else "+")%char (PyFormat.zeros k ++ String c ds)
    ∧ within (String c ds) decimal_digits = true
    ∧ value_from 0 (String c ds) = Z.abs n
    ∧ (c = "0"%char → n = 0 ∧ ds = "").
Proof.
  destruct (str_nat_spec (Z.abs n) (Z.abs_nonneg n)) as (c & ds & E & W & V & Z0).
  exists (width - 1 - String.length (String c ds))%nat, c, ds.
  unfold PyFormat.signed_zero_padded. rewrite E.
  repeat split; try assumption; destruct (Z0 H); [lia | assumption].
Qed.

(** *** Round trips *)

(** The sign, the zeros and the digits have none of the characters [bad],
    when [bad] has no sign and no digit. *)
Lemma number_avoids (n : Z) (k : nat) (c : ascii) (ds bad : string) :
  within (String c ds) decimal_digits = true →
  avoids bad "+-0123456789" = true →
  avoids (String (if (n <? 0)%Z then "-" else "+")%char (PyFormat.zeros k ++ String c ds)) bad
  = true.
Proof.
  intros W A.
  assert (A' : avoids bad decimal_digits = true).
  { apply (avoids_weaken _ _ _ A). intros x Hx. unfold decimal_digits in Hx.
    cbn [PyStr.contains] in *. rewrite Hx, !orb_true_r. reflexivity. }
  cbn [avoids]. rewrite avoids_app.
  rewrite (within_avoids _ _ _ (within_zeros k) A'), (within_avoids _ _ _ W A').
  rewrite andb_true_r, negb_true_iff.
  rewrite avoids_In in A.
  destruct (PyStr.contains _ bad) eqn:E; [|reflexivity].
  apply contains_In in E. apply A in E. destruct (n <? 0)%Z; discriminate.
Qed.

(** [parse_elevation] undoes [elevation_filename]. *)
Lemma parse_elevation_filename (e : Z) :
  parse_elevation (elevation_filename e) = Ok e.
Proof.
  unfold parse_elevation, elevation_filename.
  destruct (signed_zero_padded_spec 6 e) as (k & c & ds & -> & W & V & Z0).
  set (sign := (if (e <? 0)%Z then "-" else "+")%char).
  set (body := String sign (PyFormat.zeros k ++ String c ds)).
  assert (A : ∀ bad, avoids bad "+-0123456789" = true → avoids body bad = true)
    by (intros bad; apply number_avoids, W).
  rewrite (replace_prefix "e" "levation_" "" (body ++ "ft.png")).
  rewrite (replace_avoids "e" "levation_" "")
    by (rewrite avoids_app, A; reflexivity).
  cbn [String.append]. fold (String.append body "ft.png").
  rewrite (replace_suffix "f" "t.png" "" body) by (apply A; reflexivity).
  rewrite string_app_nil_r.
  assert (S1 : PyStr.startswith body "-" = (e <? 0)%Z)
    by (unfold PyStr.startswith, body, sign; destruct (e <? 0)%Z; cbn;
        destruct (PyFormat.zeros k ++ String c ds); reflexivity).
  assert (S2 : PyStr.lstrip body "+-" = PyFormat.zeros k ++ String c ds).
  { unfold body. cbn [PyStr.lstrip].
    replace (PyStr.contains sign "+-") with true by (unfold sign; destruct (e <? 0)%Z; reflexivity).
    apply lstrip_avoids.
    rewrite avoids_app, (within_avoids _ _ _ (within_zeros k)), (within_avoids _ _ _ W);
      reflexivity. }
  rewrite S1, S2, lstrip_zeros.
  destruct (Ascii.eqb_spec c "0") as [-> | N].
  - destruct (Z0 eq_refl) as [-> ->]. reflexivity.
  - assert (S3 : PyStr.lstrip (String c ds) "0" = String c ds).
    { cbn [PyStr.lstrip PyStr.contains]. apply Ascii.eqb_neq in N. rewrite N. reflexivity. }
    rewrite S3. cbn [String.eqb]. rewrite (int_digits _ W) by discriminate.
    rewrite V. cbn [mbind result_bind]. f_equal.
    destruct (Z.ltb_spec e 0); lia.
Qed.

(** The digits of a number are above the power of ten of their count. *)
Lemma value_from_lower (s : string) (a : Z) :
  within s decimal_digits = true → 0 <= a →
  a * 10 ^ Z.of_nat (String.length s) <= value_from a s.
Proof.
  revert a. induction s as [|c s IH]; intros a W A; [cbn; lia|].
  cbn [within] in W. apply andb_true_iff in W as [Hc W].
  destruct (digit_of_digit c Hc) as (d & D & E & _).
  cbn [value_from String.length]. rewrite E.
  specialize (IH (10 * a + d) W ltac:(lia)).
  rewrite Nat2Z.inj_succ, Z.pow_succ_r by lia.
  pose proof (Z.pow_pos_nonneg 10 (Z.of_nat (String.length s))). nia.
Qed.

(** A number below [10 ^ k] is written with at most [k] digits. *)
Lemma str_nat_length (n k : Z) :
  0 <= n < 10 ^ k → 1 <= k →
  Z.of_nat (String.length (PyFormat.str_nat n)) <= k.
Proof.
  intros B K. destruct (str_nat_spec n (proj1 B)) as (c & ds & -> & W & V & Z0).
  cbn [String.length]. rewrite Nat2Z.inj_succ.
  destruct (Ascii.eqb_spec c "0") as [-> | N].
  - destruct (Z0 eq_refl) as [_ ->]. cbn. lia.
  - cbn [within] in W. apply andb_true_iff in W as [Hc W].
    destruct (digit_cases c Hc) as (d & D & ->).
    destruct (digit_char_digit d D) as (_ & E & _).
    assert (D1 : 1 <= d) by (destruct (Z.eq_dec d 0) as [-> |]; [contradiction N; reflexivity | lia]).
    cbn [value_from] in V. rewrite E in V.
    pose proof (value_from_lower ds (10 * 0 + d) W ltac:(lia)) as L. rewrite V in L.
    assert (P : 10 ^ Z.of_nat (String.length ds) < 10 ^ k).
    { pose proof (Z.pow_pos_nonneg 10 (Z.of_nat (String.length ds))). nia. }
    apply Z.pow_lt_mono_r_iff in P; lia.
Qed.

(** The analysis reads back the elevation of the file names the test run
    writes.  For every integer [e] of at most 4300 digits, the limit of
    CPython's conversions, the name that line 264 of [automated_test.py]
    formats for the elevation [e] is written with at most 4300 digits, so
    that neither the f-string nor [int] refuses it, and [parse_elevation]
    applied to the name returns [e], whatever its sign. *)
Theorem elevation_filename_round_trip (e : Z) :
  within_str_digits e →
  Z.of_nat (String.length (PyFormat.str_nat (Z.abs e))) <= max_str_digits
  ∧ parse_elevation (elevation_filename e) = Ok e.
Proof.
  intros B. split; [|exact (parse_elevation_filename e)].
  apply str_nat_length; [|unfold max_str_digits; lia].
  split; [apply Z.abs_nonneg | exact B].
Qed.

Lemma elevation_filename_round_trip_witness :
  within_str_digits (-50)
  ∧ elevation_filename (-50) = "elevation_-00050ft.png"
  ∧ Z.of_nat (String.length (PyFormat.str_nat (Z.abs (-50)))) <= max_str_digits
  ∧ parse_elevation (elevation_filename (-50)) = Ok (-50).
Proof.
  split; [vm_compute; reflexivity|]. split; [vm_compute; reflexivity|].
  apply (elevation_filename_round_trip (-50)). vm_compute. reflexivity.
Defined.

(** [parse_zoom] undoes [zoom_filename] on plain names. *)
Lemma parse_zoom_filename (name : string) (level : Z) :
  plain_name name →
  parse_zoom (zoom_filename name level) = Ok (name, level).
Proof.
  unfold plain_name, parse_zoom, zoom_filename. intros Plain.
  destruct (signed_zero_padded_spec 5 level) as (k & c & ds & -> & W & V & Z0).
  set (sign := (if (level <? 0)%Z then "-" else "+")%char).
  set (digits := PyFormat.zeros k ++ String c ds).
  set (body := String sign digits).
  assert (A : ∀ bad, avoids bad "+-0123456789" = true → avoids body bad = true)
    by (intros bad; apply number_avoids, W).
  assert (Wd : within digits decimal_digits = true)
    by (unfold digits; rewrite within_app, within_zeros, W; reflexivity).
  assert (Nd : digits ≠ "") by apply zeros_not_empty.
  assert (Vd : value_from 0 digits = Z.abs level)
    by (unfold digits; rewrite value_from_zeros; exact V).
  assert (Pz : avoids name "z" = true ∧ avoids name "." = true).
  { split; apply (avoids_weaken _ _ _ Plain); intros x Hx; cbn [PyStr.contains] in *;
      rewrite orb_false_r in Hx; rewrite Hx, ?orb_true_r; reflexivity. }
  destruct Pz as [Pz Pd].
  rewrite (replace_prefix "z" "oom_" "" (name ++ "_" ++ body ++ "ft.png")).
  rewrite (replace_avoids "z" "oom_" "")
    by (rewrite !avoids_app, Pz, A; reflexivity).
  cbn [String.append]. fold (String.append name (String "_" (body ++ "ft.png"))).
  replace (name ++ String "_" (body ++ "ft.png"))
    with ((name ++ String "_" (body ++ "ft")) ++ ".png")
    by (rewrite !string_app_assoc; cbn [String.append]; rewrite !string_app_assoc;
        reflexivity).
  rewrite (replace_suffix "." "png" "")
    by (rewrite avoids_app; cbn [avoids]; rewrite avoids_app, Pd, A; reflexivity).
  rewrite string_app_nil_r. unfold PyStr.rsplit1.
  rewrite (rpartition_last "_" name (body ++ "ft"))
    by (rewrite avoids_app, A; reflexivity).
  cbn [PyStr.index nth_error mbind result_bind].
  rewrite (replace_suffix "f" "t" "" body) by (apply A; reflexivity).
  rewrite string_app_nil_r.
  unfold body, sign. destruct (Z.ltb_spec level 0) as [Neg | Pos].
  - rewrite (replace_avoids "+" "" "")
      by (cbn [avoids]; rewrite (within_avoids _ _ _ Wd); reflexivity).
    rewrite (int_minus_digits _ Wd Nd), Vd. cbn [mbind result_bind].
    do 2 f_equal. lia.
  - change (String "+"%char digits) with ("+" ++ digits).
    rewrite (replace_prefix "+" "" "" digits).
    rewrite (replace_avoids "+" "" "") by (rewrite (within_avoids _ _ _ Wd); reflexivity).
    cbn [String.append]. rewrite (int_digits _ Wd Nd), Vd. cbn [mbind result_bind].
    do 2 f_equal. lia.
Qed.

(** The analysis reads back the test name and the water level of the
    zoom file names the test run writes.  For a test name without [z] and
    without dot and an integer level of at most 4300 digits, the limit of
    CPython's conversions, the name that line 239 of [automated_test.py]
    formats is written with at most 4300 digits, so that neither the
    f-string nor [int] refuses it, and [parse_zoom] applied to the name
    returns the test name and the level.  The test name may hold
    underscores: the split is at the last one. *)
Theorem zoom_filename_round_trip (name : string) (level : Z) :
  plain_name name →
  within_str_digits level →
  Z.of_nat (String.length (PyFormat.str_nat (Z.abs level))) <= max_str_digits
  ∧ parse_zoom (zoom_filename name level) = Ok (name, level).
Proof.
  intros P B. split; [|exact (parse_zoom_filename name level P)].
  apply str_nat_length; [|unfold max_str_digits; lia].
  split; [apply Z.abs_nonneg | exact B].
Qed.

(** The names of [ZOOM_TESTS] are plain; [Global_Full] at level [-100]. *)
Lemma zoom_filename_round_trip_witness :
  plain_name "Global_Full"
  ∧ within_str_digits (-100)
  ∧ zoom_filename "Global_Full" (-100) = "zoom_Global_Full_-0100ft.png"
  ∧ Z.of_nat (String.length (PyFormat.str_nat (Z.abs (-100)))) <= max_str_digits
  ∧ parse_zoom (zoom_filename "Global_Full" (-100)) = Ok ("Global_Full", -100).
Proof.
  split; [reflexivity|]. split; [vm_compute; reflexivity|].
  split; [vm_compute; reflexivity|].
  apply (zoom_filename_round_trip "Global_Full" (-100));
    [reflexivity | vm_compute; reflexivity].
Defined.

End Names.

(** ** A test run followed by the analysis *)
Section TestRun.
Open Scope string_scope.
#[local] Arguments String.append !_ _ : simpl nomatch.

Lemma elevation_filename_selected (e : Z) :
  PyStr.startswith (elevation_filename e) "elevation_" = true
  ∧ PyStr.startswith (elevation_filename e) "zoom_" = false.
Proof. split; reflexivity. Qed.

Lemma elevation_filename_inj (e e' : Z) :
  elevation_filename e = elevation_filename e' → e = e'.
Proof.
  intros H. pose proof (parse_elevation_filename e) as P.
  rewrite H, parse_elevation_filename in P. congruence.
Qed.

(** The elevation screenshots of a test run, analysed: when the directory
    holds no zoom file and its elevation files are the ones line 264 of
    [automated_test.py] names for the elevations [es], [main] returns, and
    the dictionary it returns has exactly the elevations [es] as keys, each
    with the analysis of its own screenshot.  No entry is overwritten. *)
Theorem tested_elevations_analysed (w : World) (es : list Z) :
  selected w "zoom_" = [] →
  (∀ f, In f (selected w "elevation_") ↔ In f (map elevation_filename es)) →
  ∃ r m, main w = Ok r ∧ returned r = ElevationResults m
    ∧ (∀ e, In e es → m !! e = Some (analysis_of w (elevation_filename e)))
    ∧ (∀ k, is_Some (m !! k) → In k es).
Proof.
  intros Z0 Sel.
  assert (P : ∀ f, In f (selected w "elevation_") →
                   ∃ e, In e es ∧ f = elevation_filename e ∧ parse_elevation f = Ok e).
  { intros f Hf. apply Sel, in_map_iff in Hf as (e & <- & He).
    exists e. split; [exact He|]. split; [reflexivity | apply parse_elevation_filename]. }
  destruct (selected w "elevation_") as [|f0 files] eqn:E.
  - exists {| printed := [NoScreenshots "No screenshots found!"]; written := None;
              returned := ElevationResults ∅ |}, ∅.
    split; [apply main_empty; [exact Z0 | exact E]|]. split; [reflexivity|]. split.
    + intros e He. exfalso. apply (proj2 (Sel (elevation_filename e))).
      apply in_map, He.
    + intros k [a Ha]. rewrite lookup_empty in Ha. discriminate.
  - rewrite <- E in *.
    assert (NE : selected w "elevation_" ≠ []) by (rewrite E; discriminate).
    destruct (elevation_mode_ok w (selected w "elevation_")) as [r Hr].
    { intros f Hf. destruct (P f Hf) as (e & _ & _ & Pe). exists e. exact Pe. }
    destruct (elevation_mode_inv w _ r Hr) as (fks & Ret & _ & Fst & All).
    exists r, (entered w fks ∅). split; [rewrite (main_elevation w Z0 NE); exact Hr|].
    split; [exact Ret|].
    rewrite List.Forall_forall in All.
    assert (Fk : ∀ f k, In (f, k) fks → ∃ e, In e es ∧ f = elevation_filename e ∧ k = e).
    { intros f k Hfk. pose proof (All _ Hfk) as Pk. cbn [fst snd] in Pk.
      assert (Hf : In f (selected w "elevation_"))
        by (rewrite <- Fst; apply in_map_iff; exists (f, k); split; [reflexivity | exact Hfk]).
      destruct (P f Hf) as (e & He & -> & Pe). exists e.
      split; [exact He|]. split; [reflexivity | congruence]. }
    split.
    + intros e He.
      assert (Hf : In (elevation_filename e) (map fst fks))
        by (rewrite Fst; apply Sel, in_map, He).
      apply in_map_iff in Hf as ([f k] & Ef & Hfk). cbn [fst] in Ef. subst f.
      destruct (Fk _ _ Hfk) as (e' & _ & Ee & ->).
      apply elevation_filename_inj in Ee. subst e'.
      destruct (entered_lookup_some w fks ∅ _ _ Hfk) as [a Ha].
      rewrite Ha. f_equal.
      destruct (entered_lookup_inv w fks ∅ e a Ha) as [Em | (f' & Hf' & ->)].
      * rewrite lookup_empty in Em. discriminate.
      * destruct (Fk _ _ Hf') as (e' & _ & -> & <-). reflexivity.
    + intros k [a Ha].
      destruct (entered_lookup_inv w fks ∅ k a Ha) as [Em | (f' & Hf' & _)].
      * rewrite lookup_empty in Em. discriminate.
      * destruct (Fk _ _ Hf') as (e' & He' & _ & ->). exact He'.
Qed.

(** Two lists of names with the same members, by evaluation. *)
Lemma same_members (l1 l2 : list string) :
  forallb (λ x, existsb (String.eqb x) l2) l1
  && forallb (λ x, existsb (String.eqb x) l1) l2 = true →
  ∀ f, In f l1 ↔ In f l2.
Proof.
  rewrite andb_true_iff, !forallb_forall. intros [H1 H2] f.
  split; intros H; [apply H1 in H | apply H2 in H];
    apply existsb_exists in H as (y & Hy & E); apply String.eqb_eq in E; subst y; exact Hy.
Qed.

Lemma tested_elevations_analysed_witness :
  selected elevation_test_run "zoom_" = []
  ∧ (∀ f, In f (selected elevation_test_run "elevation_")
          ↔ In f (map elevation_filename TEST_ELEVATIONS))
  ∧ ∃ r m, main elevation_test_run = Ok r ∧ returned r = ElevationResults m
      ∧ (∀ e, In e TEST_ELEVATIONS
              → m !! e = Some (analysis_of elevation_test_run (elevation_filename e)))
      ∧ (∀ k, is_Some (m !! k) → In k TEST_ELEVATIONS).
Proof.
  split; [vm_compute; reflexivity|].
  split; [apply same_members; vm_compute; reflexivity|].
  apply (tested_elevations_analysed elevation_test_run TEST_ELEVATIONS).
  - vm_compute; reflexivity.
  - apply same_members; vm_compute; reflexivity.
Defined.

Lemma Forall2_In_r {A B} (R : A → B → Prop) (l1 : list A) (l2 : list B) (y : B) :
  Forall2 R l1 l2 → In y l2 → ∃ x, In x l1 ∧ R x y.
Proof.
  induction 1 as [|x y' l1 l2 H F IH]; intros Hy; [destruct Hy|].
  destruct Hy as [<- | Hy]; [exists x; split; [left; reflexivity | exact H]|].
  destruct (IH Hy) as (x' & Hx' & Hr). exists x'. split; [right; exact Hx' | exact Hr].
Qed.

Lemma Forall2_In_l {A B} (R : A → B → Prop) (l1 : list A) (l2 : list B) (x : A) :
  Forall2 R l1 l2 → In x l1 → ∃ y, In y l2 ∧ R x y.
Proof.
  induction 1 as [|x' y l1 l2 H F IH]; intros Hx; [destruct Hx|].
  destruct Hx as [<- | Hx]; [exists y; split; [left; reflexivity | exact H]|].
  destruct (IH Hx) as (y' & Hy' & Hr). exists y'. split; [right; exact Hy' | exact Hr].
Qed.

(** The zoom screenshots of a test run, analysed: when the zoom files of
    the directory are the ones line 239 of [automated_test.py] names for
    the tests, which have plain names, [main] returns one row per file, and
    the rows are the tests: each with its name, its water level and the
    analysis of its own screenshot. *)
Theorem tested_zoom_levels_analysed (w : World) (tests : list (string * Z)) :
  tests ≠ [] →
  (∀ t, In t tests → plain_name t.1) →
  (∀ f, In f (selected w "zoom_") ↔ In f (map (λ t, zoom_filename t.1 t.2) tests)) →
  ∃ r rows, main w = Ok r ∧ returned r = ZoomResults rows
    ∧ length rows = length (selected w "zoom_")
    ∧ ∀ row, In row rows
        ↔ ∃ t, In t tests
               ∧ row = {| test_name := t.1; water_level_ft := t.2;
                          row_analysis := analysis_of w (zoom_filename t.1 t.2) |}.
Proof.
  intros NT Plain Sel.
  assert (R : ∀ t, In t tests →
                zoom_row w (zoom_filename t.1 t.2)
                = Ok {| test_name := t.1; water_level_ft := t.2;
                        row_analysis := analysis_of w (zoom_filename t.1 t.2) |}).
  { intros t Ht. unfold zoom_row.
    rewrite (parse_zoom_filename t.1 t.2 (Plain t Ht)). reflexivity. }
  assert (NE : selected w "zoom_" ≠ []).
  { destruct tests as [|t tests]; [contradiction|].
    assert (H : In (zoom_filename t.1 t.2) (selected w "zoom_"))
      by (apply Sel; left; reflexivity).
    intros E. rewrite E in H. destruct H. }
  destruct (zoom_mode_ok w (selected w "zoom_")) as [r Hr].
  { intros f Hf. apply Sel, in_map_iff in Hf as (t & <- & Ht).
    exists (t.1, t.2). apply parse_zoom_filename, Plain, Ht. }
  destruct (zoom_mode_inv w _ r Hr) as (rows & Ret & _ & F).
  exists r, rows. split; [rewrite (main_zoom w NE); exact Hr|]. split; [exact Ret|].
  split; [symmetry; exact (Forall2_length _ _ _ F)|].
  intros row. split.
  - intros Hrow. destruct (Forall2_In_r _ _ _ _ F Hrow) as (f & Hf & Hz).
    apply Sel, in_map_iff in Hf as (t & <- & Ht). exists t. split; [exact Ht|].
    rewrite (R t Ht) in Hz. congruence.
  - intros (t & Ht & ->).
    assert (Hf : In (zoom_filename t.1 t.2) (selected w "zoom_"))
      by (apply Sel, in_map_iff; exists t; split; [reflexivity | exact Ht]).
    destruct (Forall2_In_l _ _ _ _ F Hf) as (row & Hrow & Hz).
    rewrite (R t Ht) in Hz. congruence.
Qed.

Lemma tested_zoom_levels_analysed_witness :
  zoom_screenshots ZOOM_TESTS ≠ []
  ∧ (∀ t, In t (zoom_screenshots ZOOM_TESTS) → plain_name t.1)
  ∧ (∀ f, In f (selected zoom_test_run "zoom_")
          ↔ In f (map (λ t, zoom_filename t.1 t.2) (zoom_screenshots ZOOM_TESTS)))
  ∧ ∃ r rows, main zoom_test_run = Ok r ∧ returned r = ZoomResults rows
      ∧ length rows = length (selected zoom_test_run "zoom_")
      ∧ ∀ row, In row rows
          ↔ ∃ t, In t (zoom_screenshots ZOOM_TESTS)
                 ∧ row = {| test_name := t.1; water_level_ft := t.2;
                            row_analysis :=
                              analysis_of zoom_test_run (zoom_filename t.1 t.2) |}.
Proof.
  assert (P : ∀ t, In t (zoom_screenshots ZOOM_TESTS) → plain_name t.1).
  { apply List.Forall_forall. vm_compute. repeat constructor. }
  split; [discriminate|]. split; [exact P|].
  split; [apply same_members; vm_compute; reflexivity|].
  apply (tested_zoom_levels_analysed zoom_test_run (zoom_screenshots ZOOM_TESTS)).
  - discriminate.
  - exact P.
  - apply same_members; vm_compute; reflexivity.
Defined.

(** *** The second run *)

Lemma string_app_inv_head (a b c : string) : a ++ b = a ++ c → b = c.
Proof.
  induction a as [|x a IH]; cbn [String.append]; intros H; [exact H|].
  injection H as H. exact (IH H).
Qed.

Lemma path_join_inj (dir f g : string) : path_join dir f = path_join dir g → f = g.
Proof.
  unfold path_join. intros H. apply string_app_inv_head in H.
  cbn [String.append] in H. injection H as H. exact H.
Qed.

(** A loop over names that parse, except some that raise [e], raises
    [e]. *)
Lemma zoom_loop_raises_in (w : World) (e : string) (files : list string) :
  (∀ f, In f files → (∃ v, parse_zoom f = Ok v) ∨ parse_zoom f = Raise e) →
  (∃ f, In f files ∧ parse_zoom f = Raise e) →
  ∀ st, for_each files (zoom_step w) st = Raise e.
Proof.
  induction files as [|f files IH]; intros All (g & Hg & Pg) st; [destruct Hg|].
  cbn [for_each]. destruct (All f (or_introl eq_refl)) as [Ok_f | Bad].
  - destruct (zoom_step_succeeds w f Ok_f st) as [st' ->]. cbn [mbind result_bind].
    apply IH.
    + intros f' Hf'. apply All. right. exact Hf'.
    + exists g. split; [|exact Pg]. destruct Hg as [<- | Hg]; [|exact Hg].
      destruct Ok_f as [v Pv]. congruence.
  - rewrite (zoom_step_raises w f e st Bad). reflexivity.
Qed.

(** The summary of a zoom run breaks the next run.  [main] writes
    [zoom_analysis.json] into the directory it lists, and the name starts
    with [zoom_]: in the directory a successful zoom run leaves, the next
    run selects the summary as a screenshot, finds no second part in its
    name and raises [IndexError], whatever the files contain. *)
Theorem zoom_summary_breaks_the_next_run (w w' : World) (r : run) :
  selected w "zoom_" ≠ [] →
  main w = Ok r →
  after w r w' →
  main w' = Raise "list index out of range".
Proof.
  intros NE Hr Aft. rewrite (main_zoom w NE) in Hr.
  destruct (zoom_mode_inv w _ r Hr) as (rows & _ & Wr & F).
  assert (Summary : In "zoom_analysis.json" (listdir w'))
    by (apply Aft; right; eexists; exact Wr).
  assert (NE' : selected w' "zoom_" ≠ [])
    by (apply selected_not_nil; exists "zoom_analysis.json"; split; [exact Summary | reflexivity]).
  rewrite (main_zoom w' NE'). unfold zoom_mode.
  rewrite (zoom_loop_raises_in w' "list index out of range"); [reflexivity | |].
  - intros f Hf. apply selected_In in Hf as [Hf Pre].
    apply Aft in Hf as [Old | (content & New)].
    + left. assert (Hs : In f (selected w "zoom_")) by (apply selected_In; split; assumption).
      destruct (Forall2_In_l _ _ _ _ F Hs) as (row & _ & Hz).
      apply zoom_row_inv in Hz as [Pz _]. eexists. exact Pz.
    + right. rewrite Wr in New. injection New as New _.
      apply path_join_inj in New. subst f. reflexivity.
  - exists "zoom_analysis.json". split; [|reflexivity].
    apply selected_In. split; [exact Summary | reflexivity].
Qed.

Lemma zoom_summary_breaks_the_next_run_witness :
  selected zoom_and_elevation "zoom_" ≠ []
  ∧ ∃ r, main zoom_and_elevation = Ok r
      ∧ after zoom_and_elevation r zoom_and_elevation_again
      ∧ main zoom_and_elevation_again = Raise "list index out of range".
Proof.
  split; [discriminate|]. eexists. split; [vm_compute; reflexivity|].
  assert (A : after zoom_and_elevation
                (match main zoom_and_elevation with
                 | Ok r => r
                 | Raise _ => {| printed := []; written := None;
                                 returned := ZoomResults [] |}
                 end)
                zoom_and_elevation_again).
  { intros f. cbn [listdir zoom_and_elevation_again In]. split.
    - intros [<- | H]; [right; eexists; vm_compute; reflexivity | left; exact H].
    - intros [H | (content & H)]; [right; exact H|]. left.
      vm_compute in H. injection H as H _. congruence. }
  split; [exact A|].
  apply (zoom_summary_breaks_the_next_run zoom_and_elevation zoom_and_elevation_again _
           ltac:(discriminate) ltac:(vm_compute; reflexivity) A).
Defined.

End TestRun.

(** ** The Cesium token *)
Section Token.
Open Scope string_scope.
#[local] Arguments String.append !_ _ : simpl nomatch.

(** *** [strip] twice *)

Lemma lstrip_lstrip (s chars : string) :
  PyStr.lstrip (PyStr.lstrip s chars) chars = PyStr.lstrip s chars.
Proof.
  induction s as [|c s IH]; [reflexivity|]. cbn [PyStr.lstrip].
  destruct (PyStr.contains c chars) eqn:E; [exact IH|].
  cbn [PyStr.lstrip]. rewrite E. reflexivity.
Qed.

Lemma rev_onto_app (s acc : string) : PyStr.rev_onto s acc = PyStr.rev s ++ acc.
Proof.
  unfold PyStr.rev. revert acc. induction s as [|c s IH]; intros acc; [reflexivity|].
  cbn [PyStr.rev_onto]. rewrite (IH (String c acc)), (IH (String c "")).
  rewrite string_app_assoc. reflexivity.
Qed.

Lemma rev_onto_snoc (s acc : string) (c : ascii) :
  PyStr.rev_onto (s ++ String c "") acc = String c (PyStr.rev_onto s acc).
Proof.
  revert acc. induction s as [|d s IH]; intros acc; [reflexivity|].
  cbn [String.append PyStr.rev_onto]. apply IH.
Qed.

Lemma rev_snoc (s : string) (c : ascii) :
  PyStr.rev (s ++ String c "") = String c (PyStr.rev s).
Proof. apply rev_onto_snoc. Qed.

(** Stripping on the left a string that ends with a character that stays
    leaves a string that ends with it. *)
Lemma lstrip_snoc (s chars : string) (c : ascii) :
  PyStr.contains c chars = false →
  ∃ t, PyStr.lstrip (s ++ String c "") chars = t ++ String c ""
       ∧ PyStr.lstrip t chars = t.
Proof.
  intros N. induction s as [|d s IH].
  - exists "". cbn. rewrite N. split; reflexivity.
  - cbn [String.append PyStr.lstrip]. destruct (PyStr.contains d chars) eqn:E; [exact IH|].
    exists (String d s). split; [reflexivity|]. cbn [PyStr.lstrip]. rewrite E. reflexivity.
Qed.

Lemma lstrip_head (s chars u : string) (c : ascii) :
  PyStr.lstrip s chars = String c u → PyStr.contains c chars = false.
Proof.
  induction s as [|d s IH]; [discriminate|]. cbn [PyStr.lstrip].
  destruct (PyStr.contains d chars) eqn:E; [exact IH|].
  intros H. injection H as -> _. exact E.
Qed.

(** [strip] leaves nothing to strip. *)
Lemma strip_strip (s : string) : PyStr.strip (PyStr.strip s) = PyStr.strip s.
Proof.
  unfold PyStr.strip at 2 3.
  destruct (PyStr.lstrip s PyStr.whitespace) as [|c u] eqn:U; [reflexivity|].
  pose proof (lstrip_head _ _ _ _ U) as N.
  assert (R : PyStr.rev (String c u) = PyStr.rev u ++ String c "")
    by (unfold PyStr.rev at 1; cbn [PyStr.rev_onto]; apply rev_onto_app).
  rewrite R. destruct (lstrip_snoc (PyStr.rev u) PyStr.whitespace c N) as (t & E & _).
  pose proof (lstrip_lstrip (PyStr.rev u ++ String c "") PyStr.whitespace) as I.
  rewrite E in I |- *. rewrite rev_snoc. unfold PyStr.strip.
  assert (L1 : PyStr.lstrip (String c (PyStr.rev t)) PyStr.whitespace
               = String c (PyStr.rev t))
    by (cbn [PyStr.lstrip]; rewrite N; reflexivity).
  assert (R2 : PyStr.rev (String c (PyStr.rev t)) = t ++ String c "")
    by (unfold PyStr.rev at 1; cbn [PyStr.rev_onto]; rewrite rev_onto_app, rev_rev;
        reflexivity).
  rewrite L1, R2, I, rev_snoc. reflexivity.
Qed.

Lemma lstrip_within (s chars : string) :
  within s chars = true → PyStr.lstrip s chars = "".
Proof.
  induction s as [|c s IH]; [reflexivity|]. cbn [within PyStr.lstrip].
  intros H. apply andb_true_iff in H as [-> H]. exact (IH H).
Qed.

(** A string of white space strips to nothing. *)
Lemma strip_blank (s : string) : within s PyStr.whitespace = true → PyStr.strip s = "".
Proof. intros W. unfold PyStr.strip. rewrite (lstrip_within _ _ W). reflexivity. Qed.

(** Text without carriage return is read as it is. *)
Lemma universal_newlines_plain (s : string) :
  avoids s (String CR "") = true → universal_newlines s = s.
Proof.
  induction s as [|c s IH]; [reflexivity|].
  cbn [avoids PyStr.contains universal_newlines].
  rewrite orb_false_r, andb_true_iff, negb_true_iff. intros [-> A].
  rewrite (IH A). reflexivity.
Qed.

(** What [lstrip] and [strip] leave is part of the string. *)
Lemma avoids_lstrip (s chars bad : string) :
  avoids s bad = true → avoids (PyStr.lstrip s chars) bad = true.
Proof.
  induction s as [|c s IH]; [reflexivity|]. cbn [PyStr.lstrip]. intros A.
  destruct (PyStr.contains c chars); [|exact A].
  cbn [avoids] in A. apply andb_true_iff in A as [_ A]. exact (IH A).
Qed.

Lemma avoids_rev (s bad : string) : avoids (PyStr.rev s) bad = avoids s bad.
Proof. unfold PyStr.rev. rewrite avoids_rev_onto. cbn [avoids]. apply andb_true_r. Qed.

Lemma avoids_strip (s bad : string) :
  avoids s bad = true → avoids (PyStr.strip s) bad = true.
Proof.
  intros A. unfold PyStr.strip. rewrite avoids_rev. apply avoids_lstrip.
  rewrite avoids_rev. apply avoids_lstrip, A.
Qed.

(** *** The token *)

Lemma truthy_true (s : string) : truthy s = true ↔ s ≠ "".
Proof.
  unfold truthy. rewrite negb_true_iff. split.
  - intros H ->. discriminate.
  - intros H. apply String.eqb_neq, H.
Qed.

Lemma token_from_file_none (sys : System) :
  no_variable sys → get_cesium_token sys = token_from_file sys.
Proof. unfold get_cesium_token. intros [-> | ->]; reflexivity. Qed.

(** The token returned has no white space around it, whichever of the
    variable, the file and the prompt it comes from. *)
Theorem token_is_stripped (sys : System) (o : outcome) :
  get_cesium_token sys = Ok o → PyStr.strip (token o) = token o.
Proof.
  unfold get_cesium_token, token_from_file, prompt_for_token, read_text.
  intros H.
  assert (F : (match token_file sys with
               | Some file =>
                   text ← (text ← file; Ok (universal_newlines text));
                   Ok {| token := PyStr.strip text; shown := [];
                         file_after := token_file sys |}
               | None => prompt_for_token sys
               end) = Ok o → PyStr.strip (token o) = token o).
  { clear H. unfold prompt_for_token. destruct (token_file sys) as [[text | e] |].
    - cbn [mbind result_bind]. intros H. injection H as <-. apply strip_strip.
    - discriminate.
    - destruct (typed sys) as [line | e]; [|discriminate]. cbn [mbind result_bind].
      destruct (truthy (PyStr.strip line)).
      + destruct (write_error sys); [discriminate|].
        intros H. injection H as <-. apply strip_strip.
      + intros H. injection H as <-. apply strip_strip. }
  destruct (CESIUM_TOKEN sys) as [v|]; [|exact (F H)].
  destruct (truthy v); [|exact (F H)].
  injection H as <-. apply strip_strip.
Qed.

Lemma token_is_stripped_witness :
  ∃ o, get_cesium_token first_call = Ok o
       ∧ token o = "eyJhbGciOi.J9" ∧ PyStr.strip (token o) = token o.
Proof.
  eexists. split; [vm_compute; reflexivity|]. split; [reflexivity|].
  apply (token_is_stripped first_call). vm_compute. reflexivity.
Defined.

(** The token typed once is found again.  A call without variable and
    without file, answered by a line that is not blank, returns the line
    stripped and saves it; every later call without variable returns the
    same token from the file, prints nothing and does not prompt.  The line
    has no carriage return: one inside the token would be read back as a
    line feed. *)
Theorem saved_token_is_found_again (sys : System) (line : string) :
  no_variable sys →
  token_file sys = None →
  write_error sys = None →
  typed sys = Ok line →
  PyStr.strip line ≠ "" →
  avoids line (String CR "") = true →
  ∃ o, get_cesium_token sys = Ok o
       ∧ token o = PyStr.strip line
       ∧ file_after o = Some (Ok (token o))
       ∧ ∀ sys', later o sys' →
           get_cesium_token sys'
           = Ok {| token := token o; shown := []; file_after := file_after o |}.
Proof.
  intros NV NF NW T NE Plain.
  eexists. split.
  - rewrite (token_from_file_none sys NV). unfold token_from_file, prompt_for_token.
    rewrite NF, T. cbn [mbind result_bind].
    rewrite (proj2 (truthy_true _) NE), NW. reflexivity.
  - cbn [token file_after]. split; [reflexivity|]. split; [reflexivity|].
    intros sys' [NV' F']. cbn [file_after] in F'.
    rewrite (token_from_file_none sys' NV'). unfold token_from_file, read_text.
    rewrite F'. cbn [mbind result_bind].
    rewrite (universal_newlines_plain _ (avoids_strip _ _ Plain)), strip_strip.
    reflexivity.
Qed.

Lemma saved_token_is_found_again_witness :
  no_variable first_call
  ∧ ∃ o, get_cesium_token first_call = Ok o
       ∧ token o = "eyJhbGciOi.J9"
       ∧ later o second_call
       ∧ get_cesium_token second_call
         = Ok {| token := token o; shown := []; file_after := file_after o |}.
Proof.
  split; [left; reflexivity|].
  destruct (saved_token_is_found_again first_call "  eyJhbGciOi.J9  ")
    as (o & H & T & F & L);
    [left; reflexivity | reflexivity | reflexivity | reflexivity
    | vm_compute; discriminate | vm_compute; reflexivity |].
  exists o. split; [exact H|]. split; [rewrite T; vm_compute; reflexivity|].
  assert (La : later o second_call).
  { split; [left; reflexivity|]. rewrite F, T. vm_compute. reflexivity. }
  split; [exact La | exact (L second_call La)].
Defined.

(** The token file is written once.  A call that changes the file had no
    variable to read and found nothing at the path of the file; what it
    leaves there is the token it returns, which is not empty.  A file that
    exists is never written. *)
Theorem token_file_written_once (sys : System) (o : outcome) :
  get_cesium_token sys = Ok o →
  file_after o ≠ token_file sys →
  no_variable sys ∧ token_file sys = None
  ∧ file_after o = Some (Ok (token o)) ∧ token o ≠ "".
Proof.
  unfold get_cesium_token, token_from_file, prompt_for_token, read_text.
  intros H Ch.
  assert (F : (match token_file sys with
               | Some file =>
                   text ← (text ← file; Ok (universal_newlines text));
                   Ok {| token := PyStr.strip text; shown := [];
                         file_after := token_file sys |}
               | None => prompt_for_token sys
               end) = Ok o →
              token_file sys = None ∧ file_after o = Some (Ok (token o)) ∧ token o ≠ "").
  { clear H. unfold prompt_for_token. destruct (token_file sys) as [[text | e] |] eqn:TF.
    - cbn [mbind result_bind]. intros H. injection H as <-. contradiction.
    - discriminate.
    - destruct (typed sys) as [line | e]; [|discriminate]. cbn [mbind result_bind].
      destruct (truthy (PyStr.strip line)) eqn:Tr.
      + destruct (write_error sys); [discriminate|].
        intros H. injection H as <-. cbn [token file_after].
        split; [reflexivity|]. split; [reflexivity|]. apply truthy_true, Tr.
      + intros H. injection H as <-. contradiction. }
  destruct (CESIUM_TOKEN sys) as [v|] eqn:V.
  - destruct (truthy v) eqn:Tv.
    + injection H as <-. contradiction.
    + split; [|exact (F H)]. right. unfold no_variable. rewrite V. f_equal.
      unfold truthy in Tv. apply negb_false_iff, String.eqb_eq in Tv. exact Tv.
  - split; [|exact (F H)]. left. exact V.
Qed.

Lemma token_file_written_once_witness :
  ∃ o, get_cesium_token first_call = Ok o
       ∧ file_after o ≠ token_file first_call
       ∧ token_file first_call = None
       ∧ file_after o = Some (Ok (token o)) ∧ token o ≠ "".
Proof.
  eexists. split; [vm_compute; reflexivity|]. split; [discriminate|].
  eapply (token_file_written_once first_call); [vm_compute; reflexivity | discriminate].
Defined.

(** A variable set to blanks gives an empty token.  The variable counts as
    set, so neither the file nor the prompt is tried, and what is returned
    is the variable stripped: nothing, even beside a file that holds a
    token. *)
Theorem blank_variable_gives_empty_token (sys : System) (v : string) :
  CESIUM_TOKEN sys = Some v → v ≠ "" → within v PyStr.whitespace = true →
  get_cesium_token sys = Ok {| token := ""; shown := []; file_after := token_file sys |}.
Proof.
  intros V NE W. unfold get_cesium_token.
  rewrite V, (proj2 (truthy_true v) NE), (strip_blank v W). reflexivity.
Qed.

Lemma blank_variable_gives_empty_token_witness :
  token_file blank_variable = Some (Ok "eyJhbGciOi.J9")
  ∧ get_cesium_token blank_variable
    = Ok {| token := ""; shown := []; file_after := token_file blank_variable |}.
Proof.
  split; [reflexivity|].
  apply (blank_variable_gives_empty_token blank_variable "  ");
    [reflexivity | discriminate | reflexivity].
Defined.

End Token.

(** ** Test names the analysis does not read back *)
Section Mangled.
Open Scope string_scope.
#[local] Arguments String.append !_ _ : simpl nomatch.






End Mangled.
